(** * Voxa-Captions: the transcription pipeline

    A shallow embedding of [transcription_engine.py] (engine discovery,
    audio conversion, engine invocation, whisper.cpp output parsing) and of
    [TranscriptionThread.run] in [caption_generator_app.py] (the batch loop),
    of [test_transcription] and of the methods of [VoxaCaptionsApp] that
    select the files and the model and start a batch, followed by the
    properties the specification states about them and by further
    properties of the code.

    Conventions of the embedding.
    - A Python value decoded by [json.loads] is a [json] term. A [str] is a
      Rocq [string], one character per code point (code points below 256).
      A [dict] is the list of its items in insertion order, keys pairwise
      distinct as [json.loads] produces them.
    - A Python [float] is a binary64 number of [SpecFloat]; arithmetic on
      floats is the IEEE-754 arithmetic of that library.
    - A raised exception is a value of [exn]; a computation that may raise
      returns a [result]. Formatted messages keep their arguments as
      constructor arguments instead of rendering them to text.
    - The file system is a finite map from path to content. External
      programs (ffmpeg, whisper.cpp) and the [os.path], [pathlib], codec and
      [json] library functions are the fields of the [Platform] class, and
      so is whether the saving of a JSON file or the removal of a file
      fails. *)

From Stdlib Require Import ZArith Lia List String Ascii Bool.
From Stdlib Require Import Floats.SpecFloat.
From stdpp Require Import base gmap strings list.

Set Warnings "-register-all".

Local Open Scope string_scope.
Local Open Scope Z_scope.
Local Open Scope list_scope.

(** ** Binary64 floats *)

Module Float64.

Definition prec : Z := 53.
Definition emax : Z := 1024.

Definition mul : spec_float -> spec_float -> spec_float := SFmul prec emax.
Definition add : spec_float -> spec_float -> spec_float := SFadd prec emax.
Definition sub : spec_float -> spec_float -> spec_float := SFsub prec emax.
Definition div : spec_float -> spec_float -> spec_float := SFdiv prec emax.

(** The float nearest to an integer (ties to even); an infinity when the
    integer is beyond the range of binary64. *)
Definition of_Z (z : Z) : spec_float := binary_normalize prec emax z 0 false.

(** The correctly rounded quotient of two integers, [b] not zero. The
    division core of [SpecFloat] takes mantissas of any width and rounds the
    exact quotient once, so the operands are passed unnormalised. *)
Definition div_Z (a b : Z) : spec_float :=
  match a with
  | Z0 => S754_zero (b <? 0)
  | _ =>
      div (S754_finite (a <? 0) (Z.to_pos (Z.abs a)) 0)
          (S754_finite (b <? 0) (Z.to_pos (Z.abs b)) 0)
  end.

(** Truncation toward zero of a finite float. *)
Definition trunc (f : spec_float) : option Z :=
  match f with
  | S754_zero _ => Some 0
  | S754_finite s m e =>
      Some (cond_Zopp s (if 0 <=? e then Z.pos m * 2 ^ e else Z.pos m / 2 ^ (- e)))
  | S754_infinity _ | S754_nan => None
  end.

Definition is_finite (f : spec_float) : bool :=
  match f with
  | S754_zero _ | S754_finite _ _ _ => true
  | S754_infinity _ | S754_nan => false
  end.

(** The literal [0.95]. *)
Definition c0_95 : spec_float := S754_finite false 8556839292003942 (-53).

(** A bound on the exponent of the result of rounding [m * 2 ^ e]. *)
Definition exp_bound (m e : Z) : Z :=
  Z.max (Z.max e (emin prec emax)) (Zdigits2 m + e + 1 - prec).

(** Floats of moderate size: the results of converting an integer below
    [2 ^ 53] and of dividing two such integers. *)
Definition small_float (f : spec_float) : Prop :=
  match f with
  | S754_zero _ => True
  | S754_finite _ m e => Z.pos m <= 2 ^ 54 /\ e <= 2
  | S754_infinity _ | S754_nan => False
  end.

End Float64.

(** ** Python values and exceptions *)

Inductive json : Type :=
| JNull
| JBool (b : bool)
| JInt (z : Z)
| JFloat (f : spec_float)
| JStr (s : string)
| JArr (l : list json)
| JObj (items : list (string * json)).

(** Exceptions. The first group is raised by the interpreter and the
    libraries; the second group is the exceptions the pipeline raises itself,
    one constructor per [raise] statement of [transcription_engine.py], with
    the values interpolated into the message as arguments. *)
Inductive exn : Type :=
| TypeError
| AttributeError
| ValueError
| OverflowError
| KeyError
| UnicodeDecodeError
| UnicodeEncodeError
| RecursionError
| JSONDecodeError
| OSFileNotFoundError
| OSError
| ModelNotFound (model_name model_path base_dir : string)
| WhisperExeNotFound
| ConvertFailed (stderr : string)
| FfmpegNotFound
| WhisperFailed (stderr : string)
| OutputJsonNotFound (json_path : string)
| NoCaptionsExtracted (debug_json_path : string) (keys : list string)
| JsonParseFailed (e : exn)
| ProcessingFailed (e : exn).

Inductive result (A : Type) : Type :=
| Ok (a : A)
| Raise (e : exn).
Arguments Ok {A} a.
Arguments Raise {A} e.

#[global] Instance result_ret : MRet result := fun A a => Ok a.
#[global] Instance result_bind : MBind result := fun A B f r =>
  match r with
  | Ok a => f a
  | Raise e => Raise e
  end.

Definition is_ok {A} (r : result A) : bool :=
  match r with Ok _ => true | Raise _ => false end.

(** [for x in xs: acc = body(acc, x)], stopping at the first exception. *)
Fixpoint for_each {A B} (body : B -> A -> result B) (xs : list A) (acc : B) : result B :=
  match xs with
  | [] => Ok acc
  | x :: xs' => acc' ← body acc x; for_each body xs' acc'
  end.

Module Py.

(** *** Strings *)

(** [str.isspace] on one character: the white space code points below 256. *)
Definition isspace (c : ascii) : bool :=
  let n := nat_of_ascii c in
  ((9 <=? n) && (n <=? 13) || (28 <=? n) && (n <=? 32) || (n =? 133) || (n =? 160))%nat.

Fixpoint lstrip (s : string) : string :=
  match s with
  | String c s' => if isspace c then lstrip s' else s
  | EmptyString => EmptyString
  end.

Definition rstrip (s : string) : string := String.rev (lstrip (String.rev s)).

(** [s.strip()] *)
Definition strip (s : string) : string := rstrip (lstrip s).

(** [s.split()]: the maximal runs of characters that are not white space.
    [cur] holds the run being read, last character first. *)
Fixpoint split_go (cur : list ascii) (s : string) : list string :=
  match s with
  | EmptyString =>
      match cur with
      | [] => []
      | _ => [string_of_list_ascii (rev cur)]
      end
  | String c s' =>
      if isspace c then
        match cur with
        | [] => split_go [] s'
        | _ => string_of_list_ascii (rev cur) :: split_go [] s'
        end
      else split_go (c :: cur) s'
  end.

Definition split (s : string) : list string := split_go [] s.

Definition startswith (s p : string) : bool := String.prefix p s.
Definition endswith (s p : string) : bool := String.prefix (String.rev p) (String.rev s).

(** [p in s] for two strings. *)
Fixpoint contains_str (p s : string) : bool :=
  String.prefix p s ||
  match s with
  | EmptyString => false
  | String _ s' => contains_str p s'
  end.

(** [s * n] *)
Fixpoint repeat_str (s : string) (n : nat) : string :=
  match n with
  | O => EmptyString
  | S n' => s +:+ repeat_str s n'
  end.

Definition digit_of (c : ascii) : option Z :=
  let n := nat_of_ascii c in
  if ((48 <=? n) && (n <=? 57))%nat then Some (Z.of_nat n - 48) else None.

(** The digits of a decimal literal, single underscores allowed between
    digits. *)
Fixpoint digits_go (acc : Z) (after_digit : bool) (s : string) : option Z :=
  match s with
  | EmptyString => if after_digit then Some acc else None
  | String c s' =>
      match digit_of c with
      | Some d => digits_go (10 * acc + d) true s'
      | None =>
          if Ascii.eqb c "_" && after_digit then digits_go acc false s' else None
      end
  end.

(** The number of digits of a literal. *)
Fixpoint digit_count (s : string) : nat :=
  match s with
  | EmptyString => O
  | String c s' =>
      match digit_of c with
      | Some _ => S (digit_count s')
      | None => digit_count s'
      end
  end.

(** The default of [sys.get_int_max_str_digits()]. *)
Definition max_str_digits : nat := 4300.

(** [int(s)] for a string: surrounding white space, an optional sign, a
    decimal literal of at most [max_str_digits] digits; [None] stands for
    the [ValueError] of any other string. *)
Definition int_of_str (s : string) : option Z :=
  if (max_str_digits <? digit_count s)%nat then None
  else
    match strip s with
    | String "+" r => digits_go 0 false r
    | String "-" r => Z.opp <$> digits_go 0 false r
    | t => digits_go 0 false t
    end.

(** *** Dynamic operations on values *)

Fixpoint assoc (k : string) (items : list (string * json)) : option json :=
  match items with
  | [] => None
  | (k', v) :: rest => if String.eqb k k' then Some v else assoc k rest
  end.

Definition is_str (k : string) (v : json) : bool :=
  match v with
  | JStr s => String.eqb k s
  | _ => false
  end.

(** [k in v] for a string [k]. *)
Definition contains (k : string) (v : json) : result bool :=
  match v with
  | JObj items => Ok (bool_decide (is_Some (assoc k items)))
  | JArr l => Ok (existsb (is_str k) l)
  | JStr s => Ok (contains_str k s)
  | JNull | JBool _ | JInt _ | JFloat _ => Raise TypeError
  end.

(** [v[k]] for a string [k]. *)
Definition getitem (k : string) (v : json) : result json :=
  match v with
  | JObj items =>
      match assoc k items with
      | Some x => Ok x
      | None => Raise KeyError
      end
  | _ => Raise TypeError
  end.

(** The sequence a [for] loop over [v] visits. *)
Definition iter (v : json) : result (list json) :=
  match v with
  | JArr l => Ok l
  | JObj items => Ok (map (fun kv => JStr (fst kv)) items)
  | JStr s => Ok (map (fun c => JStr (String c EmptyString)) (list_ascii_of_string s))
  | JNull | JBool _ | JInt _ | JFloat _ => Raise TypeError
  end.

(** [v.get(k, default)] *)
Definition get (k : string) (default : json) (v : json) : result json :=
  match v with
  | JObj items => Ok (from_option id default (assoc k items))
  | _ => Raise AttributeError
  end.

(** [v.keys()] as a list *)
Definition keys (v : json) : result (list string) :=
  match v with
  | JObj items => Ok (map fst items)
  | _ => Raise AttributeError
  end.

(** The receiver of a [str] method. *)
Definition as_str (v : json) : result string :=
  match v with
  | JStr s => Ok s
  | _ => Raise AttributeError
  end.

(** *** Numbers *)

Inductive num : Type :=
| NInt (z : Z)
| NFloat (f : spec_float).

(** [bool] is a subclass of [int]. *)
Definition as_num (v : json) : option num :=
  match v with
  | JInt z => Some (NInt z)
  | JBool b => Some (NInt (Z.b2z b))
  | JFloat f => Some (NFloat f)
  | _ => None
  end.

(** Conversion of an [int] operand to [float]. *)
Definition float_of_int (z : Z) : result spec_float :=
  let f := Float64.of_Z z in
  if Float64.is_finite f then Ok f else Raise OverflowError.

Definition to_float (n : num) : result spec_float :=
  match n with
  | NInt z => float_of_int z
  | NFloat f => Ok f
  end.

Definition of_num (n : num) : json :=
  match n with
  | NInt z => JInt z
  | NFloat f => JFloat f
  end.

(** [a - b] *)
Definition sub (a b : json) : result json :=
  match as_num a, as_num b with
  | Some (NInt x), Some (NInt y) => Ok (JInt (x - y))
  | Some x, Some y =>
      fx ← to_float x; fy ← to_float y; Ok (JFloat (Float64.sub fx fy))
  | _, _ => Raise TypeError
  end.

(** [a + k] for an [int] [k]. *)
Definition add_int (a : json) (k : Z) : result json :=
  match as_num a with
  | Some (NInt x) => Ok (JInt (x + k))
  | Some (NFloat f) => fk ← float_of_int k; Ok (JFloat (Float64.add f fk))
  | None => Raise TypeError
  end.

(** [a / n] for a positive [int] [n]: true division, always a [float]. *)
Definition truediv_int (a : json) (n : Z) : result spec_float :=
  match as_num a with
  | Some (NInt x) =>
      let q := Float64.div_Z x n in
      if Float64.is_finite q then Ok q else Raise OverflowError
  | Some (NFloat f) => fn ← float_of_int n; Ok (Float64.div f fn)
  | None => Raise TypeError
  end.

(** [i * f] for an [int] [i] and a [float] [f]. *)
Definition int_mul_float (i : Z) (f : spec_float) : result spec_float :=
  fi ← float_of_int i; Ok (Float64.mul fi f).

(** [int(f)] for a [float]. *)
Definition int_of_float (f : spec_float) : result Z :=
  match f with
  | S754_nan => Raise ValueError
  | S754_infinity _ => Raise OverflowError
  | _ => from_option Ok (Raise OverflowError) (Float64.trunc f)
  end.

(** [v * 1000] *)
Definition mul_1000 (v : json) : result json :=
  match v with
  | JInt z => Ok (JInt (z * 1000))
  | JBool b => Ok (JInt (Z.b2z b * 1000))
  | JFloat f => Ok (JFloat (Float64.mul f (Float64.of_Z 1000)))
  | JStr s => Ok (JStr (repeat_str s 1000))
  | JArr l => Ok (JArr (concat (replicate 1000 l)))
  | JNull | JObj _ => Raise TypeError
  end.

(** [int(v)] *)
Definition int (v : json) : result Z :=
  match v with
  | JInt z => Ok z
  | JBool b => Ok (Z.b2z b)
  | JFloat f => int_of_float f
  | JStr s => from_option Ok (Raise ValueError) (int_of_str s)
  | JNull | JArr _ | JObj _ => Raise TypeError
  end.

End Py.

(** ** The world outside the program *)

Abbreviation bytes := (list Byte.byte).

(** The files by path, and the state of everything else the external
    programs may depend on, which the pipeline itself never reads. *)
Record World : Type := mkWorld {
  files : gmap string bytes;
  outside : nat
}.

(** What [subprocess.run] observes of a child process. *)
Inductive completed : Type :=
| Exited (returncode : Z) (stderr : bytes)
| NoSuchProgram.

(** What [json.loads] raises on a text it does not decode: the syntax error
    [JSONDecodeError], the [ValueError] of an integer literal beyond the
    digit limit, the [RecursionError] of a nesting too deep. *)
Inductive loads_error : Type :=
| NotJson
| TooManyDigits
| TooDeep.

Definition exn_of_loads_error (e : loads_error) : exn :=
  match e with
  | NotJson => JSONDecodeError
  | TooManyDigits => ValueError
  | TooDeep => RecursionError
  end.

(** What saving a value as JSON raises: an [OSError] ([open] refused, or a
    write failed), the [UnicodeEncodeError] of a string that UTF-8 cannot
    encode, the [ValueError] of an integer beyond the digit limit, the
    [RecursionError] of the encoder. *)
Inductive save_error : Type :=
| SaveOSError
| SaveEncodeError
| SaveValueError
| SaveRecursionError.

Definition exn_of_save_error (e : save_error) : exn :=
  match e with
  | SaveOSError => OSError
  | SaveEncodeError => UnicodeEncodeError
  | SaveValueError => ValueError
  | SaveRecursionError => RecursionError
  end.

Class Platform : Type := {
  (** [Path(p).parent], [p / q] and [os.path.join(p, q)], [Path(p).stem],
      [Path(p).name], [Path(p).with_suffix(s)], [os.path.basename(p)],
      [tempfile.gettempdir()] *)
  path_parent : string -> string;
  path_join : string -> string -> string;
  path_stem : string -> string;
  path_name : string -> string;
  path_with_suffix : string -> string -> string;
  os_path_basename : string -> string;
  gettempdir : string;
  (** [b.decode('utf-8')], [b.decode('utf-8-sig')],
      [b.decode('utf-8', errors='replace')], [json.loads], and the bytes
      [json.dump(v, f, indent=2, ensure_ascii=False)] writes *)
  decode_utf8 : bytes -> option string;
  decode_utf8_sig : bytes -> option string;
  decode_utf8_replace : bytes -> string;
  json_loads : string -> option json;
  json_dump : json -> bytes;
  (** the exception of [json.loads] on a text for which [json_loads] is
      [None] *)
  json_loads_error : string -> loads_error;
  (** whether [with open(p, 'w', encoding='utf-8') as f: json.dump(v, f,
      indent=2, ensure_ascii=False)] raises, and then what it raises and
      what it leaves in the file: [None] when [open] raised and the file is
      untouched, else what was written before the exception *)
  save_fails : string -> json -> World -> option (save_error * option bytes);
  (** whether [os.remove(p)] raises on the existing file [p] (a file in
      use, a directory that may not be changed) *)
  remove_fails : string -> World -> bool;
  (** [subprocess.run(cmd, capture_output=True, cwd=cwd)] *)
  subprocess_run : list string -> option string -> World -> completed * World
}.

Definition path_exists (p : string) (w : World) : bool :=
  bool_decide (is_Some (files w !! p)).

(** [open(p, 'w')] followed by a write of [content] *)
Definition write_file (p : string) (content : bytes) (w : World) : World :=
  mkWorld (<[p := content]> (files w)) (outside w).

(** [with open(p, 'w', encoding='utf-8') as f: json.dump(v, f, indent=2,
    ensure_ascii=False)] *)
Definition save_json `{Platform} (p : string) (v : json) (w : World) : result unit * World :=
  match save_fails p v w with
  | None => (Ok (), write_file p (json_dump v) w)
  | Some (e, None) => (Raise (exn_of_save_error e), w)
  | Some (e, Some written) => (Raise (exn_of_save_error e), write_file p written w)
  end.

(** [os.remove(p)] *)
Definition os_remove `{Platform} (p : string) (w : World) : result World :=
  if path_exists p w then
    if remove_fails p w then Raise OSError
    else Ok (mkWorld (delete p (files w)) (outside w))
  else Raise OSFileNotFoundError.

(** [try: os.remove(p)  except: pass] *)
Definition try_remove `{Platform} (p : string) (w : World) : World :=
  match os_remove p w with
  | Ok w' => w'
  | Raise _ => w
  end.

(** ** Captions and the extraction ladder of [_parse_whisper_output] *)

Record caption : Type := mkCaption {
  text : json;
  startMs : json;
  endMs : json;
  timestampMs : json;
  confidence : json
}.

Definition caption_json (c : caption) : json :=
  JObj [("text", text c); ("startMs", startMs c); ("endMs", endMs c);
        ("timestampMs", timestampMs c); ("confidence", confidence c)].

(** [token_text.startswith('[_') and token_text.endswith(']')] *)
Definition is_special_token (s : string) : bool :=
  Py.startswith s "[_" && Py.endswith s "]".

(** [not s]: the empty string is falsy *)
Definition str_falsy (s : string) : bool :=
  match s with
  | EmptyString => true
  | String _ _ => false
  end.

(** The body of [for token_data in segment['tokens']] (lines 242-260). *)
Definition token_step (captions : list caption) (token_data : json) : result (list caption) :=
  token_text ← Py.get "text" (JStr "") token_data;
  s ← Py.as_str token_text;
  if is_special_token s || str_falsy (Py.strip s) then Ok captions
  else
    offsets ← Py.get "offsets" (JObj []) token_data;
    start_ms ← Py.get "from" (JInt 0) offsets;
    end_ms ← Py.get "to" (JInt 0) offsets;
    p ← Py.get "p" (JFloat Float64.c0_95) token_data;
    Ok (captions ++ [mkCaption token_text start_ms end_ms start_ms p]).

(** [int(word_data.get(k1, word_data.get(k2, 0)) * 1000)] *)
Definition seconds_to_ms (k1 k2 : string) (word_data : json) : result Z :=
  d ← Py.get k2 (JInt 0) word_data;
  v ← Py.get k1 d word_data;
  x ← Py.mul_1000 v;
  Py.int x.

(** The body of [for word_data in segment['words']] (lines 264-272). *)
Definition word_step (captions : list caption) (word_data : json) : result (list caption) :=
  d_text ← Py.get "text" (JStr "") word_data;
  w_text ← Py.get "word" d_text word_data;
  start_ms ← seconds_to_ms "start" "t0" word_data;
  end_ms ← seconds_to_ms "end" "t1" word_data;
  timestamp_ms ← seconds_to_ms "start" "t0" word_data;
  d_conf ← Py.get "p" (JFloat Float64.c0_95) word_data;
  conf ← Py.get "confidence" d_conf word_data;
  Ok (captions ++ [mkCaption w_text (JInt start_ms) (JInt end_ms) (JInt timestamp_ms) conf]).

(** [enumerate(xs)] from index [i] *)
Fixpoint enumerate_from {A} (i : Z) (xs : list A) : list (Z * A) :=
  match xs with
  | [] => []
  | x :: xs' => (i, x) :: enumerate_from (i + 1) xs'
  end.

(** The body of [for i, word in enumerate(words)] (lines 288-299). *)
Definition split_word_step (start_ms : json) (duration_per_word : spec_float)
    (captions : list caption) (iw : Z * string) : result (list caption) :=
  let '(i, word) := iw in
  scaled ← Py.int_mul_float i duration_per_word;
  offset ← Py.int_of_float scaled;
  word_start ← Py.add_int start_ms offset;
  step ← Py.int_of_float duration_per_word;
  word_end ← Py.add_int word_start step;
  Ok (captions ++ [mkCaption (JStr word) word_start word_end word_start (JFloat Float64.c0_95)]).

(** The [elif 'text' in segment] branch (lines 275-299). *)
Definition split_segment (captions : list caption) (segment : json) : result (list caption) :=
  raw ← Py.getitem "text" segment;
  s ← Py.as_str raw;
  let text := Py.strip s in
  if str_falsy text then Ok captions
  else
    let words := Py.split text in
    offsets ← Py.get "offsets" (JObj []) segment;
    start_ms ← Py.get "from" (JInt 0) offsets;
    end_ms ← Py.get "to" (JInt 0) offsets;
    d ← Py.sub end_ms start_ms;
    duration_per_word ← Py.truediv_int d (Z.max (Z.of_nat (length words)) 1);
    for_each (split_word_step start_ms duration_per_word) (enumerate_from 0 words) captions.

(** The body of [for segment in whisper_data['transcription']]
    (lines 239-299): the first tier whose key the segment carries. *)
Definition segment_step (captions : list caption) (segment : json) : result (list caption) :=
  has_tokens ← Py.contains "tokens" segment;
  if (has_tokens : bool) then
    tokens ← Py.getitem "tokens" segment;
    xs ← Py.iter tokens;
    for_each token_step xs captions
  else
    has_words ← Py.contains "words" segment;
    if (has_words : bool) then
      words ← Py.getitem "words" segment;
      xs ← Py.iter words;
      for_each word_step xs captions
    else
      has_text ← Py.contains "text" segment;
      if (has_text : bool) then split_segment captions segment else Ok captions.

(** Lines 231-299: the captions extracted from the decoded transcript. *)
Definition extract_captions (whisper_data : json) : result (list caption) :=
  has ← Py.contains "transcription" whisper_data;
  if (has : bool) then
    transcription ← Py.getitem "transcription" whisper_data;
    segments ← Py.iter transcription;
    for_each segment_step segments []
  else Ok [].

(** ** [TranscriptionEngine] *)

(** The attributes of the [sys] module and the module's [__file__] that the
    constructor reads; [sys_MEIPASS = None] when [sys] has no [_MEIPASS]. *)
Record sys_info : Type := mkSys {
  sys_frozen : bool;
  sys_MEIPASS : option string;
  sys_executable : string;
  module_file : string
}.

Record TranscriptionEngine : Type := mkEngine {
  model_name : string;
  models_dir : string;
  model_path : string;
  whisper_exe : string
}.

Section Pipeline.
Context `{Platform}.

(** Lines 31-43 of [__init__]. *)
Definition base_dir_of (sys : sys_info) : string :=
  if sys_frozen sys then
    match sys_MEIPASS sys with
    | Some meipass => meipass
    | None => path_join (path_parent (sys_executable sys)) "_internal"
    end
  else path_parent (module_file sys).

Definition _find_whisper_executable (sys : sys_info) (models_dir : string) (w : World)
    : option string :=
  let exe_path := path_join models_dir "main.exe" in
  if path_exists exe_path w then Some exe_path
  else
    let exe_path := path_join (path_join models_dir "whisper.cpp") "main.exe" in
    if path_exists exe_path w then Some exe_path
    else
      match sys_MEIPASS sys with
      | Some meipass =>
          let exe_path := path_join (path_join meipass "models") "main.exe" in
          if path_exists exe_path w then Some exe_path else None
      | None => None
      end.

(** [TranscriptionEngine(model_name)] *)
Definition __init__ (sys : sys_info) (model_name : string) (w : World)
    : result TranscriptionEngine :=
  let base_dir := base_dir_of sys in
  let models_dir := path_join base_dir "models" in
  let model_path := path_join models_dir ("ggml-" +:+ model_name +:+ ".bin") in
  if negb (path_exists model_path w) then
    Raise (ModelNotFound model_name model_path base_dir)
  else
    match _find_whisper_executable sys models_dir w with
    | Some exe => Ok (mkEngine model_name models_dir model_path exe)
    | None => Raise WhisperExeNotFound
    end.

Definition ffmpeg_cmd (audio_path wav_path : string) : list string :=
  ["ffmpeg"; "-i"; audio_path; "-ar"; "16000"; "-ac"; "1"; "-c:a"; "pcm_s16le"; "-y"; wav_path].

Definition _convert_audio_to_wav (audio_path : string) (w : World) : result string * World :=
  let temp_dir := gettempdir in
  let audio_name := path_stem audio_path in
  let wav_path := path_join temp_dir (audio_name +:+ "_16khz.wav") in
  match subprocess_run (ffmpeg_cmd audio_path wav_path) None w with
  | (Exited rc stderr, w') =>
      if rc =? 0 then (Ok wav_path, w')
      else
        match decode_utf8 stderr with
        | Some msg => (Raise (ConvertFailed msg), w')
        | None => (Raise UnicodeDecodeError, w')
        end
  | (NoSuchProgram, w') => (Raise FfmpegNotFound, w')
  end.

(** Lines 219-227: strict UTF-8, then UTF-8 with a byte order mark, then
    UTF-8 with replacement characters. *)
Definition decode_output (raw_content : bytes) : string :=
  match decode_utf8 raw_content with
  | Some t => t
  | None =>
      match decode_utf8_sig raw_content with
      | Some t => t
      | None => decode_utf8_replace raw_content
      end
  end.

(** Lines 302-313: the inner [try] that runs when no caption was
    extracted: the debug copy is saved, then the message is formatted. *)
Definition report_no_captions (debug_json_path : string) (whisper_data : json)
    (w : World) : result unit * World :=
  match save_json debug_json_path whisper_data w with
  | (Raise e, w1) => (Raise e, w1)
  | (Ok _, w1) =>
      match Py.keys whisper_data with
      | Ok ks => (Raise (NoCaptionsExtracted debug_json_path ks), w1)
      | Raise e => (Raise e, w1)
      end
  end.

(** Lines 214-321: the body of the outer [try]. *)
Definition parse_body (wav_path json_path : string) (raw_content : bytes) (w : World)
    : result (list caption) * World :=
  let text_content := decode_output raw_content in
  match json_loads text_content with
  | None => (Raise (exn_of_loads_error (json_loads_error text_content)), w)
  | Some whisper_data =>
      let debug_json_path := path_with_suffix wav_path ".wav.debug.json" in
      match extract_captions whisper_data with
      | Raise e => (Raise e, w)
      | Ok captions =>
          let '(inner, w1) :=
            if (length captions =? 0)%nat
            then report_no_captions debug_json_path whisper_data w
            else (Ok (), w) in
          match inner with
          | Ok _ | Raise JSONDecodeError => (Ok captions, try_remove json_path w1)
          | Raise e => (Raise e, w1)
          end
      end
  end.

Definition _parse_whisper_output (wav_path : string) (w : World)
    : result (list caption) * World :=
  let json_path := path_with_suffix wav_path ".wav.json" in
  match files w !! json_path with
  | None => (Raise (OutputJsonNotFound json_path), w)
  | Some raw_content =>
      match parse_body wav_path json_path raw_content w with
      | (Ok captions, w') => (Ok captions, w')
      | (Raise JSONDecodeError, w') => (Raise (JsonParseFailed JSONDecodeError), w')
      | (Raise e, w') => (Raise (ProcessingFailed e), w')
      end
  end.

Definition whisper_cmd (self : TranscriptionEngine) (wav_path language : string)
    : list string :=
  [whisper_exe self; "-m"; model_path self; "-f"; wav_path; "-oj"; "-ojf";
   "-ml"; "1"; "-l"; language].

(** Lines 151-185: the body of the [try] of [transcribe_audio]. *)
Definition transcribe_body (self : TranscriptionEngine) (wav_path language : string)
    (w : World) : result (list caption) * World :=
  match subprocess_run (whisper_cmd self wav_path language) (Some (models_dir self)) w with
  | (NoSuchProgram, w') => (Raise OSFileNotFoundError, w')
  | (Exited rc stderr, w') =>
      if negb (rc =? 0) then
        let stderr_text :=
          match decode_utf8 stderr with
          | Some t => t
          | None => decode_utf8_replace stderr
          end in
        (Raise (WhisperFailed stderr_text), w')
      else _parse_whisper_output wav_path w'
  end.

(** Lines 187-193: the [finally] clause. *)
Definition cleanup_wav (wav_path : string) (w : World) : World :=
  if path_exists wav_path w then try_remove wav_path w else w.

Definition transcribe_audio (self : TranscriptionEngine) (audio_path language : string)
    (w : World) : result (list caption) * World :=
  match _convert_audio_to_wav audio_path w with
  | (Raise e, w1) => (Raise e, w1)
  | (Ok wav_path, w1) =>
      let '(r, w2) := transcribe_body self wav_path language w1 in
      (r, cleanup_wav wav_path w2)
  end.

End Pipeline.

(** ** [TranscriptionThread.run] *)

(** The texts the batch emits, one constructor per format string of [run]. *)
Inductive message : Type :=
| MInit
| MRule
| MProcessing (idx total : nat)
| MFile (name : string)
| MLoading
| MTranscribing
| MSaving (name : string)
| MGenerated (count : nat)
| MSaved (output_path : string)
| MErrorProcessing (name : string) (e : exn)
| MBlank
| MCompleted
| MTotal (n : nat)
| MSuccessful (n : nat)
| MFailed (n : nat)
| MSucceededHeader
| MSucceededItem (name : string)
| MFailedHeader
| MFailedItem (name : string)
| MSummary (succeeded total : nat)
| MBatchError (e : exn).

(** The three signals of the thread. *)
Inductive event : Type :=
| progress (m : message)
| file_completed (current total : nat) (filename : string)
| finished (ok : bool) (summary : message).

(** The local variables of [run], the signals emitted so far (oldest first)
    and the world. *)
Record run_state : Type := mkRun {
  successful_files : list string;
  failed_files : list string;
  emitted : list event;
  world : World
}.

Section Batch.
Context `{Platform}.

(** Lines 46-53. *)
Definition start_events (idx total_files : nat) (audio_path : string) : list event :=
  [progress MRule; progress (MProcessing idx total_files);
   progress (MFile (os_path_basename audio_path)); progress MRule;
   progress MLoading; progress MTranscribing].

(** Lines 56-66, after [transcribe_audio] returned [captions]. *)
Definition success_events (idx total_files : nat) (audio_path : string)
    (captions : list caption) : list event :=
  let output_path := path_with_suffix audio_path ".json" in
  [progress (MSaving (path_name output_path)); progress (MGenerated (length captions));
   progress (MSaved output_path);
   file_completed idx total_files (os_path_basename audio_path)].

(** The body of [for idx, audio_path in enumerate(self.audio_paths, 1)]
    (lines 45-71): the transcription and the saving of the captions are both
    inside the [try]. *)
Definition process_request (engine : TranscriptionEngine) (language : string)
    (total_files : nat) (st : run_state) (ip : nat * string) : run_state :=
  let '(idx, audio_path) := ip in
  let '(r, w1) := transcribe_audio engine audio_path language (world st) in
  match r with
  | Ok captions =>
      let output_path := path_with_suffix audio_path ".json" in
      match save_json output_path (JArr (map caption_json captions)) w1 with
      | (Ok _, w2) =>
          mkRun (successful_files st ++ [os_path_basename audio_path])
                (failed_files st)
                (emitted st ++ start_events idx total_files audio_path
                            ++ success_events idx total_files audio_path captions)
                w2
      | (Raise e, w2) =>
          mkRun (successful_files st)
                (failed_files st ++ [os_path_basename audio_path])
                (emitted st ++ start_events idx total_files audio_path
                            ++ [progress (MSaving (path_name output_path));
                                progress (MErrorProcessing (os_path_basename audio_path) e)])
                w2
      end
  | Raise e =>
      mkRun (successful_files st)
            (failed_files st ++ [os_path_basename audio_path])
            (emitted st ++ start_events idx total_files audio_path
                        ++ [progress (MErrorProcessing (os_path_basename audio_path) e)])
            w1
  end.

(** Lines 73-94. *)
Definition summary_events (total_files : nat) (succ failed : list string) : list event :=
  [progress MBlank; progress MRule; progress MCompleted; progress MRule;
   progress (MTotal total_files); progress (MSuccessful (length succ));
   progress (MFailed (length failed))]
  ++ match succ with
     | [] => []
     | _ => progress MSucceededHeader :: map (fun f => progress (MSucceededItem f)) succ
     end
  ++ match failed with
     | [] => []
     | _ => progress MFailedHeader :: map (fun f => progress (MFailedItem f)) failed
     end
  ++ [finished (length failed =? 0)%nat (MSummary (length succ) total_files)].

Definition run (sys : sys_info) (audio_paths : list string) (model_name language : string)
    (w : World) : run_state :=
  let total_files := length audio_paths in
  match __init__ sys model_name w with
  | Ok engine =>
      let st :=
        fold_left (process_request engine language total_files)
                  (combine (seq 1 total_files) audio_paths)
                  (mkRun [] [] [progress MInit] w) in
      mkRun (successful_files st) (failed_files st)
            (emitted st ++ summary_events total_files (successful_files st) (failed_files st))
            (world st)
  | Raise e =>
      mkRun [] [] [progress MInit; progress (MBatchError e); finished false (MBatchError e)] w
  end.

End Batch.

(** ** [test_transcription] *)

(** The lines [test_transcription] prints, one constructor per [print]. *)
Inductive printed : Type :=
| PTesting (model : string)
| PAudioFile (audio_file : string)
| PGenerated (count : nat)
| PCaption (number : nat) (text startMs endMs : json)
| PMore (count : nat)
| PSaved (output_path : string).

(** [enumerate(xs)] with the index its body prints, [i + 1]. *)
Fixpoint numbered_from {A} (i : nat) (xs : list A) : list (nat * A) :=
  match xs with
  | [] => []
  | x :: xs' => (S i, x) :: numbered_from (S i) xs'
  end.

(** Lines 339-343: the first ten captions, then the count of the rest. *)
Definition caption_lines (captions : list caption) : list printed :=
  map (fun ic => PCaption (fst ic) (text (snd ic)) (startMs (snd ic)) (endMs (snd ic)))
      (numbered_from 0 (take 10 captions))
  ++ (if (10 <? length captions)%nat then [PMore (length captions - 10)] else []).

Section TestTranscription.
Context `{Platform}.


End TestTranscription.

(** ** [VoxaCaptionsApp] *)

(** The texts the window logs itself and shows on its file label. *)
Inductive ui_text : Type :=
| UFileSelected (name : string)
| UFilesSelected (count : nat)
| UFileItem (name : string)
| UStarting (count : nat)
| UModel (model_name : string)
| ULanguage (language : string)
| UOneAfterAnother
| UAutoSaved
| UEmpty.

(** A line of the status log, each prefixed [[INFO]] by [log]: a text of
    the window's own or the message of a [progress] signal. *)
Inductive log_line : Type :=
| LogText (t : ui_text)
| LogProgress (m : message).

Inductive label_text : Type :=
| NoFilesSelected
| SelectedOne (name : string)
| SelectedMany (count : nat).

(** The message boxes of [generate_captions] and
    [on_transcription_finished]. *)
Inductive dialog : Type :=
| WarnNoFiles
| AskDownloadModel (model_name : string)
| InfoDownloadRequired
| InfoBatchComplete (summary : message)
| WarnBatchErrors (summary : message).

(** The attributes and widget properties the modelled methods touch. *)
Record ui_state : Type := mkUi {
  ui_audio_paths : list string;
  file_label : label_text;
  browse_button_enabled : bool;
  generate_button_enabled : bool;
  model_combo_enabled : bool;
  language_combo_enabled : bool;
  model_combo_text : string;
  language_combo_text : string;
  progress_bar_visible : bool;
  log_text : list log_line
}.

(** The table of [_get_available_models]: file name and display name. The
    tick of the third display name is outside the code points below 256 and
    is written as the three bytes of its UTF-8 form. *)
Definition all_models : list (string * string) :=
  [("ggml-tiny.bin", "tiny (75 MB, fastest, lowest quality)");
   ("ggml-base.bin", "base (142 MB, fast, good quality)");
   ("ggml-small.bin", "small (466 MB, balanced) ✓");
   ("ggml-medium.bin", "medium (1.5 GB, slower, better quality)");
   ("ggml-large-v3.bin", "large-v3 (2.9 GB, slowest, best quality)")].

(** The items [init_ui] gives the language box (lines 328-342). *)
Definition language_items : list string :=
  ["auto (Auto-detect)"; "en (English)"; "es (Spanish)"; "fr (French)"; "de (German)";
   "it (Italian)"; "pt (Portuguese)"; "ru (Russian)"; "ja (Japanese)"; "ko (Korean)";
   "zh (Chinese)"; "ar (Arabic)"; "hi (Hindi)"].

(** The items [init_ui] falls back to when no model is detected
    (lines 314-320). *)
Definition fallback_models : list string :=
  ["tiny (75 MB, fastest, lowest quality)"; "base (142 MB, fast, good quality)";
   "small (466 MB, balanced)"; "medium (1.5 GB, slower, better quality)";
   "large-v3 (2.9 GB, slowest, best quality)"].

(** [self.log(message)] *)
Definition log (line : log_line) (st : ui_state) : ui_state :=
  mkUi (ui_audio_paths st) (file_label st) (browse_button_enabled st)
       (generate_button_enabled st) (model_combo_enabled st) (language_combo_enabled st)
       (model_combo_text st) (language_combo_text st) (progress_bar_visible st)
       (log_text st ++ [line]).

(** [text.split()[0]]; [None] stands for the [IndexError] of a text without
    a word. *)
Definition first_word (text : string) : option string := head (Py.split text).

Definition get_model_name (st : ui_state) : option string :=
  first_word (model_combo_text st).

Definition get_language (st : ui_state) : option string :=
  first_word (language_combo_text st).

(** [on_transcription_finished(success, message)] *)
Definition on_transcription_finished (success : bool) (summary : message)
    (st : ui_state) : ui_state * dialog :=
  (mkUi (ui_audio_paths st) (file_label st) true true true true
        (model_combo_text st) (language_combo_text st) false (log_text st),
   if success then InfoBatchComplete summary else WarnBatchErrors summary).

(** The arguments of the [TranscriptionThread] that [generate_captions]
    starts. *)
Record thread_args : Type := mkThread {
  thread_audio_paths : list string;
  thread_model_name : string;
  thread_language : string
}.

Section App.
Context `{Platform}.

(** Lines 157-166, with [app_file] the [__file__] of the application
    module. *)
Definition app_base_dir (sys : sys_info) (app_file : string) : string :=
  if sys_frozen sys then
    match sys_MEIPASS sys with
    | Some meipass => meipass
    | None => path_join (path_parent (sys_executable sys)) "_internal"
    end
  else path_parent app_file.

Definition _get_available_models (sys : sys_info) (app_file : string) (w : World)
    : list string :=
  let models_dir := path_join (app_base_dir sys app_file) "models" in
  if negb (path_exists models_dir w) then []
  else
    map snd (List.filter (fun fd => path_exists (path_join models_dir (fst fd)) w)
                         all_models).

(** The items [init_ui] gives the model box (lines 308-320). *)
Definition model_combo_items (sys : sys_info) (app_file : string) (w : World) : list string :=
  match _get_available_models sys app_file w with
  | [] => fallback_models
  | available_models => available_models
  end.

(** [browse_audio_file], given the paths the file dialog returned. *)
Definition browse_audio_file (file_paths : list string) (st : ui_state) : ui_state :=
  match file_paths with
  | [] => st
  | first :: others =>
      let num_files := length file_paths in
      let label := match others with
                   | [] => SelectedOne (os_path_basename first)
                   | _ => SelectedMany num_files
                   end in
      let lines := match others with
                   | [] => [LogText (UFileSelected (os_path_basename first))]
                   | _ => LogText (UFilesSelected num_files)
                          :: map (fun p => LogText (UFileItem (os_path_basename p))) file_paths
                   end in
      mkUi file_paths label (browse_button_enabled st) true
           (model_combo_enabled st) (language_combo_enabled st)
           (model_combo_text st) (language_combo_text st) (progress_bar_visible st)
           (log_text st ++ lines)
  end.

(** [generate_captions], given the answer to the question box should it be
    asked. [None] stands for the [IndexError] of a combo box whose text has
    no word. The result is the new state, the message boxes shown and the
    thread started, if any. *)
Definition generate_captions (app_file : string) (answer_yes : bool) (st : ui_state)
    (w : World) : option (ui_state * list dialog * option thread_args) :=
  match ui_audio_paths st with
  | [] => Some (st, [WarnNoFiles], None)
  | _ =>
      model_name ← get_model_name st;
      language ← get_language st;
      let models_dir := path_join (path_parent app_file) "models" in
      let model_file := path_join models_dir ("ggml-" +:+ model_name +:+ ".bin") in
      if negb (path_exists model_file w) then
        Some (st,
              AskDownloadModel model_name
                :: (if answer_yes then [InfoDownloadRequired] else []),
              None)
      else
        let num_files := length (ui_audio_paths st) in
        Some (mkUi (ui_audio_paths st) (file_label st) false false false false
                   (model_combo_text st) (language_combo_text st) true
                   [LogText (UStarting num_files); LogText (UModel model_name);
                    LogText (ULanguage language); LogText UOneAfterAnother;
                    LogText UAutoSaved; LogText UEmpty],
              [],
              Some (mkThread (ui_audio_paths st) model_name language))
  end.

(** The slots connected to the thread's signals: [progress] to [log],
    [finished] to [on_transcription_finished]; nothing is connected to
    [file_completed]. *)
Definition deliver (acc : ui_state * list dialog) (ev : event) : ui_state * list dialog :=
  let '(st, shown) := acc in
  match ev with
  | progress m => (log (LogProgress m) st, shown)
  | file_completed _ _ _ => (st, shown)
  | finished ok summary =>
      let '(st', d) := on_transcription_finished ok summary st in (st', shown ++ [d])
  end.

(** A click on the generate button followed by the delivery, in the order
    of emission, of the signals of the thread it started. *)
Definition generate_and_wait (sys : sys_info) (app_file : string) (answer_yes : bool)
    (st : ui_state) (w : World) : option (ui_state * list dialog * World) :=
  '(st1, shown, started) ← generate_captions app_file answer_yes st w;
  match started with
  | None => Some (st1, shown, w)
  | Some args =>
      let r := run sys (thread_audio_paths args) (thread_model_name args)
                   (thread_language args) w in
      let '(st2, shown2) := fold_left deliver (emitted r) (st1, shown) in
      Some (st2, shown2, world r)
  end.

End App.

(** ** A concrete platform for examples

    POSIX-style paths; text is ASCII; [json.loads] knows the documents of
    [Demo.documents]; ffmpeg copies its input to the WAV and the engine
    writes the WAV's content as its JSON output, so that the content of an
    audio file names the transcript the engine will produce for it. The
    pipeline can neither write nor remove a file that is held. *)

Module Demo.

Fixpoint rsplit_at (c : ascii) (s : string) : option (string * string) :=
  match s with
  | EmptyString => None
  | String x s' =>
      match rsplit_at c s' with
      | Some (a, b) => Some (String x a, b)
      | None => if Ascii.eqb x c then Some (EmptyString, s') else None
      end
  end.

Definition basename (p : string) : string :=
  match rsplit_at "/" p with
  | Some (_, b) => b
  | None => p
  end.

Definition parent (p : string) : string :=
  match rsplit_at "/" p with
  | Some (a, _) => a
  | None => "."
  end.

Definition stem (p : string) : string :=
  match rsplit_at "." (basename p) with
  | Some (String x a, String y b) => String x a
  | _ => basename p
  end.

Definition join (p q : string) : string := p +:+ "/" +:+ q.

Definition with_suffix (p suffix : string) : string :=
  match rsplit_at "/" p with
  | Some (a, _) => join a (stem p +:+ suffix)
  | None => stem p +:+ suffix
  end.

Definition tok (t : string) (a b : Z) : json :=
  JObj [("text", JStr t); ("offsets", JObj [("from", JInt a); ("to", JInt b)]);
        ("p", JFloat (Float64.div_Z 98 100))].

Definition transcript (segments : list json) : json :=
  JObj [("transcription", JArr segments)].

Definition hello : json :=
  transcript [JObj [("tokens", JArr [tok "[_BEG_]" 0 0; tok "Hello" 0 400;
                                     tok " " 400 420; tok "world" 420 800])]].

Definition backwards : json :=
  transcript [JObj [("tokens", JArr [tok "b" 5 6; tok "a" 1 2])]].

Definition blank_word : json :=
  transcript [JObj [("words", JArr [JObj [("word", JStr "")]])]].

Definition three_words : json :=
  transcript [JObj [("text", JStr " one two  three ");
                    ("offsets", JObj [("from", JInt 100); ("to", JInt 200)])]].

Definition long_segment : json :=
  transcript [JObj [("text", JStr "x");
                    ("offsets", JObj [("from", JInt 0); ("to", JInt 9007199254740993)])]].

Definition documents : list (string * json) :=
  [("{}", JObj []); ("[]", JArr []); ("null", JNull); ("hello", hello); ("backwards", backwards);
   ("blank_word", blank_word); ("three_words", three_words);
   ("long_segment", long_segment)].

Fixpoint arg_after (flag : string) (cmd : list string) : option string :=
  match cmd with
  | [] => None
  | a :: rest => if String.eqb a flag then head rest else arg_after flag rest
  end.

Definition run_program (cmd : list string) (cwd : option string) (w : World)
    : completed * World :=
  match cmd with
  | "ffmpeg" :: _ =>
      match arg_after "-i" cmd ≫= (fun p => files w !! p), last cmd with
      | Some content, Some wav => (Exited 0 [], write_file wav content w)
      | _, _ => (Exited 1 (list_byte_of_string "No such file"), w)
      end
  | exe :: _ =>
      if path_exists exe w then
        match arg_after "-f" cmd with
        | Some wav =>
            match files w !! wav with
            | Some content =>
                if String.eqb (string_of_list_byte content) "crash"
                then (Exited 1 (list_byte_of_string "engine error"), w)
                else (Exited 0 [], write_file (wav +:+ ".json") content w)
            | None => (Exited 2 [], w)
            end
        | None => (Exited 2 [], w)
        end
      else (NoSuchProgram, w)
  | [] => (NoSuchProgram, w)
  end.

(** A file is held by another process, which keeps it from being written or
    removed, when a file of the same name with [.lock] added exists. *)
Definition held (p : string) (w : World) : bool :=
  path_exists (p +:+ ".lock") w.

#[local] Instance platform : Platform := {|
  path_parent := parent;
  path_join := join;
  path_stem := stem;
  path_name := basename;
  path_with_suffix := with_suffix;
  os_path_basename := basename;
  gettempdir := "/tmp";
  decode_utf8 := fun b => Some (string_of_list_byte b);
  decode_utf8_sig := fun b => Some (string_of_list_byte b);
  decode_utf8_replace := string_of_list_byte;
  json_loads := fun s => Py.assoc s documents;
  json_dump := fun _ => list_byte_of_string "<json>";
  json_loads_error := fun _ => NotJson;
  save_fails := fun p _ w => if held p w then Some (SaveOSError, None) else None;
  remove_fails := held;
  subprocess_run := run_program
|}.

Definition sys : sys_info := mkSys false None "/usr/bin/python3" "/app/transcription_engine.py".

Definition file (p content : string) : string * bytes := (p, list_byte_of_string content).

(** An installation with the [small] model and the engine executable. *)
Definition installed (audio : list (string * bytes)) : World :=
  mkWorld (list_to_map ([file "/app/models/ggml-small.bin" "model";
                         file "/app/models/main.exe" "exe"] ++ audio)) 0.

(** The same without any model artifact. *)
Definition no_model (audio : list (string * bytes)) : World :=
  mkWorld (list_to_map (file "/app/models/main.exe" "exe" :: audio)) 0.

End Demo.

(** * The vocabulary of the properties

    Definitions that the statements below use. Those marked as following the
    specification restate in its words what the code is compared with. *)

(** Following the specification: the fields of a token, the tokens that are
    content, and the caption of a token. *)
Definition field (k : string) (default : json) (v : json) : json :=
  match v with
  | JObj items => from_option id default (Py.assoc k items)
  | _ => default
  end.

Definition token_text (token : json) : string :=
  match field "text" (JStr "") token with
  | JStr s => s
  | _ => ""
  end.

(** Bracket-delimited with a leading underscore marker. *)
Definition is_control_text (s : string) : bool :=
  Py.startswith s "[_" && Py.endswith s "]".

Definition is_content_token (token : json) : bool :=
  negb (is_control_text (token_text token))
  && negb (String.eqb (Py.strip (token_text token)) "").

Definition token_from (token : json) : json :=
  field "from" (JInt 0) (field "offsets" (JObj []) token).

Definition token_to (token : json) : json :=
  field "to" (JInt 0) (field "offsets" (JObj []) token).

Definition caption_of_token (token : json) : caption :=
  mkCaption (JStr (token_text token)) (token_from token) (token_to token)
            (token_from token) (field "p" (JFloat Float64.c0_95) token).

(** A token is an object whose text, when present, is a string and whose
    offsets, when present, are an object. *)
Definition well_formed_token (token : json) : bool :=
  match token with
  | JObj items =>
      match Py.assoc "text" items with
      | Some (JStr _) | None => true
      | Some _ => false
      end
      && match Py.assoc "offsets" items with
         | Some (JObj _) | None => true
         | Some _ => false
         end
  | _ => false
  end.

(** The token array of a segment that carries one. *)
Definition tokens_of (segment : json) : option (list json) :=
  match segment with
  | JObj items =>
      match Py.assoc "tokens" items with
      | Some (JArr tokens) => Some tokens
      | _ => None
      end
  | _ => None
  end.

(** A sequence of values is a non-decreasing sequence of integers. *)
Fixpoint nondecreasing_from (prev : Z) (xs : list json) : bool :=
  match xs with
  | [] => true
  | JInt z :: rest => (prev <=? z) && nondecreasing_from z rest
  | _ :: _ => false
  end.

Definition nondecreasing (xs : list json) : bool :=
  match xs with
  | [] => true
  | JInt z :: rest => nondecreasing_from z rest
  | _ :: _ => false
  end.

Definition stamp_is_start (c : caption) : Prop := timestampMs c = startMs c.

Fixpoint has_nonspace (s : string) : bool :=
  match s with
  | EmptyString => false
  | String c s' => negb (Py.isspace c) || has_nonspace s'
  end.

(** The text is a string that is not empty after trimming. *)
Definition nonblank_text (c : caption) : Prop :=
  exists s, text c = JStr s /\ Py.strip s <> "".

(** The text is moreover not a control token. *)
Definition content_text (c : caption) : Prop :=
  exists s, text c = JStr s /\ Py.strip s <> "" /\ is_control_text s = false.

(** The message of [e] contains the [Whisper data keys: ...] line listing
    [ks]; the two wrapping errors embed the message of the error they wrap. *)
Fixpoint reports_keys (ks : list string) (e : exn) : Prop :=
  match e with
  | NoCaptionsExtracted _ ks' => ks' = ks
  | JsonParseFailed e' | ProcessingFailed e' => reports_keys ks e'
  | _ => False
  end.

(** The offsets of a segment when both are integers; an absent offset is 0. *)
Definition segment_offsets (segment : json) : option (Z * Z) :=
  match field "offsets" (JObj []) segment with
  | JObj offsets =>
      match field "from" (JInt 0) (JObj offsets), field "to" (JInt 0) (JObj offsets) with
      | JInt a, JInt b => Some (a, b)
      | _, _ => None
      end
  | _ => None
  end.

(** [endMs - startMs] of a caption with integer times. *)
Definition duration (c : caption) : Z :=
  match startMs c, endMs c with
  | JInt t, JInt u => u - t
  | _, _ => 0
  end.

Definition total_duration (caps : list caption) : Z :=
  fold_right (fun c acc => duration c + acc) 0 caps.

(** [int(i * duration_per_word)] *)
Definition word_offset (duration_per_word : spec_float) (i : Z) : Z :=
  from_option id 0 (Float64.trunc (Float64.mul (Float64.of_Z i) duration_per_word)).

(** The caption of word [i] of a segment starting at [a], when each word
    lasts [q] milliseconds. *)
Definition split_caption (a : Z) (duration_per_word : spec_float) (q : Z)
    (iw : Z * string) : caption :=
  let start := a + word_offset duration_per_word (fst iw) in
  mkCaption (JStr (snd iw)) (JInt start) (JInt (start + q)) (JInt start) (JFloat Float64.c0_95).

(** The errors a job raises: those of the conversion, of the engine, of
    the parsing and of the saving of the captions. *)
Definition request_error (e : exn) : bool :=
  match e with
  | ConvertFailed _ | UnicodeDecodeError | FfmpegNotFound | OSFileNotFoundError
  | WhisperFailed _ | OutputJsonNotFound _ | JsonParseFailed _ | ProcessingFailed _
  | OSError | UnicodeEncodeError | ValueError | RecursionError => true
  | _ => false
  end.

(** The errors the construction of the engine raises. *)
Definition construction_error (e : exn) : bool :=
  match e with
  | ModelNotFound _ _ _ | WhisperExeNotFound => true
  | _ => false
  end.

Section Vocabulary.
Context `{Platform}.

(** Following the specification: the places searched for the engine
    executable, in order: the models directory, its [whisper.cpp]
    subdirectory, the bundled-resource location (when there is one). *)
Definition exe_candidates (sys : sys_info) (models_dir : string) : list string :=
  [path_join models_dir "main.exe";
   path_join (path_join models_dir "whisper.cpp") "main.exe"]
  ++ match sys_MEIPASS sys with
     | Some meipass => [path_join (path_join meipass "models") "main.exe"]
     | None => []
     end.

(** Following the specification: the outcome of a job is the captions it
    saved, or the error that its transcription raised, or the error that the
    saving of its captions raised. *)
Inductive outcome : Type :=
| Saved (captions : list caption)
| NotSaved (captions : list caption) (e : exn)
| NotTranscribed (e : exn).

Definition succeeded (o : outcome) : bool :=
  match o with
  | Saved _ => true
  | _ => false
  end.

Definition outcome_error (o : outcome) : option exn :=
  match o with
  | Saved _ => None
  | NotSaved _ e | NotTranscribed e => Some e
  end.

(** Following the specification: a job transcribes the audio file of its
    request and saves the captions beside it. *)
Definition job (engine : TranscriptionEngine) (language audio_path : string) (w : World)
    : outcome * World :=
  match transcribe_audio engine audio_path language w with
  | (Ok captions, w1) =>
      match save_json (path_with_suffix audio_path ".json")
                      (JArr (map caption_json captions)) w1 with
      | (Ok _, w2) => (Saved captions, w2)
      | (Raise e, w2) => (NotSaved captions e, w2)
      end
  | (Raise e, w1) => (NotTranscribed e, w1)
  end.

(** Following the specification: the requests in order, each with the
    outcome of its job, the world handed from one job to the next. *)
Fixpoint job_outcomes (engine : TranscriptionEngine) (language : string)
    (audio_paths : list string) (w : World) : list (string * outcome) * World :=
  match audio_paths with
  | [] => ([], w)
  | audio_path :: rest =>
      let '(o, w2) := job engine language audio_path w in
      let '(outs, w3) := job_outcomes engine language rest w2 in
      ((audio_path, o) :: outs, w3)
  end.

Definition succeeded_names (outs : list (string * outcome)) : list string :=
  map (fun o => os_path_basename (fst o)) (List.filter (fun o => succeeded (snd o)) outs).

Definition failed_names (outs : list (string * outcome)) : list string :=
  map (fun o => os_path_basename (fst o)) (List.filter (fun o => negb (succeeded (snd o))) outs).

(** The signals of one request: the start of file [idx] of [total], then
    the completion signals, or the error detail, preceded by the saving
    message when the error is that of the saving. *)
Definition request_events (total idx : nat) (o : string * outcome) : list event :=
  start_events idx total (fst o)
  ++ match snd o with
     | Saved captions => success_events idx total (fst o) captions
     | NotSaved _ e =>
         [progress (MSaving (path_name (path_with_suffix (fst o) ".json")));
          progress (MErrorProcessing (os_path_basename (fst o)) e)]
     | NotTranscribed e => [progress (MErrorProcessing (os_path_basename (fst o)) e)]
     end.

Fixpoint batch_events (total idx : nat) (outs : list (string * outcome)) : list event :=
  match outs with
  | [] => []
  | o :: rest => request_events total idx o ++ batch_events total (S idx) rest
  end.

End Vocabulary.

(** ** Further vocabulary *)

(** The WAV path [_convert_audio_to_wav] derives from an audio path. *)
Definition wav_path_of `{Platform} (audio_path : string) : string :=
  path_join gettempdir (path_stem audio_path +:+ "_16khz.wav").

(** The raw output path [_parse_whisper_output] derives from a WAV path. *)
Definition json_path_of `{Platform} (wav_path : string) : string :=
  path_with_suffix wav_path ".wav.json".

(** [stderr_text] of lines 173-176. *)
Definition engine_stderr_text `{Platform} (stderr : bytes) : string :=
  match decode_utf8 stderr with
  | Some t => t
  | None => decode_utf8_replace stderr
  end.

(** The errors the interpreter raises on values of the wrong type or
    shape. *)
Definition interpreter_error (e : exn) : bool :=
  match e with
  | TypeError | AttributeError | ValueError | OverflowError | KeyError => true
  | _ => false
  end.

(** A loop body that appends what it computes from its item alone. *)
Definition appends_only {A} (body : list caption -> A -> result (list caption)) : Prop :=
  forall caps x, body caps x = (new ← body [] x; Ok (caps ++ new)).

(** The captions of a sequence of computations that are run one after the
    other: those of each, in order, or the first error. *)
Fixpoint gather (rs : list (result (list caption))) : result (list caption) :=
  match rs with
  | [] => Ok []
  | r :: rs' => x ← r; xs ← gather rs'; Ok (x ++ xs)
  end.

(** The milliseconds of a time of the word tier given in seconds under key
    [k1], else under [k2], else 0: an integer is multiplied by 1000, a float
    is multiplied by 1000 as a float and truncated toward zero. *)
Definition word_ms (k1 k2 : string) (word : json) : option Z :=
  match field k1 (field k2 (JInt 0) word) word with
  | JInt z => Some (z * 1000)
  | JFloat f => Float64.trunc (Float64.mul f (Float64.of_Z 1000))
  | _ => None
  end.

(** A word entry is an object whose times are integers or floats whose
    thousandfold is finite. *)
Definition well_formed_word (word : json) : bool :=
  match word with
  | JObj _ =>
      bool_decide (is_Some (word_ms "start" "t0" word))
      && bool_decide (is_Some (word_ms "end" "t1" word))
  | _ => false
  end.

Definition caption_of_word (word : json) : caption :=
  let start := from_option id 0 (word_ms "start" "t0" word) in
  mkCaption (field "word" (field "text" (JStr "") word) word)
            (JInt start)
            (JInt (from_option id 0 (word_ms "end" "t1" word)))
            (JInt start)
            (field "confidence" (field "p" (JFloat Float64.c0_95) word) word).

(** The signals of each kind in a sequence of signals. *)
Definition is_finished (ev : event) : bool :=
  match ev with
  | finished _ _ => true
  | _ => false
  end.

Definition progress_messages (evs : list event) : list message :=
  omap (fun ev => match ev with progress m => Some m | _ => None end) evs.

Definition completions (evs : list event) : list (nat * nat * string) :=
  omap (fun ev => match ev with
                  | file_completed current total filename => Some (current, total, filename)
                  | _ => None
                  end) evs.

(** The [Processing file idx of total] messages. *)
Definition announcements (evs : list event) : list (nat * nat) :=
  omap (fun ev => match ev with
                  | progress (MProcessing idx total) => Some (idx, total)
                  | _ => None
                  end) evs.

(** Inputs of the examples. *)

Definition raw_output_of (doc : string) : World :=
  mkWorld {[ "/tmp/a_16khz.wav.json" := list_byte_of_string doc ]} 0.

(** The same with the debug artifact held by another process. *)
Definition raw_output_debug_held (doc : string) : World :=
  mkWorld {[ "/tmp/a_16khz.wav.json" := list_byte_of_string doc;
             "/tmp/a_16khz.wav.debug.json.lock" := [] ]} 0.

Definition demo_engine : TranscriptionEngine :=
  mkEngine "small" "/app/models" "/app/models/ggml-small.bin" "/app/models/main.exe".

Definition three_requests : list string := ["/in/a.mp3"; "/in/b.mp3"; "/in/c.mp3"].

(** The second of the three has a transcript without captions. *)
Definition three_audio_files : list (string * bytes) :=
  [Demo.file "/in/a.mp3" "hello"; Demo.file "/in/b.mp3" "{}";
   Demo.file "/in/c.mp3" "three_words"].

(** The names of the models of the table of [_get_available_models]. *)
Definition model_names : list string := ["tiny"; "base"; "small"; "medium"; "large-v3"].

(** A window with one file selected and the first items of its boxes
    current, in an installation whose models directory is listed. *)
Definition ready_window : ui_state :=
  mkUi ["/in/a.mp3"] (SelectedOne "a.mp3") true true true true
       "small (466 MB, balanced) ✓" "auto (Auto-detect)" false [].

Definition listed (w : World) : World :=
  mkWorld (<["/app/models" := []]> (files w)) (outside w).

(** A one-file bundle: [sys.frozen] and [sys._MEIPASS] are set. *)
Definition bundled_sys : sys_info := mkSys true (Some "/bundle") "/dist/app.exe" "/bundle/app.py".

(** * Properties *)

(** ** Reasoning about [result] computations *)

Lemma bind_Ok {A B} (m : result A) (f : A -> result B) (b : B) :
  m ≫= f = Ok b -> exists a, m = Ok a /\ f a = Ok b.
Proof. destruct m as [a|e]; [eauto | discriminate]. Qed.

(** Break a hypothesis [... = Ok _] along the binds and tests it went
    through. *)
Ltac ok_inv :=
  repeat match goal with
  | H : mbind _ _ = Ok _ |- _ =>
      let a := fresh "v" in let E := fresh "E" in
      apply bind_Ok in H; destruct H as (a & E & H)
  | H : Raise _ = Ok _ |- _ => discriminate H
  | H : Ok _ = Ok _ |- _ => injection H as H
  | H : (if ?b then _ else _) = Ok _ |- _ =>
      let E := fresh "E" in destruct b eqn:E
  end.

Lemma for_each_inv {A B} (P : B -> Prop) (body : B -> A -> result B) xs :
  (forall b a b', P b -> body b a = Ok b' -> P b') ->
  forall acc r, P acc -> for_each body xs acc = Ok r -> P r.
Proof.
  intros Hbody. induction xs as [|x xs IH]; intros acc r Hacc Hrun; simpl in Hrun.
  - injection Hrun as <-. exact Hacc.
  - apply bind_Ok in Hrun as (acc' & Hx & Hrest). eauto.
Qed.

(** A property of every caption that each tier establishes for the captions
    it appends holds of everything the ladder extracts. *)
Section LadderInvariant.
Variable P : caption -> Prop.
Hypothesis token_ok : forall caps t caps',
  Forall P caps -> token_step caps t = Ok caps' -> Forall P caps'.
Hypothesis word_ok : forall caps t caps',
  Forall P caps -> word_step caps t = Ok caps' -> Forall P caps'.
Hypothesis split_ok : forall caps seg caps',
  Forall P caps -> split_segment caps seg = Ok caps' -> Forall P caps'.

Lemma segment_step_inv caps seg caps' :
  Forall P caps -> segment_step caps seg = Ok caps' -> Forall P caps'.
Proof.
  intros Hcaps Hrun. unfold segment_step in Hrun. ok_inv.
  - exact (for_each_inv _ _ _ token_ok _ _ Hcaps Hrun).
  - exact (for_each_inv _ _ _ word_ok _ _ Hcaps Hrun).
  - eauto.
  - subst. exact Hcaps.
Qed.

Lemma extract_captions_inv j caps :
  extract_captions j = Ok caps -> Forall P caps.
Proof.
  intros Hrun. unfold extract_captions in Hrun. ok_inv.
  - exact (for_each_inv _ _ _ segment_step_inv _ _ (List.Forall_nil P) Hrun).
  - subst. constructor.
Qed.

End LadderInvariant.

(** ** What [_parse_whisper_output] returns *)

Section ParseFacts.
Context `{Platform}.

(** The inner [try] always raises, and never a JSON syntax error: its
    handler catches nothing. *)
Lemma report_no_captions_raises debug_json_path whisper_data w :
  exists e, fst (report_no_captions debug_json_path whisper_data w) = Raise e
            /\ e <> JSONDecodeError.
Proof.
  unfold report_no_captions, save_json.
  destruct (save_fails _ _ w) as [[[] [written|]]|]; simpl; try (eexists; split; [reflexivity|]; discriminate).
  destruct whisper_data; simpl; eexists; (split; [reflexivity|]); discriminate.
Qed.

(** A returned caption list was extracted from the decoded raw output, and
    is not empty. *)
Lemma parse_Ok_extracted wav_path w caps w' :
  _parse_whisper_output wav_path w = (Ok caps, w') ->
  exists raw j,
    files w !! path_with_suffix wav_path ".wav.json" = Some raw /\
    json_loads (decode_output raw) = Some j /\
    extract_captions j = Ok caps /\ caps <> [] /\
    w' = try_remove (path_with_suffix wav_path ".wav.json") w.
Proof.
  unfold _parse_whisper_output, parse_body.
  destruct (files w !! _) as [raw|] eqn:Hraw; [|intros [=]].
  destruct (json_loads _) as [j|] eqn:Hj; [|destruct (json_loads_error _); intros [=]].
  destruct (extract_captions j) as [cs|e] eqn:Hx; [|destruct e; intros [=]].
  destruct cs as [|c cs]; simpl.
  - destruct (report_no_captions_raises (path_with_suffix wav_path ".wav.debug.json") j w)
      as (e & He & Hne).
    destruct (report_no_captions _ j w) as [inner w1]. simpl in He. subst inner.
    destruct e; try contradiction; intros [=].
  - intros [= <- <-]. exists raw, j. repeat split; done.
Qed.

End ParseFacts.

(** ** C9: the timestamp of a caption is its start *)

Lemma Forall_snoc {A} (P : A -> Prop) (xs : list A) (x : A) :
  Forall P xs -> P x -> Forall P (xs ++ [x]).
Proof. intros Hxs Hx. apply Forall_app. split; [exact Hxs | repeat constructor; exact Hx]. Qed.

Lemma token_step_stamp caps t caps' :
  Forall stamp_is_start caps -> token_step caps t = Ok caps' -> Forall stamp_is_start caps'.
Proof.
  unfold token_step. intros Hcaps Hrun. ok_inv; subst; [exact Hcaps|].
  apply Forall_snoc; [exact Hcaps | reflexivity].
Qed.

Lemma word_step_stamp caps t caps' :
  Forall stamp_is_start caps -> word_step caps t = Ok caps' -> Forall stamp_is_start caps'.
Proof.
  unfold word_step. intros Hcaps Hrun. ok_inv; subst.
  apply Forall_snoc; [exact Hcaps|]. unfold stamp_is_start. simpl. congruence.
Qed.

Lemma split_word_step_stamp start_ms dpw caps iw caps' :
  Forall stamp_is_start caps -> split_word_step start_ms dpw caps iw = Ok caps' ->
  Forall stamp_is_start caps'.
Proof.
  unfold split_word_step. destruct iw as [i word]. intros Hcaps Hrun. ok_inv; subst.
  apply Forall_snoc; [exact Hcaps | reflexivity].
Qed.

Lemma split_segment_stamp caps seg caps' :
  Forall stamp_is_start caps -> split_segment caps seg = Ok caps' -> Forall stamp_is_start caps'.
Proof.
  unfold split_segment. intros Hcaps Hrun. ok_inv; subst; [exact Hcaps|].
  exact (for_each_inv _ _ _ (split_word_step_stamp _ _) _ _ Hcaps Hrun).
Qed.

(** C9. Every caption [_parse_whisper_output] returns, whichever tier
    produced it, has [timestampMs] equal to [startMs]. *)
Theorem timestamp_equals_start `{Platform} wav_path w caps w' :
  _parse_whisper_output wav_path w = (Ok caps, w') ->
  Forall (fun c => timestampMs c = startMs c) caps.
Proof.
  intros Hparse. apply parse_Ok_extracted in Hparse as (raw & j & _ & _ & Hx & _).
  exact (extract_captions_inv stamp_is_start token_step_stamp word_step_stamp
           split_segment_stamp j caps Hx).
Qed.

Lemma timestamp_equals_start_witness :
  exists caps,
    fst (_parse_whisper_output (H := Demo.platform) "/tmp/a_16khz.wav"
           (raw_output_of "three_words")) = Ok caps /\
    length caps = 3%nat /\
    Forall (fun c => timestampMs c = startMs c) caps.
Proof.
  destruct (_parse_whisper_output (H := Demo.platform) "/tmp/a_16khz.wav"
              (raw_output_of "three_words")) as [[caps|e] w'] eqn:Hparse.
  - exists caps. split; [reflexivity|]. split.
    + apply (f_equal fst) in Hparse. vm_compute in Hparse. injection Hparse as <-. reflexivity.
    + exact (timestamp_equals_start _ _ _ _ Hparse).
  - apply (f_equal fst) in Hparse. vm_compute in Hparse. discriminate Hparse.
Defined.

(** ** C8: engine discovery *)

Section Discovery.
Context `{Platform}.

Lemma find_whisper_executable_first sys dir w :
  _find_whisper_executable sys dir w
  = List.find (fun p => path_exists p w) (exe_candidates sys dir).
Proof.
  unfold _find_whisper_executable, exe_candidates. simpl.
  destruct (path_exists (path_join dir "main.exe") w); [reflexivity|].
  destruct (path_exists (path_join (path_join dir "whisper.cpp") "main.exe") w);
    [reflexivity|].
  destruct (sys_MEIPASS sys) as [m|]; simpl; [|reflexivity].
  destruct (path_exists _ w); reflexivity.
Qed.

Lemma convert_never_discovery audio_path w e :
  fst (_convert_audio_to_wav audio_path w) = Raise e -> e <> WhisperExeNotFound.
Proof.
  unfold _convert_audio_to_wav.
  destruct (subprocess_run _ None w) as [[rc err|] w1]; simpl; [|intros [= <-]; discriminate].
  destruct (rc =? 0); simpl; [discriminate|].
  destruct (decode_utf8 err); simpl; intros [= <-]; discriminate.
Qed.

Lemma parse_never_discovery wav_path w :
  fst (_parse_whisper_output wav_path w) <> Raise WhisperExeNotFound.
Proof.
  unfold _parse_whisper_output.
  destruct (files w !! _) as [raw|]; simpl; [|discriminate].
  destruct (parse_body _ _ raw w) as [[caps|e] w1]; simpl; [discriminate|].
  destruct e; simpl; discriminate.
Qed.

Lemma transcribe_never_discovery self audio_path language w :
  fst (transcribe_audio self audio_path language w) <> Raise WhisperExeNotFound.
Proof.
  unfold transcribe_audio.
  pose proof (convert_never_discovery audio_path w) as Hconv.
  destruct (_convert_audio_to_wav audio_path w) as [[wav|e] w1]; simpl in *;
    [|intros [= ->]; exact (Hconv _ eq_refl eq_refl)].
  unfold transcribe_body.
  destruct (subprocess_run _ _ w1) as [[rc err|] w2]; simpl; [|discriminate].
  destruct (rc =? 0); simpl; [|discriminate].
  pose proof (parse_never_discovery wav w2) as Hparse.
  destruct (_parse_whisper_output wav w2) as [r w3]. exact Hparse.
Qed.

(** C8. The executable is looked for at the candidates in their order and
    the first that exists is taken. When none exists the constructor raises;
    an engine it returns holds the first existing candidate, a path that
    exists in the world it was constructed in; the command line of a
    transcription starts with that path, and [transcribe_audio] never raises
    the executable-not-found error of the constructor. *)
Theorem engine_discovery sys name w :
  let dir := path_join (base_dir_of sys) "models" in
  _find_whisper_executable sys dir w
    = List.find (fun p => path_exists p w) (exe_candidates sys dir)
  /\ (Forall (fun p => path_exists p w = false) (exe_candidates sys dir) ->
      exists e, __init__ sys name w = Raise e)
  /\ (forall self, __init__ sys name w = Ok self ->
        List.find (fun p => path_exists p w) (exe_candidates sys dir) = Some (whisper_exe self)
        /\ path_exists (whisper_exe self) w = true
        /\ (forall wav language, head (whisper_cmd self wav language) = Some (whisper_exe self))
        /\ (forall audio_path language w',
              fst (transcribe_audio self audio_path language w') <> Raise WhisperExeNotFound)).
Proof.
  intros dir. split; [apply find_whisper_executable_first|]. split.
  - intros Hnone. unfold __init__. fold dir.
    destruct (negb _); [eauto|].
    rewrite find_whisper_executable_first.
    destruct (List.find _ _) as [p|] eqn:Hfind; [|eauto].
    apply find_some in Hfind as [Hin Hex].
    rewrite List.Forall_forall in Hnone. rewrite (Hnone p Hin) in Hex. discriminate.
  - intros self Hinit. unfold __init__ in Hinit. fold dir in Hinit.
    destruct (negb _); [discriminate|].
    destruct (_find_whisper_executable sys dir w) as [exe|] eqn:Hfind; [|discriminate].
    injection Hinit as <-. simpl.
    rewrite find_whisper_executable_first in Hfind.
    split; [exact Hfind|]. split; [exact (proj2 (find_some _ _ Hfind))|].
    split; [reflexivity|]. intros. apply transcribe_never_discovery.
Qed.

End Discovery.

Lemma engine_discovery_witness :
  let w := Demo.installed [] in
  exists self,
    __init__ (H := Demo.platform) Demo.sys "small" w = Ok self /\
    whisper_exe self = "/app/models/main.exe" /\
    path_exists (whisper_exe self) w = true.
Proof.
  exists (mkEngine "small" "/app/models" "/app/models/ggml-small.bin" "/app/models/main.exe").
  assert (Hinit : __init__ (H := Demo.platform) Demo.sys "small" (Demo.installed [])
                  = Ok (mkEngine "small" "/app/models" "/app/models/ggml-small.bin"
                          "/app/models/main.exe")) by (vm_compute; reflexivity).
  split; [exact Hinit|]. split; [reflexivity|].
  exact (proj1 (proj2 (proj2 (proj2 (engine_discovery (H := Demo.platform) Demo.sys "small"
                                       (Demo.installed []))) _ Hinit))).
Defined.

(** ** C6: the temporary WAV is cleaned up *)

Section WavCleanup.
Context `{Platform}.

Lemma path_exists_delete p w :
  path_exists p (mkWorld (delete p (files w)) (outside w)) = false.
Proof.
  unfold path_exists. simpl. rewrite lookup_delete_eq.
  apply bool_decide_eq_false. intros [x Hx]. discriminate Hx.
Qed.

Lemma try_remove_gone p w :
  remove_fails p w = false -> path_exists p (try_remove p w) = false.
Proof.
  intros Hrm. unfold try_remove, os_remove. rewrite Hrm.
  destruct (path_exists p w) eqn:Hex; [apply path_exists_delete | exact Hex].
Qed.

Lemma try_remove_refused p w :
  remove_fails p w = true -> try_remove p w = w.
Proof.
  intros Hrm. unfold try_remove, os_remove. rewrite Hrm.
  by destruct (path_exists p w).
Qed.

Lemma cleanup_wav_gone wav_path w :
  remove_fails wav_path w = false -> path_exists wav_path (cleanup_wav wav_path w) = false.
Proof.
  intros Hrm. unfold cleanup_wav.
  destruct (path_exists wav_path w) eqn:Hex; [by apply try_remove_gone | exact Hex].
Qed.

Lemma cleanup_wav_refused wav_path w :
  remove_fails wav_path w = true -> cleanup_wav wav_path w = w.
Proof.
  intros Hrm. unfold cleanup_wav.
  destruct (path_exists wav_path w); [by apply try_remove_refused | reflexivity].
Qed.

(** C6, as amended. When the conversion produced the WAV path,
    [transcribe_audio] returns exactly what the body of its [try] produced
    (a caption list, the engine failure or the parse failure: the clean-up
    adds no exception of its own). The removal of the WAV is attempted on
    every path: where [os.remove] does not fail no file is left at the WAV
    path; where it fails the failure is swallowed and the world is left as
    the body left it, the WAV included. *)
Theorem wav_removed_on_every_exit self audio_path language w wav_path w1 :
  _convert_audio_to_wav audio_path w = (Ok wav_path, w1) ->
  let body := transcribe_body self wav_path language w1 in
  let r := transcribe_audio self audio_path language w in
  fst r = fst body
  /\ (remove_fails wav_path (snd body) = false ->
      files (snd r) !! wav_path = None /\ path_exists wav_path (snd r) = false)
  /\ (remove_fails wav_path (snd body) = true -> snd r = snd body).
Proof.
  intros Hconv body r. subst body r. unfold transcribe_audio. rewrite Hconv.
  destruct (transcribe_body self wav_path language w1) as [r w2]. simpl.
  split; [reflexivity|]. split; [|apply cleanup_wav_refused].
  intros Hrm. pose proof (cleanup_wav_gone wav_path w2 Hrm) as Hgone. split; [|exact Hgone].
  unfold path_exists in Hgone. apply bool_decide_eq_false in Hgone.
  destruct (files (cleanup_wav wav_path w2) !! wav_path) eqn:Hlook; [|reflexivity].
  exfalso. apply Hgone. eauto.
Qed.

End WavCleanup.

(** Three runs of the example platform: a transcript is returned, the
    engine exits with a non-zero status, the parser finds no caption. *)
Lemma wav_removed_on_every_exit_witness :
  Forall (fun content =>
    let w := Demo.installed [Demo.file "/in/a.mp3" content] in
    is_ok (fst (_convert_audio_to_wav (H := Demo.platform) "/in/a.mp3" w)) = true /\
    path_exists "/tmp/a_16khz.wav"
      (snd (transcribe_audio (H := Demo.platform) demo_engine "/in/a.mp3" "auto" w)) = false)
    ["hello"; "crash"; "{}"].
Proof.
  assert (Hat : forall w,
    _convert_audio_to_wav (H := Demo.platform) "/in/a.mp3" w
      = (Ok "/tmp/a_16khz.wav", snd (_convert_audio_to_wav (H := Demo.platform) "/in/a.mp3" w)) ->
    @remove_fails Demo.platform "/tmp/a_16khz.wav"
      (snd (transcribe_body (H := Demo.platform) demo_engine "/tmp/a_16khz.wav" "auto"
              (snd (_convert_audio_to_wav (H := Demo.platform) "/in/a.mp3" w)))) = false ->
    path_exists "/tmp/a_16khz.wav"
      (snd (transcribe_audio (H := Demo.platform) demo_engine "/in/a.mp3" "auto" w)) = false).
  { intros w Hconv Hrm.
    exact (proj2 (proj1 (proj2 (wav_removed_on_every_exit demo_engine _ "auto" _ _ _ Hconv))
                    Hrm)). }
  repeat (apply List.Forall_cons || apply List.Forall_nil);
    (split; [vm_compute; reflexivity | apply Hat; vm_compute; reflexivity]).
Defined.

(** C6 as stated fails where the removal fails: with the WAV held by another
    process the transcription returns its captions, and the WAV that the
    conversion created is still there afterwards. *)
Lemma wav_kept_when_removal_fails :
  let w := Demo.installed [Demo.file "/in/a.mp3" "hello";
                           Demo.file "/tmp/a_16khz.wav.lock" ""] in
  let r := transcribe_audio (H := Demo.platform) demo_engine "/in/a.mp3" "auto" w in
  path_exists "/tmp/a_16khz.wav" w = false
  /\ fst (_convert_audio_to_wav (H := Demo.platform) "/in/a.mp3" w) = Ok "/tmp/a_16khz.wav"
  /\ is_ok (fst r) = true
  /\ path_exists "/tmp/a_16khz.wav" (snd r) = true.
Proof. cbv zeta. repeat split; vm_compute; reflexivity. Qed.

(** ** C3: no caption extracted *)

Section EmptyResult.
Context `{Platform}.

(** C3, as amended. When the decoded raw output yields no caption, the
    parser saves the decoded transcript as the debug artifact and raises;
    it does not return an empty list. When the saving succeeds the debug
    artifact holds the transcript and, for a JSON object, the error carries
    the object's top-level keys. When the saving fails the error is that of
    the saving, wrapped. *)
Theorem empty_result_policy wav_path w raw j :
  files w !! path_with_suffix wav_path ".wav.json" = Some raw ->
  json_loads (decode_output raw) = Some j ->
  extract_captions j = Ok [] ->
  let debug_json_path := path_with_suffix wav_path ".wav.debug.json" in
  let r := _parse_whisper_output wav_path w in
  (exists e, fst r = Raise (ProcessingFailed e))
  /\ match save_fails debug_json_path j w with
     | None =>
         snd r = write_file debug_json_path (json_dump j) w
         /\ forall items, j = JObj items ->
              fst r = Raise (ProcessingFailed
                               (NoCaptionsExtracted debug_json_path (map fst items)))
              /\ forall e, fst r = Raise e -> reports_keys (map fst items) e
     | Some (err, written) =>
         fst r = Raise (ProcessingFailed (exn_of_save_error err))
         /\ snd r = match written with
                    | Some content => write_file debug_json_path content w
                    | None => w
                    end
     end.
Proof.
  intros Hraw Hj Hx debug_json_path r. subst r.
  unfold _parse_whisper_output, parse_body. rewrite Hraw, Hj, Hx. simpl.
  unfold report_no_captions, save_json. fold debug_json_path.
  destruct (save_fails debug_json_path j w) as [[err [written|]]|]; simpl.
  - destruct err; simpl; (split; [eauto|]); split; reflexivity.
  - destruct err; simpl; (split; [eauto|]); split; reflexivity.
  - destruct j; simpl; (split; [eauto|]); (split; [reflexivity|]);
      intros items' [=]; subst.
    split; [reflexivity|]. intros e [= <-]. reflexivity.
Qed.

(** The parser never returns an empty caption list. *)
Lemma parse_never_empty wav_path w : fst (_parse_whisper_output wav_path w) <> Ok [].
Proof.
  destruct (_parse_whisper_output wav_path w) as [[caps|e] w'] eqn:Hparse; simpl;
    [|discriminate].
  apply parse_Ok_extracted in Hparse as (_ & _ & _ & _ & _ & Hne & _).
  intros [= ->]. exact (Hne eq_refl).
Qed.

End EmptyResult.

Lemma empty_result_policy_witness :
  let r := _parse_whisper_output (H := Demo.platform) "/tmp/a_16khz.wav" (raw_output_of "{}") in
  extract_captions (JObj []) = Ok [] /\
  fst r = Raise (ProcessingFailed (NoCaptionsExtracted "/tmp/a_16khz.wav.debug.json" [])) /\
  path_exists "/tmp/a_16khz.wav.debug.json" (snd r) = true.
Proof.
  pose proof (empty_result_policy (H := Demo.platform) "/tmp/a_16khz.wav" (raw_output_of "{}")
                (list_byte_of_string "{}") (JObj []) eq_refl eq_refl eq_refl)
    as (_ & Hsaved).
  cbv zeta in Hsaved.
  replace (@save_fails Demo.platform
             (@path_with_suffix Demo.platform "/tmp/a_16khz.wav" ".wav.debug.json")
             (JObj []) (raw_output_of "{}"))
    with (@None (save_error * option bytes)) in Hsaved by (vm_compute; reflexivity).
  destruct Hsaved as (Hw & Hobj).
  split; [reflexivity|]. split.
  - exact (proj1 (Hobj [] eq_refl)).
  - cbv zeta. rewrite Hw. vm_compute. reflexivity.
Defined.

(** C3 as stated fails in two ways. On a transcript that is valid JSON but
    not an object, as the array [[]], no caption is extracted and the debug
    artifact is written, but the error raised is the [AttributeError] of
    [whisper_data.keys()], wrapped; its message lists no keys. On a
    transcript whose debug artifact cannot be written, here the object [{}]
    with the artifact held by another process, the error raised is that of
    the saving, wrapped; its message lists no keys and no artifact is
    written. *)
Lemma empty_result_array_reports_no_keys :
  let r := _parse_whisper_output (H := Demo.platform) "/tmp/a_16khz.wav" (raw_output_of "[]") in
  let r' := _parse_whisper_output (H := Demo.platform) "/tmp/a_16khz.wav"
              (raw_output_debug_held "{}") in
  (@json_loads Demo.platform "[]" = Some (JArr []) /\
   extract_captions (JArr []) = Ok [] /\
   fst r = Raise (ProcessingFailed AttributeError) /\
   forall ks e, fst r = Raise e -> ~ reports_keys ks e)
  /\ (@json_loads Demo.platform "{}" = Some (JObj []) /\
      extract_captions (JObj []) = Ok [] /\
      fst r' = Raise (ProcessingFailed OSError) /\
      path_exists "/tmp/a_16khz.wav.debug.json" (snd r') = false /\
      forall ks e, fst r' = Raise e -> ~ reports_keys ks e).
Proof.
  assert (Hr : fst (_parse_whisper_output (H := Demo.platform) "/tmp/a_16khz.wav"
                      (raw_output_of "[]")) = Raise (ProcessingFailed AttributeError))
    by (vm_compute; reflexivity).
  assert (Hr' : fst (_parse_whisper_output (H := Demo.platform) "/tmp/a_16khz.wav"
                       (raw_output_debug_held "{}")) = Raise (ProcessingFailed OSError))
    by (vm_compute; reflexivity).
  cbv zeta. split.
  - repeat split; try reflexivity; try exact Hr.
    intros ks e He. rewrite Hr in He. injection He as <-. simpl. tauto.
  - repeat split; try reflexivity; try exact Hr'.
    intros ks e He. rewrite Hr' in He. injection He as <-. simpl. tauto.
Qed.

(** ** C5: the raw output after a failed parse *)

Section RawOutputCleanup.
Context `{Platform}.

(** On the success path the raw output is removed, where its removal does
    not fail. *)
Lemma parse_success_removes_raw wav_path w caps w' :
  _parse_whisper_output wav_path w = (Ok caps, w') ->
  remove_fails (path_with_suffix wav_path ".wav.json") w = false ->
  path_exists (path_with_suffix wav_path ".wav.json") w' = false.
Proof.
  intros Hparse Hrm. apply parse_Ok_extracted in Hparse as (raw & j & Hraw & _ & _ & _ & ->).
  by apply try_remove_gone.
Qed.

(** On every failure path the only change to the file system is the debug
    artifact, when it is written: [os.remove(json_path)] is not reached. *)
Lemma parse_failure_keeps_files wav_path w e w' :
  _parse_whisper_output wav_path w = (Raise e, w') ->
  w' = w \/
  exists content, w' = write_file (path_with_suffix wav_path ".wav.debug.json") content w.
Proof.
  unfold _parse_whisper_output, parse_body.
  destruct (files w !! _) as [raw|]; [|intros [= _ <-]; auto].
  destruct (json_loads _) as [j|]; [|destruct (json_loads_error _); intros [= _ <-]; auto].
  destruct (extract_captions j) as [[|c cs]|e0]; simpl.
  - unfold report_no_captions, save_json.
    destruct (save_fails _ j w) as [[[] [written|]]|]; simpl;
      try (intros [= _ <-]; eauto).
    destruct j; simpl; intros [= _ <-]; eauto.
  - intros [=].
  - destruct e0; intros [= _ <-]; auto.
Qed.

End RawOutputCleanup.

(** C5 fails on the code. For a raw output that is valid JSON without any
    caption ([{}]), one that is not valid JSON, and one that is JSON of the
    wrong shape ([null]), the parser raises and the raw output file is still
    there afterwards; only after a successful parse is it gone. *)
Theorem raw_output_kept_on_failure :
  let parse doc :=
    _parse_whisper_output (H := Demo.platform) "/tmp/a_16khz.wav" (raw_output_of doc) in
  fst (parse "{}")
    = Raise (ProcessingFailed (NoCaptionsExtracted "/tmp/a_16khz.wav.debug.json" []))
  /\ path_exists "/tmp/a_16khz.wav.json" (snd (parse "{}")) = true
  /\ fst (parse "not json") = Raise (JsonParseFailed JSONDecodeError)
  /\ path_exists "/tmp/a_16khz.wav.json" (snd (parse "not json")) = true
  /\ fst (parse "null") = Raise (ProcessingFailed TypeError)
  /\ path_exists "/tmp/a_16khz.wav.json" (snd (parse "null")) = true
  /\ is_ok (fst (parse "hello")) = true
  /\ path_exists "/tmp/a_16khz.wav.json" (snd (parse "hello")) = false.
Proof. cbv zeta. repeat split; vm_compute; reflexivity. Qed.

(** ** C2, C7: the batch *)

Section BatchFacts.
Context `{Platform}.

Lemma job_outcomes_paths engine language audio_paths w :
  map fst (fst (job_outcomes engine language audio_paths w)) = audio_paths.
Proof.
  revert w. induction audio_paths as [|p rest IH]; intros w; simpl; [reflexivity|].
  destruct (job engine language p w) as [o w2]. specialize (IH w2).
  destruct (job_outcomes engine language rest w2) as [outs w3]. simpl in *. by rewrite IH.
Qed.

(** The loop of [run] computes [job_outcomes], request by request. *)
Lemma fold_process_request engine language total audio_paths : forall idx st,
  fold_left (process_request engine language total)
            (combine (seq idx (length audio_paths)) audio_paths) st
  = let '(outs, w') := job_outcomes engine language audio_paths (world st) in
    mkRun (successful_files st ++ succeeded_names outs)
          (failed_files st ++ failed_names outs)
          (emitted st ++ batch_events total idx outs)
          w'.
Proof.
  induction audio_paths as [|p rest IH]; intros idx st; simpl.
  - unfold succeeded_names, failed_names. simpl. rewrite !app_nil_r. by destruct st.
  - rewrite IH. unfold job.
    destruct (transcribe_audio engine p language (world st)) as [[caps|e] w1]; simpl.
    + destruct (save_json _ _ w1) as [[u|e] w2]; simpl;
        destruct (job_outcomes engine language rest _) as [outs w3];
        unfold succeeded_names, failed_names, request_events, start_events; simpl;
        rewrite <- ?app_assoc; reflexivity.
    + destruct (job_outcomes engine language rest _) as [outs w3];
        unfold succeeded_names, failed_names, request_events, start_events; simpl;
        rewrite <- ?app_assoc; reflexivity.
Qed.

Lemma run_constructed sys audio_paths model language w engine :
  __init__ sys model w = Ok engine ->
  let outs := fst (job_outcomes engine language audio_paths w) in
  let total := length audio_paths in
  run sys audio_paths model language w
  = mkRun (succeeded_names outs) (failed_names outs)
          (progress MInit :: batch_events total 1 outs
             ++ summary_events total (succeeded_names outs) (failed_names outs))
          (snd (job_outcomes engine language audio_paths w)).
Proof.
  intros Hinit. unfold run. rewrite Hinit. rewrite fold_process_request. simpl.
  destruct (job_outcomes engine language audio_paths w) as [outs w']. reflexivity.
Qed.

Lemma run_not_constructed sys audio_paths model language w e :
  __init__ sys model w = Raise e ->
  run sys audio_paths model language w
  = mkRun [] [] [progress MInit; progress (MBatchError e); finished false (MBatchError e)] w.
Proof. intros Hinit. unfold run. by rewrite Hinit. Qed.

Lemma error_event_emitted total p o e outs : forall idx,
  In (p, o) outs -> outcome_error o = Some e ->
  In (progress (MErrorProcessing (os_path_basename p) e)) (batch_events total idx outs).
Proof.
  induction outs as [|o' rest IH]; intros idx Hin He; [destruct Hin|].
  cbn [batch_events]. apply in_or_app. destruct Hin as [-> | Hin]; [left | right; auto].
  unfold request_events. apply in_or_app. right.
  destruct o; simpl in *; [discriminate| |]; injection He as ->; simpl; auto.
Qed.

Lemma failed_names_in p o e outs :
  In (p, o) outs -> outcome_error o = Some e -> In (os_path_basename p) (failed_names outs).
Proof.
  intros Hin He. unfold failed_names.
  apply (in_map (fun o => os_path_basename (fst o)) _ (p, o)).
  apply filter_In. split; [exact Hin | by destruct o].
Qed.

Lemma names_partition outs :
  Permutation (succeeded_names outs ++ failed_names outs)
              (map os_path_basename (map fst outs)).
Proof.
  unfold succeeded_names, failed_names.
  induction outs as [|[p [caps|caps e|e]] rest IH]; simpl; [reflexivity| | |].
  - by constructor.
  - rewrite <- Permutation_middle. by constructor.
  - rewrite <- Permutation_middle. by constructor.
Qed.

Lemma summary_events_last total succ failed :
  last (summary_events total succ failed)
  = Some (finished (bool_decide (failed = [])) (MSummary (length succ) total)).
Proof.
  unfold summary_events. rewrite !app_assoc. rewrite last_snoc.
  destruct failed; reflexivity.
Qed.

Lemma run_records_failures sys audio_paths model language w engine :
  __init__ sys model w = Ok engine ->
  let st := run sys audio_paths model language w in
  let outs := fst (job_outcomes engine language audio_paths w) in
  map fst outs = audio_paths
  /\ failed_files st = failed_names outs
  /\ (forall p o e, In (p, o) outs -> outcome_error o = Some e ->
        In (os_path_basename p) (failed_files st) /\
        In (progress (MErrorProcessing (os_path_basename p) e)) (emitted st)).
Proof.
  intros Hinit st outs. subst st.
  rewrite (run_constructed _ _ _ _ _ _ Hinit). fold outs. simpl.
  split; [apply job_outcomes_paths|]. split; [reflexivity|].
  intros p o e Hin He. split; [exact (failed_names_in _ _ _ _ Hin He)|].
  right. apply in_or_app. left. exact (error_event_emitted _ _ _ _ _ _ Hin He).
Qed.

(** C2, as amended: once the engine has been constructed. Every request is
    attempted, in the order given; a request whose job raises, in the
    transcription or in the saving of the captions, goes to the failure
    list and its error detail is emitted, and the batch goes on; the last
    signal is [finished] with a flag that is true exactly when the failure
    list is empty; the two lists together are the base names of the
    requests. *)
Theorem batch_isolation sys audio_paths model language w engine :
  __init__ sys model w = Ok engine ->
  let st := run sys audio_paths model language w in
  let outs := fst (job_outcomes engine language audio_paths w) in
  let total := length audio_paths in
  map fst outs = audio_paths
  /\ successful_files st = succeeded_names outs
  /\ failed_files st = failed_names outs
  /\ emitted st = progress MInit :: batch_events total 1 outs
                    ++ summary_events total (successful_files st) (failed_files st)
  /\ (forall p o e, In (p, o) outs -> outcome_error o = Some e ->
        In (os_path_basename p) (failed_files st) /\
        In (progress (MErrorProcessing (os_path_basename p) e)) (emitted st))
  /\ last (emitted st)
     = Some (finished (bool_decide (failed_files st = []))
                      (MSummary (length (successful_files st)) total))
  /\ Permutation (successful_files st ++ failed_files st)
                 (map os_path_basename audio_paths).
Proof.
  intros Hinit st outs total. subst st.
  rewrite (run_constructed _ _ _ _ _ _ Hinit). fold outs total. simpl.
  split; [apply job_outcomes_paths|]. do 3 (split; [reflexivity|]). split; [|split].
  - intros p o e Hin He.
    pose proof (run_records_failures _ audio_paths _ language _ _ Hinit) as (_ & _ & Hrec).
    rewrite (run_constructed _ _ _ _ _ _ Hinit) in Hrec. exact (Hrec p o e Hin He).
  - rewrite app_comm_cons, last_app, summary_events_last. reflexivity.
  - rewrite names_partition. subst outs. by rewrite job_outcomes_paths.
Qed.

Lemma transcribe_raises_request_error self audio_path language w e :
  fst (transcribe_audio self audio_path language w) = Raise e -> request_error e = true.
Proof.
  unfold transcribe_audio, _convert_audio_to_wav.
  destruct (subprocess_run _ None w) as [[rc err|] w1]; [|intros [= <-]; reflexivity].
  destruct (rc =? 0).
  2:{ destruct (decode_utf8 err); intros [= <-]; reflexivity. }
  unfold transcribe_body.
  destruct (subprocess_run _ _ w1) as [[rc2 err2|] w2]; [|intros [= <-]; reflexivity].
  destruct (rc2 =? 0); simpl; [|intros [= <-]; reflexivity].
  unfold _parse_whisper_output.
  destruct (files w2 !! _) as [raw|]; [|intros [= <-]; reflexivity].
  destruct (parse_body _ _ raw w2) as [[caps|e0] w3]; [intros [=]|].
  destruct e0; intros [= <-]; reflexivity.
Qed.

Lemma save_raises_request_error p v w e :
  fst (save_json p v w) = Raise e -> request_error e = true.
Proof.
  unfold save_json. destruct (save_fails p v w) as [[[] [written|]]|]; intros [= <-]; reflexivity.
Qed.

Lemma job_raises_request_error engine language audio_path w e :
  outcome_error (fst (job engine language audio_path w)) = Some e -> request_error e = true.
Proof.
  unfold job.
  pose proof (transcribe_raises_request_error engine audio_path language w) as Ht.
  destruct (transcribe_audio engine audio_path language w) as [[caps|e0] w1]; simpl in *.
  - pose proof (save_raises_request_error (path_with_suffix audio_path ".json")
                  (JArr (map caption_json caps)) w1) as Hs.
    destruct (save_json _ _ w1) as [[u|e1] w2]; simpl in *; [discriminate|].
    intros [= <-]. by apply Hs.
  - intros [= <-]. by apply Ht.
Qed.

Lemma job_outcomes_errors engine language audio_paths p o e : forall w,
  In (p, o) (fst (job_outcomes engine language audio_paths w)) ->
  outcome_error o = Some e -> request_error e = true.
Proof.
  induction audio_paths as [|q rest IH]; intros w; simpl; [contradiction|].
  pose proof (job_raises_request_error engine language q w e) as Hq.
  destruct (job engine language q w) as [o' w2]. specialize (IH w2).
  destruct (job_outcomes engine language rest w2) as [outs w3]. simpl in *.
  intros [[= -> ->] | Hin] He; [by apply Hq | exact (IH Hin He)].
Qed.

Lemma init_raises_construction_error sys model w e :
  __init__ sys model w = Raise e -> construction_error e = true.
Proof.
  unfold __init__. destruct (negb _); [intros [= <-]; reflexivity|].
  destruct (_find_whisper_executable _ _ w); intros [= <-]. reflexivity.
Qed.

(** C7, as amended. The construction of the engine raises only the
    model-not-found and the executable-not-found errors; either ends the
    batch before any request, with a failed [finished] signal and empty
    lists. Once the engine is constructed, an error raised by a job
    (conversion, engine exit status, parsing, saving of the captions; never
    one of the two construction errors) puts that request, and no other, on
    the failure list, its detail is emitted, and every request is still
    attempted. *)
Theorem error_propagation sys audio_paths model language w :
  let st := run sys audio_paths model language w in
  match __init__ sys model w with
  | Raise e =>
      construction_error e = true
      /\ st = mkRun [] [] [progress MInit; progress (MBatchError e);
                           finished false (MBatchError e)] w
  | Ok engine =>
      let outs := fst (job_outcomes engine language audio_paths w) in
      map fst outs = audio_paths
      /\ failed_files st = failed_names outs
      /\ forall p o e, In (p, o) outs -> outcome_error o = Some e ->
           request_error e = true /\ construction_error e = false
           /\ In (os_path_basename p) (failed_files st)
           /\ In (progress (MErrorProcessing (os_path_basename p) e)) (emitted st)
  end.
Proof.
  intros st. destruct (__init__ sys model w) as [engine|e] eqn:Hinit.
  - destruct (run_records_failures sys audio_paths model language w engine Hinit)
      as (Hpaths & Hfailed & Hrec).
    split; [exact Hpaths|]. split; [exact Hfailed|].
    intros p o e Hin He. pose proof (job_outcomes_errors _ _ _ _ _ _ _ Hin He) as Hreq.
    split; [exact Hreq|]. split; [by destruct e|]. exact (Hrec p o e Hin He).
  - split; [exact (init_raises_construction_error _ _ _ _ Hinit)|].
    exact (run_not_constructed _ _ _ _ _ _ Hinit).
Qed.

End BatchFacts.

(** Three requests: the second has a transcript without captions, the
    captions of the third cannot be saved. *)
Lemma batch_isolation_witness :
  let w := Demo.installed (three_audio_files ++ [Demo.file "/in/c.json.lock" ""]) in
  let st := run (H := Demo.platform) Demo.sys three_requests "small" "auto" w in
  __init__ (H := Demo.platform) Demo.sys "small" w = Ok demo_engine
  /\ successful_files st = ["a.mp3"]
  /\ failed_files st = ["b.mp3"; "c.mp3"]
  /\ In (progress (MErrorProcessing "c.mp3" OSError)) (emitted st)
  /\ last (emitted st) = Some (finished false (MSummary 1 3))
  /\ Permutation (successful_files st ++ failed_files st) ["a.mp3"; "b.mp3"; "c.mp3"].
Proof.
  assert (Hinit : __init__ (H := Demo.platform) Demo.sys "small"
                    (Demo.installed (three_audio_files ++ [Demo.file "/in/c.json.lock" ""]))
                  = Ok demo_engine)
    by (vm_compute; reflexivity).
  pose proof (batch_isolation (H := Demo.platform) Demo.sys three_requests "small" "auto"
                _ demo_engine Hinit)
    as (_ & Hsucc & Hfail & _ & Hrec & Hlast & Hperm).
  cbv zeta. split; [exact Hinit|]. split; [vm_compute; reflexivity|].
  split; [vm_compute; reflexivity|]. split; [|split; [|exact Hperm]].
  - refine (proj2 (Hrec "/in/c.mp3" (NotSaved _ OSError) OSError _ eq_refl)).
    vm_compute. right. right. left. reflexivity.
  - rewrite Hlast. vm_compute. reflexivity.
Defined.

(** C2 as stated fails when the engine cannot be constructed: with the
    model artifact missing the batch reports failure although its failure
    list is empty, and the request appears in neither list. *)
Lemma batch_without_model_reports_failure :
  let st := run (H := Demo.platform) Demo.sys ["/in/a.mp3"] "small" "auto"
              (Demo.no_model [Demo.file "/in/a.mp3" "hello"]) in
  last (emitted st)
    = Some (finished false
              (MBatchError (ModelNotFound "small" "/app/models/ggml-small.bin" "/app")))
  /\ failed_files st = []
  /\ ~ Permutation (successful_files st ++ failed_files st) ["a.mp3"].
Proof.
  cbv zeta. split; [vm_compute; reflexivity|]. split; [vm_compute; reflexivity|].
  replace (successful_files _ ++ failed_files _) with (@nil string) by (vm_compute; reflexivity).
  intros Hperm. apply Permutation_length in Hperm. discriminate Hperm.
Qed.

(** C7 as stated fails for the missing model artifact: it is not recorded
    against a request; it ends the batch before the first request starts. *)
Lemma missing_model_ends_batch :
  let st := run (H := Demo.platform) Demo.sys ["/in/a.mp3"; "/in/b.mp3"] "small" "auto"
              (Demo.no_model [Demo.file "/in/a.mp3" "hello"; Demo.file "/in/b.mp3" "hello"]) in
  let e := ModelNotFound "small" "/app/models/ggml-small.bin" "/app" in
  emitted st = [progress MInit; progress (MBatchError e); finished false (MBatchError e)]
  /\ failed_files st = []
  /\ forall idx, ~ In (progress (MProcessing idx 2)) (emitted st).
Proof.
  assert (Hst : emitted (run (H := Demo.platform) Demo.sys ["/in/a.mp3"; "/in/b.mp3"] "small"
                   "auto" (Demo.no_model [Demo.file "/in/a.mp3" "hello";
                                          Demo.file "/in/b.mp3" "hello"]))
                = [progress MInit;
                   progress (MBatchError (ModelNotFound "small" "/app/models/ggml-small.bin" "/app"));
                   finished false
                     (MBatchError (ModelNotFound "small" "/app/models/ggml-small.bin" "/app"))])
    by (vm_compute; reflexivity).
  cbv zeta. split; [exact Hst|]. split; [vm_compute; reflexivity|].
  intros idx. rewrite Hst. simpl. intros [Hin | [Hin | [Hin | []]]]; discriminate Hin.
Qed.

(** ** C1: the token tier *)

Lemma str_falsy_eqb s : str_falsy s = String.eqb s "".
Proof. destruct s; reflexivity. Qed.

Lemma token_step_content caps token :
  well_formed_token token = true ->
  token_step caps token
  = Ok (caps ++ if is_content_token token then [caption_of_token token] else []).
Proof.
  destruct token as [| | | | |l|items]; try discriminate. intros Hwf.
  unfold token_step, is_content_token, caption_of_token, token_from, token_to, token_text.
  unfold well_formed_token in Hwf. simpl.
  change is_special_token with is_control_text.
  destruct (Py.assoc "text" items) as [[| | | |s| |]|]; try discriminate; simpl.
  - rewrite str_falsy_eqb.
    destruct (is_control_text s); simpl; [by rewrite app_nil_r|].
    destruct (String.eqb (Py.strip s) ""); simpl; [by rewrite app_nil_r|].
    destruct (Py.assoc "offsets" items) as [[| | | | | |offs]|]; try discriminate; reflexivity.
  - by rewrite app_nil_r.
Qed.

Lemma for_each_tokens tokens : forall caps,
  Forall (fun t => well_formed_token t = true) tokens ->
  for_each token_step tokens caps
  = Ok (caps ++ map caption_of_token (List.filter is_content_token tokens)).
Proof.
  induction tokens as [|t rest IH]; intros caps Hwf; simpl.
  - by rewrite app_nil_r.
  - apply Forall_cons in Hwf as [Ht Hrest].
    rewrite (token_step_content caps t Ht). simpl. rewrite (IH _ Hrest).
    destruct (is_content_token t); simpl; by rewrite <- app_assoc.
Qed.

Lemma segment_step_tokens caps segment tokens :
  tokens_of segment = Some tokens ->
  Forall (fun t => well_formed_token t = true) tokens ->
  segment_step caps segment
  = Ok (caps ++ map caption_of_token (List.filter is_content_token tokens)).
Proof.
  destruct segment as [| | | | | |items]; try discriminate. unfold tokens_of.
  destruct (Py.assoc "tokens" items) as [[| | | | |l|]|] eqn:Hlook; try discriminate.
  intros [= ->] Hwf. unfold segment_step. simpl. rewrite Hlook.
  rewrite bool_decide_eq_true_2 by eauto. simpl. by apply for_each_tokens.
Qed.

Lemma for_each_token_segments segments : forall tokenss caps,
  Forall2 (fun seg tokens => tokens_of seg = Some tokens) segments tokenss ->
  Forall (fun t => well_formed_token t = true) (concat tokenss) ->
  for_each segment_step segments caps
  = Ok (caps ++ map caption_of_token (List.filter is_content_token (concat tokenss))).
Proof.
  induction segments as [|seg rest IH]; intros tokenss caps Hsegs Hwf.
  - apply Forall2_nil_inv_l in Hsegs as ->. simpl. by rewrite app_nil_r.
  - apply Forall2_cons_inv_l in Hsegs as (tokens & tokenss' & Hseg & Hrest & ->).
    simpl in Hwf. apply Forall_app in Hwf as [Hwf1 Hwf2]. simpl.
    rewrite (segment_step_tokens caps seg tokens Hseg Hwf1). simpl.
    rewrite (IH _ _ Hrest Hwf2).
    by rewrite List.filter_app, map_app, app_assoc.
Qed.

(** C1, as amended. For a transcript whose segments all carry a token array
    of well-formed tokens, the ladder emits the captions of the content
    tokens, one each, in input order, with the fields of the token; so their
    number is the number of content tokens and their [startMs] values are
    the tokens' [from] offsets in input order, non-decreasing when those
    are. The parser returns that list when it is not empty. *)
Theorem token_tier_captions `{Platform} items segments tokenss :
  Py.assoc "transcription" items = Some (JArr segments) ->
  Forall2 (fun seg tokens => tokens_of seg = Some tokens) segments tokenss ->
  Forall (fun t => well_formed_token t = true) (concat tokenss) ->
  let content := List.filter is_content_token (concat tokenss) in
  let caps := map caption_of_token content in
  extract_captions (JObj items) = Ok caps
  /\ length caps = length content
  /\ map startMs caps = map token_from content
  /\ (nondecreasing (map token_from content) = true ->
      nondecreasing (map startMs caps) = true)
  /\ (forall wav_path w raw,
        files w !! path_with_suffix wav_path ".wav.json" = Some raw ->
        json_loads (decode_output raw) = Some (JObj items) ->
        content <> [] ->
        fst (_parse_whisper_output wav_path w) = Ok caps).
Proof.
  intros Hlook Hsegs Hwf content caps.
  assert (Hx : extract_captions (JObj items) = Ok caps).
  { unfold extract_captions. simpl. rewrite Hlook.
    rewrite bool_decide_eq_true_2 by eauto. simpl.
    exact (for_each_token_segments segments tokenss [] Hsegs Hwf). }
  assert (Hstarts : map startMs caps = map token_from content)
    by (subst caps; rewrite map_map; reflexivity).
  split; [exact Hx|]. split; [apply length_map|]. split; [exact Hstarts|].
  split; [by rewrite Hstarts|].
  intros wav_path w raw Hraw Hj Hne.
  unfold _parse_whisper_output, parse_body. rewrite Hraw, Hj, Hx.
  destruct caps as [|c cs] eqn:Hcaps; [|reflexivity].
  subst caps. destruct content; [contradiction | discriminate].
Qed.

Lemma token_tier_captions_witness :
  exists caps,
    fst (_parse_whisper_output (H := Demo.platform) "/tmp/a_16khz.wav" (raw_output_of "hello"))
      = Ok caps
    /\ map text caps = [JStr "Hello"; JStr "world"]
    /\ map startMs caps = [JInt 0; JInt 420].
Proof.
  set (tokens := [Demo.tok "[_BEG_]" 0 0; Demo.tok "Hello" 0 400; Demo.tok " " 400 420;
                  Demo.tok "world" 420 800]).
  assert (Hsegs : Forall2 (fun seg toks => tokens_of seg = Some toks)
                    [JObj [("tokens", JArr tokens)]] [tokens]) by repeat constructor.
  assert (Hwf : Forall (fun t => well_formed_token t = true) (concat [tokens]))
    by repeat constructor.
  pose proof (token_tier_captions (H := Demo.platform)
                [("transcription", JArr [JObj [("tokens", JArr tokens)]])] _ _
                eq_refl Hsegs Hwf) as (_ & _ & _ & _ & Hparse).
  eexists. split.
  - apply (Hparse "/tmp/a_16khz.wav" (raw_output_of "hello") (list_byte_of_string "hello"));
      [vm_compute; reflexivity | vm_compute; reflexivity | vm_compute; discriminate].
  - split; vm_compute; reflexivity.
Defined.

(** C1 as stated fails for the order of [startMs]: the parser keeps the
    engine's order and does not sort, so tokens whose offsets go backwards
    give captions whose [startMs] decreases. *)
Lemma token_tier_start_can_decrease :
  tokens_of (JObj [("tokens", JArr [Demo.tok "b" 5 6; Demo.tok "a" 1 2])])
    = Some [Demo.tok "b" 5 6; Demo.tok "a" 1 2]
  /\ forallb well_formed_token [Demo.tok "b" 5 6; Demo.tok "a" 1 2] = true
  /\ exists caps,
       extract_captions Demo.backwards = Ok caps
       /\ map startMs caps = [JInt 5; JInt 1]
       /\ nondecreasing (map startMs caps) = false.
Proof.
  split; [reflexivity|]. split; [reflexivity|].
  eexists. split; [vm_compute; reflexivity|]. split; reflexivity.
Qed.

(** ** C10: the text of a caption *)

Lemma has_nonspace_nonempty s : has_nonspace s = true -> s <> "".
Proof. destruct s; [discriminate | intros _; discriminate]. Qed.

Lemma has_nonspace_rev_app s1 : forall s2,
  has_nonspace (String.rev_app s1 s2) = has_nonspace s1 || has_nonspace s2.
Proof.
  induction s1 as [|c s1 IH]; intros s2; simpl; [reflexivity|].
  rewrite IH. simpl. destruct (Py.isspace c), (has_nonspace s1); reflexivity.
Qed.

Lemma has_nonspace_rev s : has_nonspace (String.rev s) = has_nonspace s.
Proof. unfold String.rev. rewrite has_nonspace_rev_app. simpl. apply orb_false_r. Qed.

Lemma has_nonspace_lstrip s : has_nonspace (Py.lstrip s) = has_nonspace s.
Proof.
  induction s as [|c s IH]; simpl; [reflexivity|].
  destruct (Py.isspace c) eqn:Hc; simpl; [exact IH | by rewrite Hc].
Qed.

Lemma has_nonspace_strip s : has_nonspace (Py.strip s) = has_nonspace s.
Proof.
  unfold Py.strip, Py.rstrip.
  by rewrite has_nonspace_rev, has_nonspace_lstrip, has_nonspace_rev, has_nonspace_lstrip.
Qed.

Lemma has_nonspace_of_list l :
  has_nonspace (string_of_list_ascii l) = existsb (fun c => negb (Py.isspace c)) l.
Proof. induction l as [|c l IH]; simpl; [reflexivity | by rewrite IH]. Qed.

Lemma has_nonspace_run c cur :
  Py.isspace c = false -> has_nonspace (string_of_list_ascii (rev (c :: cur))) = true.
Proof.
  intros Hc. rewrite has_nonspace_of_list. apply existsb_exists. exists c.
  split; [apply in_rev; rewrite rev_involutive; left; reflexivity | by rewrite Hc].
Qed.

(** Every word of [s.split()] has a character that is not white space. *)
Lemma split_go_words s : forall cur,
  Forall (fun c => Py.isspace c = false) cur ->
  Forall (fun w => has_nonspace w = true) (Py.split_go cur s).
Proof.
  induction s as [|c s IH]; intros cur Hcur; simpl.
  - destruct cur as [|c0 cur]; [constructor|].
    repeat constructor. apply Forall_cons in Hcur as [Hc0 _]. by apply has_nonspace_run.
  - destruct (Py.isspace c) eqn:Hc.
    + destruct cur as [|c0 cur]; [apply IH; constructor|].
      constructor; [|apply IH; constructor].
      apply Forall_cons in Hcur as [Hc0 _]. by apply has_nonspace_run.
    + apply IH. by constructor.
Qed.

(** The captions a loop appends, when each pass appends captions with [P]. *)
Lemma for_each_appends {A} (P : caption -> Prop) (body : list caption -> A -> result (list caption))
    xs acc r :
  (forall b a b', body b a = Ok b' -> exists new, b' = b ++ new /\ Forall P new) ->
  for_each body xs acc = Ok r ->
  exists new, r = acc ++ new /\ Forall P new.
Proof.
  intros Hbody Hrun.
  refine (for_each_inv (fun r => exists new, r = acc ++ new /\ Forall P new) body xs _ acc r _ Hrun).
  - intros b a b' (new & -> & Hnew) Hstep.
    destruct (Hbody _ _ _ Hstep) as (new' & -> & Hnew').
    exists (new ++ new'). split; [by rewrite app_assoc | by apply Forall_app].
  - exists []. split; [by rewrite app_nil_r | constructor].
Qed.

Lemma token_step_text caps t caps' :
  token_step caps t = Ok caps' -> exists new, caps' = caps ++ new /\ Forall content_text new.
Proof.
  unfold token_step. intros Hrun. ok_inv; subst.
  - exists []. split; [by rewrite app_nil_r | constructor].
  - eexists. split; [reflexivity|]. repeat constructor.
    destruct v as [| | | |s| |]; try discriminate. injection E0 as ->.
    apply orb_false_iff in E1 as [Hctl Hblank].
    exists v0. split; [reflexivity|]. split; [|exact Hctl].
    intros Hs. rewrite Hs in Hblank. discriminate Hblank.
Qed.

Lemma split_word_step_text start_ms dpw caps iw caps' :
  has_nonspace (snd iw) = true ->
  split_word_step start_ms dpw caps iw = Ok caps' ->
  exists new, caps' = caps ++ new /\ Forall nonblank_text new.
Proof.
  destruct iw as [i word]. unfold split_word_step. intros Hword Hrun. ok_inv; subst.
  eexists. split; [reflexivity|]. repeat constructor.
  exists word. split; [reflexivity|].
  apply has_nonspace_nonempty. by rewrite has_nonspace_strip.
Qed.

Lemma for_each_split_words start_ms dpw words : forall i caps caps',
  Forall (fun w => has_nonspace w = true) words ->
  for_each (split_word_step start_ms dpw) (enumerate_from i words) caps = Ok caps' ->
  exists new, caps' = caps ++ new /\ Forall nonblank_text new.
Proof.
  induction words as [|word rest IH]; intros i caps caps' Hwords Hrun; simpl in Hrun.
  - injection Hrun as <-. exists []. split; [by rewrite app_nil_r | constructor].
  - apply Forall_cons in Hwords as [Hword Hrest].
    apply bind_Ok in Hrun as (caps1 & Hstep & Hrun).
    apply (split_word_step_text _ _ _ (i, word)) in Hstep as (new1 & -> & Hnew1); [|exact Hword].
    destruct (IH _ _ _ Hrest Hrun) as (new2 & -> & Hnew2).
    exists (new1 ++ new2). split; [by rewrite app_assoc | by apply Forall_app].
Qed.

Lemma split_segment_text caps seg caps' :
  split_segment caps seg = Ok caps' -> exists new, caps' = caps ++ new /\ Forall nonblank_text new.
Proof.
  unfold split_segment. intros Hrun. ok_inv; subst.
  - exists []. split; [by rewrite app_nil_r | constructor].
  - eapply for_each_split_words; [|exact Hrun]. apply split_go_words. constructor.
Qed.

Lemma word_step_appends caps t caps' :
  word_step caps t = Ok caps' -> exists new, caps' = caps ++ new /\ Forall (fun _ => True) new.
Proof.
  unfold word_step. intros Hrun. ok_inv; subst.
  eexists. split; [reflexivity | repeat constructor].
Qed.

(** C10, as amended. The captions a segment adds are, under the token tier,
    captions whose text is not empty after trimming and is not a control
    token; under the segment-split tier, captions whose text is not empty
    after trimming. (Nothing is said of the word tier, which copies the
    text of each word entry as it is.) *)
Theorem caption_text_by_tier caps segment caps' :
  segment_step caps segment = Ok caps' ->
  exists new,
    caps' = caps ++ new
    /\ (Py.contains "tokens" segment = Ok true -> Forall content_text new)
    /\ (Py.contains "tokens" segment = Ok false ->
        Py.contains "words" segment = Ok false -> Forall nonblank_text new).
Proof.
  unfold segment_step. intros Hrun. ok_inv; subst.
  - destruct (for_each_appends content_text token_step _ _ _ token_step_text Hrun)
      as (new & -> & Hnew).
    exists new. split; [reflexivity|]. split; [auto|]. intros Hno. congruence.
  - destruct (for_each_appends (fun _ => True) word_step _ _ _ word_step_appends Hrun)
      as (new & -> & _).
    exists new. split; [reflexivity|]. split; intros; congruence.
  - destruct (split_segment_text _ _ _ Hrun) as (new & -> & Hnew).
    exists new. split; [reflexivity|]. split; [intros; congruence | auto].
  - exists []. split; [by rewrite app_nil_r|]. split; constructor.
Qed.

Lemma caption_text_by_tier_witness :
  let segment := JObj [("text", JStr " one two  three ");
                       ("offsets", JObj [("from", JInt 100); ("to", JInt 200)])] in
  exists caps,
    segment_step [] segment = Ok caps
    /\ map text caps = [JStr "one"; JStr "two"; JStr "three"]
    /\ Forall nonblank_text caps.
Proof.
  cbv zeta.
  destruct (segment_step [] (JObj [("text", JStr " one two  three ");
              ("offsets", JObj [("from", JInt 100); ("to", JInt 200)])])) as [caps|e] eqn:Hrun;
    [|vm_compute in Hrun; discriminate Hrun].
  exists caps. split; [reflexivity|].
  destruct (caption_text_by_tier _ _ _ Hrun) as (new & Hnew & _ & Hsplit).
  simpl in Hnew. subst new. split; [|apply Hsplit; reflexivity].
  vm_compute in Hrun. injection Hrun as <-. reflexivity.
Defined.

(** C10 as stated fails outside the token tier. The word tier emits a word
    entry whose text is empty; the segment-split tier emits a word of the
    segment text that has the form of a control token. *)
Lemma caption_text_unfiltered :
  (exists c, extract_captions Demo.blank_word = Ok [c]
             /\ text c = JStr "" /\ Py.strip "" = "")
  /\ (exists c1 c2,
        segment_step [] (JObj [("text", JStr "[_BEG_] hi")]) = Ok [c1; c2]
        /\ text c1 = JStr "[_BEG_]" /\ is_control_text "[_BEG_]" = true).
Proof.
  split.
  - eexists. split; [vm_compute; reflexivity|]. split; reflexivity.
  - eexists. eexists. split; [vm_compute; reflexivity|]. split; reflexivity.
Qed.

(** ** Binary64 rounding *)

Module Float64Facts.
Import Float64.

Lemma digits2_pos_size p : digits2_pos p = Pos.size p.
Proof. induction p as [p IH|p IH|]; simpl; [by rewrite IH | by rewrite IH | reflexivity]. Qed.

(** A positive integer has exactly [Zdigits2] binary digits. *)
Lemma Zdigits2_bounds m : 0 < m -> 2 ^ (Zdigits2 m - 1) <= m < 2 ^ Zdigits2 m.
Proof.
  destruct m as [|p|p]; try lia. intros _. simpl. rewrite digits2_pos_size.
  pose proof (Pos.size_gt p) as Hgt. pose proof (Pos.size_le p) as Hle.
  apply Pos2Z.pos_lt_pos in Hgt. apply Pos2Z.pos_le_pos in Hle.
  rewrite Pos2Z.inj_pow in Hgt, Hle.
  split; [|exact Hgt].
  assert (Hpow : 2 ^ Z.pos (Pos.size p) = 2 * 2 ^ (Z.pos (Pos.size p) - 1)).
  { rewrite <- Z.pow_succ_r by lia. f_equal. lia. }
  lia.
Qed.

Lemma Zdigits2_pos m : 0 < m -> 0 < Zdigits2 m.
Proof. destruct m; simpl; lia. Qed.

Lemma Zdigits2_unique m k : 2 ^ (k - 1) <= m < 2 ^ k -> 0 < m -> Zdigits2 m = k.
Proof.
  intros [Hlo Hhi] Hm. pose proof (Zdigits2_bounds m Hm) as [Hlo' Hhi'].
  pose proof (Zdigits2_pos m Hm) as Hd.
  assert (Hk : 0 < k).
  { destruct (Z_lt_le_dec 0 k) as [|Hk]; [assumption|].
    rewrite (Z.pow_neg_r 2 (k - 1)) in Hlo by lia.
    destruct (Z.eq_dec k 0) as [->|]; [simpl in Hhi; lia|].
    rewrite (Z.pow_neg_r 2 k) in Hhi by lia. lia. }
  destruct (Z.lt_trichotomy (Zdigits2 m) k) as [Hlt | [Heq | Hgt]]; [|exact Heq|].
  - assert (2 ^ Zdigits2 m <= 2 ^ (k - 1)) by (apply Z.pow_le_mono_r; lia). lia.
  - assert (2 ^ k <= 2 ^ (Zdigits2 m - 1)) by (apply Z.pow_le_mono_r; lia). lia.
Qed.

Lemma Zdigits2_le m k : 0 <= k -> 0 < m -> m <= 2 ^ k -> Zdigits2 m <= k + 1.
Proof.
  intros Hk Hm Hle. pose proof (Zdigits2_bounds m Hm) as [Hlo _].
  destruct (Z_le_gt_dec (Zdigits2 m) (k + 1)) as [|Hgt]; [assumption|].
  assert (2 ^ (k + 1) <= 2 ^ (Zdigits2 m - 1)) by (apply Z.pow_le_mono_r; lia).
  assert (2 ^ k < 2 ^ (k + 1)) by (apply Z.pow_lt_mono_r; lia). lia.
Qed.

(** *** Shifting a mantissa right *)

Lemma shr_1_m mrs : 0 <= shr_m mrs -> shr_m (shr_1 mrs) = shr_m mrs / 2.
Proof.
  destruct mrs as [m r s]. simpl. intros Hm.
  destruct m as [|[p|p|]|p]; try lia; simpl; try reflexivity.
  - rewrite Pos2Z.inj_xI. apply (Z.div_unique _ 2 _ 1); lia.
  - rewrite Pos2Z.inj_xO. apply (Z.div_unique _ 2 _ 0); lia.
Qed.

Lemma pow2_xO p : 2 ^ Z.pos p~0 = 2 ^ Z.pos p * 2 ^ Z.pos p.
Proof. replace (Z.pos p~0) with (Z.pos p + Z.pos p) by lia. apply Z.pow_add_r; lia. Qed.

Lemma pow2_xI p : 2 ^ Z.pos p~1 = 2 * (2 ^ Z.pos p * 2 ^ Z.pos p).
Proof.
  replace (Z.pos p~1) with (1 + (Z.pos p + Z.pos p)) by lia.
  rewrite !Z.pow_add_r by lia. reflexivity.
Qed.

Lemma iter_shr_1_m p : forall mrs,
  0 <= shr_m mrs ->
  shr_m (SpecFloat.iter_pos shr_1 p mrs) = shr_m mrs / 2 ^ Z.pos p.
Proof.
  induction p as [p IH|p IH|]; intros mrs Hm; simpl SpecFloat.iter_pos.
  - assert (H1 : 0 <= shr_m (shr_1 mrs)) by (rewrite shr_1_m by lia; apply Z.div_pos; lia).
    assert (H2 : 0 <= shr_m (SpecFloat.iter_pos shr_1 p (shr_1 mrs)))
      by (rewrite IH by lia; apply Z.div_pos; lia).
    rewrite IH, IH, shr_1_m by lia.
    rewrite !Z.div_div by lia. by rewrite pow2_xI, Z.mul_assoc.
  - assert (H2 : 0 <= shr_m (SpecFloat.iter_pos shr_1 p mrs))
      by (rewrite IH by lia; apply Z.div_pos; lia).
    rewrite IH, IH by lia. rewrite Z.div_div by lia. by rewrite pow2_xO.
  - rewrite shr_1_m by lia. reflexivity.
Qed.

(** [shr] by [k] places divides the mantissa by [2 ^ k] and adds [k] to the
    exponent; a [k] that is not positive changes nothing. *)
Lemma shr_spec mrs e k :
  0 <= shr_m mrs ->
  shr_m (fst (shr mrs e k)) = shr_m mrs / 2 ^ Z.max k 0
  /\ snd (shr mrs e k) = e + Z.max k 0.
Proof.
  intros Hm. destruct k as [|p|p]; simpl.
  - rewrite Z.div_1_r. lia.
  - rewrite iter_shr_1_m by lia. rewrite Z.max_l by lia. lia.
  - rewrite Z.div_1_r. lia.
Qed.

Lemma shr_record_of_loc_m m l : shr_m (shr_record_of_loc m l) = m.
Proof. destruct l as [|[]]; reflexivity. Qed.

Lemma shr_fexp_spec m e l :
  0 <= m ->
  let k := Z.max (fexp prec emax (Zdigits2 m + e) - e) 0 in
  shr_m (fst (shr_fexp prec emax m e l)) = m / 2 ^ k
  /\ snd (shr_fexp prec emax m e l) = e + k.
Proof.
  intros Hm k. unfold shr_fexp.
  pose proof (shr_spec (shr_record_of_loc m l) e (fexp prec emax (Zdigits2 m + e) - e)) as Hs.
  rewrite shr_record_of_loc_m in Hs. exact (Hs Hm).
Qed.

Lemma round_nearest_even_bounds m l :
  m <= round_nearest_even m l <= m + 1.
Proof. destruct l as [|[]]; simpl; try lia. destruct (Z.even m); lia. Qed.


(** *** The shape of a rounded result *)

Lemma div_pow2_lt m D k : 0 <= k <= D -> 0 <= m < 2 ^ D -> m / 2 ^ k < 2 ^ (D - k).
Proof.
  intros Hk Hm. apply Z.div_lt_upper_bound; [lia|].
  rewrite <- Z.pow_add_r by lia. replace (k + (D - k)) with D by lia. lia.
Qed.

Lemma div_pow2_zero m D k : D <= k -> 0 <= D -> 0 <= m < 2 ^ D -> m / 2 ^ k = 0.
Proof.
  intros Hk HD Hm. apply Z.div_small.
  assert (2 ^ D <= 2 ^ k) by (apply Z.pow_le_mono_r; lia). lia.
Qed.

(** Rounding a positive mantissa gives a zero or a finite float, never an
    infinity or a NaN, when the exponent bound is in range. *)
Lemma binary_round_aux_shape s m e l :
  0 < m -> exp_bound m e <= emax - prec ->
  binary_round_aux prec emax s m e l = S754_zero s
  \/ exists m' e',
       binary_round_aux prec emax s m e l = S754_finite s m' e'
       /\ Z.pos m' <= m + 1 /\ e' <= exp_bound m e.
Proof.
  intros Hm Hbound. unfold binary_round_aux.
  pose proof (shr_fexp_spec m e l ltac:(lia)) as [Hm1 He1].
  destruct (shr_fexp prec emax m e l) as [mrs1 e1]. simpl in Hm1, He1.
  set (k1 := Z.max (fexp prec emax (Zdigits2 m + e) - e) 0) in *.
  set (m2 := round_nearest_even (shr_m mrs1) (loc_of_shr_record mrs1)).
  pose proof (round_nearest_even_bounds (shr_m mrs1) (loc_of_shr_record mrs1)) as Hm2.
  fold m2 in Hm2.
  pose proof (Zdigits2_bounds m Hm) as [_ HD]. pose proof (Zdigits2_pos m Hm) as HDpos.
  assert (Hm1pos : 0 <= shr_m mrs1) by (rewrite Hm1; apply Z.div_pos; lia).
  assert (Hm1le : shr_m mrs1 <= m).
  { rewrite Hm1. apply Z.div_le_upper_bound; [lia|].
    assert (0 < 2 ^ k1) by (apply Z.pow_pos_nonneg; unfold k1; lia). nia. }
  pose proof (shr_fexp_spec m2 e1 loc_Exact ltac:(lia)) as [Hm3 He2].
  destruct (shr_fexp prec emax m2 e1 loc_Exact) as [mrs2 e2]. simpl in Hm3, He2.
  set (k2 := Z.max (fexp prec emax (Zdigits2 m2 + e1) - e1) 0) in *.
  assert (Hm3le : 0 <= shr_m mrs2 <= m2).
  { rewrite Hm3. split; [apply Z.div_pos; lia|].
    apply Z.div_le_upper_bound; [lia|].
    assert (0 < 2 ^ k2) by (apply Z.pow_pos_nonneg; unfold k2; lia). nia. }
  assert (He2le : e2 <= exp_bound m e).
  { assert (Hd2 : Zdigits2 m2 + e1 <= Z.max (Zdigits2 m + e + 1) (e1 + 1)).
    { destruct (Z.eq_dec m2 0) as [->|Hm2nz]; [simpl; lia|].
      destruct (Z_le_gt_dec k1 (Zdigits2 m)) as [Hk|Hk].
      - assert (shr_m mrs1 < 2 ^ (Zdigits2 m - k1))
          by (rewrite Hm1; apply div_pow2_lt; unfold k1 in *; lia).
        pose proof (Zdigits2_le m2 (Zdigits2 m - k1) ltac:(lia) ltac:(lia) ltac:(lia)). lia.
      - assert (shr_m mrs1 = 0)
          by (rewrite Hm1; apply (div_pow2_zero m (Zdigits2 m)); lia).
        pose proof (Zdigits2_le m2 0 ltac:(lia) ltac:(lia) ltac:(simpl; lia)). lia. }
    unfold exp_bound, k1, k2, fexp, emin, prec, emax in *. lia. }
  destruct (shr_m mrs2) as [|m'|m'] eqn:Hshr; [left; reflexivity | | lia].
  right. exists m', e2.
  rewrite (proj2 (Z.leb_le e2 (emax - prec))) by lia.
  split; [reflexivity|]. split; [lia | exact He2le].
Qed.

Lemma small_float_finite f : small_float f -> is_finite f = true.
Proof. destruct f; simpl; tauto. Qed.

Lemma mul_small f g : small_float f -> small_float g -> is_finite (mul f g) = true.
Proof.
  destruct f as [sf| | |sf mf ef], g as [sg| | |sg mg eg]; simpl; try tauto.
  intros [Hmf Hef] [Hmg Heg]. unfold mul, SFmul.
  assert (Hprod : Z.pos (mf * mg) <= 2 ^ 108).
  { rewrite Pos2Z.inj_mul. change (2 ^ 108) with (2 ^ 54 * 2 ^ 54).
    apply Z.mul_le_mono_nonneg; lia. }
  pose proof (Zdigits2_le (Z.pos (mf * mg)) 108 ltac:(lia) ltac:(lia) Hprod) as Hd.
  assert (Hb : exp_bound (Z.pos (mf * mg)) (ef + eg) <= emax - prec)
    by (unfold exp_bound, emin, prec, emax in *; lia).
  destruct (binary_round_aux_shape (xorb sf sg) (Z.pos (mf * mg)) (ef + eg) loc_Exact
              ltac:(lia) Hb) as [-> | (m' & e' & -> & _)]; reflexivity.
Qed.

Lemma pos_iter_xO p d : Z.pos (Pos.iter xO p d) = Z.pos p * 2 ^ Z.pos d.
Proof.
  induction d as [|d IH] using Pos.peano_ind.
  - simpl. lia.
  - rewrite Pos.iter_succ, Pos2Z.inj_xO, IH, Pos2Z.inj_succ, Z.pow_succ_r by lia. lia.
Qed.

Lemma of_Z_small i : 0 <= i < 2 ^ 53 -> small_float (of_Z i).
Proof.
  intros [Hlo Hhi]. destruct i as [|p|p]; [exact I | | lia].
  unfold of_Z, binary_normalize, binary_round, shl_align.
  pose proof (Zdigits2_bounds (Z.pos p) ltac:(lia)) as [HDlo HDhi].
  assert (HD : Zdigits2 (Z.pos p) <= 53).
  { pose proof (Zdigits2_le (Z.pos p) 52 ltac:(lia) ltac:(lia)) as Hle.
    change (2 ^ 53) with (2 * 2 ^ 52) in Hhi.
    destruct (Z_le_gt_dec (Zdigits2 (Z.pos p)) 53) as [|Hgt]; [assumption|].
    assert (2 ^ 53 <= 2 ^ (Zdigits2 (Z.pos p) - 1)) by (apply Z.pow_le_mono_r; lia).
    change (2 ^ 53) with (2 * 2 ^ 52) in *. lia. }
  simpl Zdigits2 in *.
  assert (Hfexp : fexp prec emax (Z.pos (digits2_pos p) + 0)
                  = Z.pos (digits2_pos p) - 53)
    by (unfold fexp, emin, prec, emax; lia).
  rewrite Hfexp.
  destruct (Z.pos (digits2_pos p) - 53 - 0) as [|d|d] eqn:Hshift; [| lia |].
  - assert (Hb : exp_bound (Z.pos p) 0 <= 2)
      by (unfold exp_bound, emin, prec, emax; simpl Zdigits2; lia).
    destruct (binary_round_aux_shape false (Z.pos p) 0 loc_Exact ltac:(lia)
                ltac:(unfold emax, prec; lia))
      as [-> | (m' & e' & -> & Hm' & He')]; [exact I | simpl; lia].
  - assert (Hmz : Z.pos (Pos.iter xO p d) < 2 ^ 53).
    { rewrite pos_iter_xO.
      assert (Z.pos d = 53 - Z.pos (digits2_pos p)) as -> by lia.
      replace (2 ^ 53) with (2 ^ Z.pos (digits2_pos p) * 2 ^ (53 - Z.pos (digits2_pos p))).
      - apply Z.mul_lt_mono_pos_r; [apply Z.pow_pos_nonneg; lia | exact HDhi].
      - rewrite <- Z.pow_add_r by lia. f_equal. lia. }
    pose proof (Zdigits2_le (Z.pos (Pos.iter xO p d)) 53 ltac:(lia) ltac:(lia) ltac:(lia)) as Hd.
    assert (Hb : exp_bound (Z.pos (Pos.iter xO p d)) (Z.pos (digits2_pos p) - 53) <= 2)
      by (unfold exp_bound, emin, prec, emax; lia).
    destruct (binary_round_aux_shape false (Z.pos (Pos.iter xO p d))
                (Z.pos (digits2_pos p) - 53) loc_Exact ltac:(lia)
                ltac:(unfold emax, prec; lia))
      as [-> | (m' & e' & -> & Hm' & He')]; [exact I | simpl; lia].
Qed.

(** *** Division of integers *)

Lemma new_location_round n r :
  0 < n -> 0 <= r < n ->
  (r = 0 /\ new_location n r = loc_Exact)
  \/ (0 < r /\ exists c, new_location n r = loc_Inexact c
                        /\ (c = Gt -> n < 2 * r) /\ (c = Eq -> 2 * r = n)).
Proof.
  intros Hn Hr. unfold new_location.
  destruct (Z.even n) eqn:Heven; unfold new_location_even, new_location_odd;
    destruct (Z.eqb_spec r 0) as [->|Hnz]; try (left; split; reflexivity);
    right; (split; [lia|]).
  - eexists. split; [reflexivity|]. split; intros Hc.
    + apply Z.compare_gt_iff in Hc. lia.
    + apply Z.compare_eq_iff in Hc. lia.
  - assert (Hodd : Z.odd n = true) by (rewrite <- Z.negb_even, Heven; reflexivity).
    apply Z.odd_spec in Hodd as [k ->].
    destruct (Z.compare_spec (2 * r + 1) (2 * k + 1)) as [Heq|Hlt|Hgt];
      (eexists; split; [reflexivity|]); split; intros Hc; try discriminate Hc. lia.
Qed.

(** The integer part survives rounding to nearest: [m1] is the quotient
    scaled by [P], [m2] is [m1] or, when the remainder is at least half the
    divisor, its successor. *)
Lemma quotient_after_rounding d n P m2 :
  0 <= d -> 0 < n -> 0 < P -> n < 2 * P ->
  m2 = d * P / n \/ (m2 = d * P / n + 1 /\ n <= 2 * (d * P - d * P / n * n)) ->
  m2 / P = d / n.
Proof.
  intros Hd Hn HP HnP Hm2.
  assert (Hm1 : d * P / n / P = d / n)
    by (rewrite Z.div_div, Z.div_mul_cancel_r by lia; reflexivity).
  destruct Hm2 as [-> | [-> Hup]]; [exact Hm1|].
  set (m1 := d * P / n) in *. set (Q := d / n) in *.
  pose proof (Z.mul_div_le d n Hn) as HQlo. fold Q in HQlo.
  pose proof (Z.mul_succ_div_gt d n Hn) as HQhi. fold Q in HQhi.
  pose proof (Z.mul_div_le (d * P) n Hn) as Hlo. fold m1 in Hlo.
  pose proof (Z.mul_succ_div_gt (d * P) n Hn) as Hhi. fold m1 in Hhi.
  pose proof (Z.mul_div_le m1 P HP) as Hplo. rewrite Hm1 in Hplo.
  pose proof (Z.mul_succ_div_gt m1 P HP) as Hphi. rewrite Hm1 in Hphi.
  symmetry. apply (Z.div_unique_pos _ _ _ (m1 + 1 - P * Q)); [|lia].
  split; [lia|].
  destruct (Z.eq_dec (m1 + 1) (P * Z.succ Q)) as [Heq|Hne]; [|lia].
  exfalso.
  assert (Hr : d * P - m1 * n = n - P * (n * Z.succ Q - d)) by nia.
  assert (1 <= n * Z.succ Q - d) by lia. nia.
Qed.

Lemma trunc_scaled m2 m3 k2 e1 :
  0 <= k2 -> e1 <= 0 -> m2 = m3 * 2 ^ k2 ->
  (if 0 <=? e1 + k2 then m3 * 2 ^ (e1 + k2) else m3 / 2 ^ (- (e1 + k2)))
  = m2 / 2 ^ (- e1).
Proof.
  intros Hk He ->. destruct (Z.leb_spec 0 (e1 + k2)) as [Hge|Hlt].
  - replace k2 with ((e1 + k2) + (- e1)) at 2 by lia.
    rewrite (Z.pow_add_r 2 (e1 + k2) (- e1)), Z.mul_assoc by lia.
    rewrite Z.div_mul by (apply Z.pow_nonzero; lia). reflexivity.
  - replace (- e1) with (k2 + (- (e1 + k2))) by lia.
    rewrite (Z.pow_add_r 2 k2 (- (e1 + k2))), <- Z.div_div
      by (try apply Z.pow_pos_nonneg; lia).
    rewrite Z.div_mul by (apply Z.pow_nonzero; lia). reflexivity.
Qed.

Lemma loc_of_shr_record_of_loc m l : loc_of_shr_record (shr_record_of_loc m l) = l.
Proof. destruct l as [|[]]; reflexivity. Qed.

(** The second normalisation of [binary_round_aux] on a mantissa between
    [2 ^ 52] and [2 ^ 53]. *)
Lemma renormalise m2 e1 :
  2 ^ 52 <= m2 <= 2 ^ 53 -> -1000 <= e1 <= 0 ->
  exists m3 k2,
    shr_fexp prec emax m2 e1 loc_Exact
      = (fst (shr_fexp prec emax m2 e1 loc_Exact), e1 + k2)
    /\ shr_m (fst (shr_fexp prec emax m2 e1 loc_Exact)) = Z.pos m3
    /\ 0 <= k2 <= 1 /\ m2 = Z.pos m3 * 2 ^ k2.
Proof.
  intros Hm2 He1.
  pose proof (shr_fexp_spec m2 e1 loc_Exact ltac:(lia)) as [Hm He]. cbv zeta in Hm, He.
  destruct (Z.eq_dec m2 (2 ^ 53)) as [->|Hne].
  - assert (Hd : Zdigits2 (2 ^ 53) = 54) by reflexivity. rewrite Hd in Hm, He.
    assert (Hk : Z.max (fexp prec emax (54 + e1) - e1) 0 = 1)
      by (unfold fexp, emin, prec, emax; lia).
    rewrite Hk in Hm, He. exists (Z.to_pos (2 ^ 52)), 1.
    split; [rewrite <- He; apply surjective_pairing|].
    split; [rewrite Hm; reflexivity|]. split; [lia | reflexivity].
  - assert (Hd : Zdigits2 m2 = 53) by (apply Zdigits2_unique; [change (53 - 1) with 52|]; lia).
    rewrite Hd in Hm, He.
    assert (Hk : Z.max (fexp prec emax (53 + e1) - e1) 0 = 0)
      by (unfold fexp, emin, prec, emax; lia).
    rewrite Hk in Hm, He. rewrite Z.div_1_r in Hm.
    exists (Z.to_pos m2), 0.
    split; [rewrite <- He; apply surjective_pairing|].
    split; [rewrite Hm, Z2Pos.id by lia; reflexivity|].
    split; [lia|]. rewrite Z2Pos.id by lia. lia.
Qed.

Lemma digits_below_53 m : 0 < m < 2 ^ 53 -> 1 <= Zdigits2 m <= 53.
Proof.
  intros Hm. pose proof (Zdigits2_bounds m ltac:(lia)) as [Hlo _].
  pose proof (Zdigits2_pos m ltac:(lia)). split; [lia|].
  destruct (Z_le_gt_dec (Zdigits2 m) 53) as [|Hgt]; [assumption|].
  assert (2 ^ 53 <= 2 ^ (Zdigits2 m - 1)) by (apply Z.pow_le_mono_r; lia). lia.
Qed.

(** Rounding after a shift by one place goes up only from an odd mantissa. *)
Lemma round_after_shr_1 q l :
  0 < q ->
  let mrs := shr_1 (shr_record_of_loc q l) in
  let m2 := round_nearest_even (shr_m mrs) (loc_of_shr_record mrs) in
  shr_m mrs = q / 2 /\ (m2 = q / 2 \/ (m2 = q / 2 + 1 /\ q = 2 * (q / 2) + 1)).
Proof.
  intros Hq. cbv zeta.
  pose proof (shr_1_m (shr_record_of_loc q l)) as Hm. rewrite shr_record_of_loc_m in Hm.
  specialize (Hm ltac:(lia)). split; [exact Hm|]. rewrite Hm.
  destruct q as [|[p|p|]|p]; try lia.
  - assert (Hodd : Z.pos p~1 = 2 * (Z.pos p~1 / 2) + 1).
    { assert (Z.pos p~1 / 2 = Z.pos p) as -> by (symmetry; apply (Z.div_unique _ 2 _ 1); lia).
      lia. }
    pose proof (round_nearest_even_bounds (Z.pos p~1 / 2)
                  (loc_of_shr_record (shr_1 (shr_record_of_loc (Z.pos p~1) l)))) as Hb.
    destruct (Z.eq_dec (round_nearest_even (Z.pos p~1 / 2)
                (loc_of_shr_record (shr_1 (shr_record_of_loc (Z.pos p~1) l))))
                (Z.pos p~1 / 2)) as [Heq|Hne]; [left; exact Heq | right; split; lia].
  - left. destruct l as [|[]]; reflexivity.
  - assert (Hodd : 1 = 2 * (1 / 2) + 1) by reflexivity.
    pose proof (round_nearest_even_bounds (1 / 2)
                  (loc_of_shr_record (shr_1 (shr_record_of_loc 1 l)))) as Hb.
    destruct (Z.eq_dec (round_nearest_even (1 / 2)
                (loc_of_shr_record (shr_1 (shr_record_of_loc 1 l)))) (1 / 2))
      as [Heq|Hne]; [left; exact Heq | right; split; [lia | exact Hodd]].
Qed.

(** Rounding without a shift goes up only when the remainder is at least
    half the divisor. *)
Lemma round_location q n r :
  0 < n -> 0 <= r < n ->
  let m2 := round_nearest_even q (new_location n r) in
  m2 = q \/ (m2 = q + 1 /\ n <= 2 * r).
Proof.
  intros Hn Hr. cbv zeta.
  destruct (new_location_round n r Hn Hr) as [[_ ->] | (_ & c & -> & Hgt & Heq)];
    [left; reflexivity|].
  destruct c; simpl.
  - destruct (Z.even q); [left; reflexivity | right; split; [reflexivity|]].
    specialize (Heq eq_refl). lia.
  - left; reflexivity.
  - right. split; [reflexivity|]. specialize (Hgt eq_refl). lia.
Qed.

(** The float that [binary_round_aux] makes of a quotient [q] with 53 or 54
    digits: the mantissa [m2] after rounding, with the exponent it has, and
    the condition under which it was rounded up. *)
Lemma round_quotient N n q r e :
  0 < n -> N = q * n + r -> 0 <= r < n ->
  2 ^ 52 <= q < 2 ^ 54 -> -1000 <= e <= -1 ->
  exists m2 k m3 k2,
    binary_round_aux prec emax false q e (new_location n r)
      = S754_finite false m3 (e + k + k2)
    /\ 0 <= k <= 1 /\ 0 <= k2 <= 1 /\ m2 = Z.pos m3 * 2 ^ k2 /\ m2 <= 2 ^ 53
    /\ (m2 = q / 2 ^ k
        \/ (m2 = q / 2 ^ k + 1 /\ n * 2 ^ k <= 2 * (N - q / 2 ^ k * (n * 2 ^ k)))).
Proof.
  intros Hn HN Hr Hq He. unfold binary_round_aux.
  destruct (Z_lt_le_dec q (2 ^ 53)) as [Hlt|Hge].
  - (* 53 digits: no shift *)
    assert (Hdig : Zdigits2 q = 53) by (apply Zdigits2_unique; [change (53 - 1) with 52|]; lia).
    unfold shr_fexp at 1. rewrite Hdig.
    replace (fexp prec emax (53 + e) - e) with 0 by (unfold fexp, emin, prec, emax; lia).
    unfold shr at 1. cbv iota beta.
    rewrite shr_record_of_loc_m, loc_of_shr_record_of_loc.
    set (m2 := round_nearest_even q (new_location n r)).
    pose proof (round_location q n r Hn Hr) as Hm2. cbv zeta in Hm2. fold m2 in Hm2.
    destruct (renormalise m2 e ltac:(lia) ltac:(lia)) as (m3 & k2 & Hshr & Hm3 & Hk2 & Hval).
    rewrite Hshr, Hm3.
    rewrite (proj2 (Z.leb_le (e + k2) (emax - prec))) by (unfold emax, prec; lia).
    exists m2, 0, m3, k2. rewrite Z.add_0_r, Z.pow_0_r, Z.div_1_r, Z.mul_1_r.
    split; [reflexivity|]. split; [lia|]. split; [lia|]. split; [exact Hval|].
    split; [lia|]. destruct Hm2 as [?|[? ?]]; [left; assumption | right; split; [assumption|lia]].
  - (* 54 digits: a shift by one place *)
    assert (Hdig : Zdigits2 q = 54) by (apply Zdigits2_unique; [change (54 - 1) with 53|]; lia).
    unfold shr_fexp at 1. rewrite Hdig.
    replace (fexp prec emax (54 + e) - e) with 1 by (unfold fexp, emin, prec, emax; lia).
    unfold shr at 1. cbv iota beta. simpl SpecFloat.iter_pos.
    pose proof (round_after_shr_1 q (new_location n r) ltac:(lia)) as [Hm1 Hm2].
    cbv zeta in Hm1, Hm2.
    set (mrs := shr_1 (shr_record_of_loc q (new_location n r))) in *.
    set (m2 := round_nearest_even (shr_m mrs) (loc_of_shr_record mrs)) in *.
    assert (Hhalf : 2 ^ 52 <= q / 2 < 2 ^ 53).
    { split; [apply Z.div_le_lower_bound; lia | apply Z.div_lt_upper_bound; lia]. }
    destruct (renormalise m2 (e + 1) ltac:(lia) ltac:(lia)) as (m3 & k2 & Hshr & Hm3 & Hk2 & Hval).
    rewrite Hshr, Hm3.
    rewrite (proj2 (Z.leb_le (e + 1 + k2) (emax - prec))) by (unfold emax, prec; lia).
    exists m2, 1, m3, k2. rewrite Z.pow_1_r.
    split; [reflexivity|]. split; [lia|]. split; [lia|]. split; [exact Hval|].
    split; [lia|]. destruct Hm2 as [?|[? Hodd]]; [left; assumption | right; split; [assumption|]].
    nia.
Qed.


(** The quotient of two positive integers below [2 ^ 53], rounded to
    binary64, is a finite float whose integer part is the integer quotient. *)
Lemma div_Z_spec d n :
  0 < d < 2 ^ 53 -> 0 < n < 2 ^ 53 ->
  exists m e,
    div_Z d n = S754_finite false m e
    /\ trunc (S754_finite false m e) = Some (d / n)
    /\ small_float (S754_finite false m e).
Proof.
  intros Hd Hn.
  destruct d as [|pd|pd]; try lia. destruct n as [|pn|pn]; try lia.
  unfold div_Z, div, SFdiv.
  change (Z.pos pd <? 0) with false. change (Z.pos pn <? 0) with false.
  change (Z.to_pos (Z.abs (Z.pos pd))) with pd. change (Z.to_pos (Z.abs (Z.pos pn))) with pn.
  change (xorb false false) with false.
  unfold SFdiv_core_binary.
  set (d := Z.pos pd) in *. set (n := Z.pos pn) in *.
  pose proof (digits_below_53 d Hd) as Hd1. pose proof (digits_below_53 n Hn) as Hd2.
  pose proof (Zdigits2_bounds d ltac:(lia)) as Hdb.
  pose proof (Zdigits2_bounds n ltac:(lia)) as Hnb.
  set (d1 := Zdigits2 d) in *. set (d2 := Zdigits2 n) in *.
  assert (He' : Z.min (fexp prec emax (d1 + 0 - (d2 + 0))) (0 - 0) = d1 - d2 - 53)
    by (unfold fexp, emin, prec, emax; lia).
  rewrite He'.
  set (s := 53 + d2 - d1).
  replace (0 - 0 - (d1 - d2 - 53)) with s by (unfold s; lia).
  replace (d1 - d2 - 53) with (- s) by (unfold s; lia).
  assert (Hs : d2 <= s <= 105) by (unfold s; lia).
  assert (Hshl : match s with
                 | 0 => d
                 | Z.pos _ => Z.shiftl d s
                 | Z.neg _ => 0
                 end = d * 2 ^ s).
  { destruct s; try lia. apply Z.shiftl_mul_pow2. lia. }
  rewrite Hshl. clear Hshl.
  destruct (Z.div_eucl (d * 2 ^ s) n) as [q r] eqn:Hdiv.
  assert (Hq : q = d * 2 ^ s / n) by (unfold Z.div; rewrite Hdiv; reflexivity).
  assert (Hr : r = (d * 2 ^ s) mod n) by (unfold Z.modulo; rewrite Hdiv; reflexivity).
  assert (HN : d * 2 ^ s = q * n + r)
    by (rewrite Hq, Hr, (Z.mul_comm _ n); apply Z.div_mod; lia).
  assert (Hrb : 0 <= r < n) by (rewrite Hr; apply Z.mod_pos_bound; lia).
  assert (Hlo : 2 ^ 52 * 2 ^ d2 <= d * 2 ^ s).
  { rewrite <- Z.pow_add_r by lia.
    replace (52 + d2) with ((d1 - 1) + s) by (unfold s; lia).
    rewrite Z.pow_add_r by lia. apply Z.mul_le_mono_nonneg_r; lia. }
  assert (Hhi : d * 2 ^ s < 2 ^ 54 * 2 ^ (d2 - 1)).
  { rewrite <- Z.pow_add_r by lia.
    replace (54 + (d2 - 1)) with (d1 + s) by (unfold s; lia).
    rewrite Z.pow_add_r by lia. apply Z.mul_lt_mono_pos_r; [apply Z.pow_pos_nonneg|]; lia. }
  assert (Hqb : 2 ^ 52 <= q < 2 ^ 54).
  { rewrite Hq. split.
    - apply Z.div_le_lower_bound; [lia|]. nia.
    - apply Z.div_lt_upper_bound; [lia|]. nia. }
  destruct (round_quotient (d * 2 ^ s) n q r (- s) ltac:(lia) HN Hrb Hqb ltac:(lia))
    as (m2 & k & m3 & k2 & Hround & Hk & Hk2 & Hval & Hm2le & Hm2).
  exists m3, (- s + k + k2). split; [exact Hround|].
  assert (Hpow : 2 ^ s = 2 ^ (s - k) * 2 ^ k)
    by (rewrite <- Z.pow_add_r by lia; f_equal; lia).
  assert (Hk0 : 0 < 2 ^ k) by (apply Z.pow_pos_nonneg; lia).
  assert (HP : 0 < 2 ^ (s - k)) by (apply Z.pow_pos_nonneg; lia).
  split.
  - unfold trunc. simpl cond_Zopp. f_equal.
    rewrite (trunc_scaled m2 (Z.pos m3) k2 (- s + k)) by lia.
    replace (- (- s + k)) with (s - k) by lia.
    apply quotient_after_rounding; try lia.
    + assert (2 ^ s <= 2 * 2 ^ (s - k)).
      { rewrite <- Z.pow_succ_r by lia. apply Z.pow_le_mono_r; lia. }
      assert (2 ^ d2 <= 2 ^ s) by (apply Z.pow_le_mono_r; lia). lia.
    + assert (Hm1 : q / 2 ^ k = d * 2 ^ (s - k) / n).
      { rewrite Hq, Hpow, Z.mul_assoc, Z.div_div, Z.div_mul_cancel_r by lia. reflexivity. }
      rewrite Hm1 in Hm2. destruct Hm2 as [?|[? Hup]]; [left; assumption|].
      right. split; [assumption|]. rewrite Hpow in Hup. nia.
  - simpl. split; [|lia].
    assert (0 < 2 ^ k2) by (apply Z.pow_pos_nonneg; lia). nia.
Qed.

(** *** Checks of the float model on concrete values *)

(** Dividing unnormalised operands gives the float that dividing the
    converted operands gives. *)
Example div_Z_agrees_with_div :
  Forall (fun ab => div_Z (fst ab) (snd ab) = div (of_Z (fst ab)) (of_Z (snd ab)))
         [(870, 200); (1, 3); (100, 3); (9007199254740991, 7); (5, 4503599627370497)].
Proof. repeat constructor. Qed.

(** The literal [0.95] is the float nearest to 95/100. *)
Example c0_95_nearest : c0_95 = div_Z 95 100.
Proof. reflexivity. Qed.

(** [int(100 * (870 / 200))] is 434, not 435: the product of 100 and the
    float nearest to 4.35 is below 435. *)
Example float_product_truncates_below :
  (f ← Py.truediv_int (JInt 870) 200; g ← Py.int_mul_float 100 f; Py.int_of_float g) = Ok 434.
Proof. reflexivity. Qed.

(** [int((2 ** 53 + 1) / 1)] is [2 ** 53]. *)
Example float_quotient_rounds :
  (f ← Py.truediv_int (JInt 9007199254740993) 1; Py.int_of_float f) = Ok 9007199254740992.
Proof. reflexivity. Qed.

End Float64Facts.

(** ** C4: the segment-split tier *)

Section SplitTier.
Import Float64 Float64Facts.

Lemma div_Z_nonneg d n :
  0 <= d < 2 ^ 53 -> 0 < n < 2 ^ 53 ->
  small_float (div_Z d n) /\ trunc (div_Z d n) = Some (d / n).
Proof.
  intros Hd Hn. destruct (Z.eq_dec d 0) as [->|Hnz].
  - split; [exact I|]. reflexivity.
  - destruct (div_Z_spec d n ltac:(lia) Hn) as (m & e & -> & Htrunc & Hsmall). auto.
Qed.

Lemma int_of_float_finite f :
  is_finite f = true -> Py.int_of_float f = Ok (from_option id 0 (trunc f)).
Proof. destruct f; simpl; try discriminate; reflexivity. Qed.

Lemma word_offset_0 f : small_float f -> word_offset f 0 = 0.
Proof. destruct f; simpl; try tauto; reflexivity. Qed.

Lemma split_word_step_spec a f q caps i word :
  small_float f -> trunc f = Some q -> 0 <= i < 2 ^ 53 ->
  split_word_step (JInt a) f caps (i, word) = Ok (caps ++ [split_caption a f q (i, word)]).
Proof.
  intros Hf Hq Hi. unfold split_word_step, Py.int_mul_float, Py.float_of_int.
  pose proof (of_Z_small i Hi) as Hsmall.
  rewrite (small_float_finite _ Hsmall). simpl.
  rewrite (int_of_float_finite _ (mul_small _ _ Hsmall Hf)). simpl.
  rewrite (int_of_float_finite _ (small_float_finite _ Hf)), Hq. reflexivity.
Qed.

Lemma for_each_split_spec a f q words : forall i caps,
  small_float f -> trunc f = Some q ->
  0 <= i -> i + Z.of_nat (length words) <= 2 ^ 53 ->
  for_each (split_word_step (JInt a) f) (enumerate_from i words) caps
  = Ok (caps ++ map (split_caption a f q) (enumerate_from i words)).
Proof.
  induction words as [|word rest IH]; intros i caps Hf Hq Hi Hlen;
    cbn [enumerate_from for_each map].
  - by rewrite app_nil_r.
  - simpl length in Hlen. rewrite (split_word_step_spec a f q) by (auto; lia).
    unfold mbind, result_bind. rewrite IH by (auto; lia). by rewrite <- app_assoc.
Qed.

Lemma enumerate_from_snd {A} (xs : list A) : forall i, map snd (enumerate_from i xs) = xs.
Proof. induction xs as [|x xs IH]; intros i; simpl; [reflexivity | by rewrite IH]. Qed.

Lemma split_nil_of_empty s : str_falsy s = true -> Py.split s = [].
Proof. destruct s; [reflexivity | discriminate]. Qed.

Lemma total_duration_split a f q iws :
  total_duration (map (split_caption a f q) iws) = Z.of_nat (length iws) * q.
Proof.
  induction iws as [|iw rest IH]; [reflexivity|].
  simpl map. simpl length. unfold total_duration in *. simpl fold_right. rewrite IH.
  unfold duration. simpl. lia.
Qed.

(** C4, as amended: for durations and word counts below [2 ^ 53]. A segment
    without tokens and words, whose trimmed text has [n >= 1] words and whose
    integer offsets give the duration [d >= 0], adds one caption per word;
    the first starts at the segment's start; each lasts [d / n] (integer
    quotient) and has confidence 0.95; the durations add up to a total that
    is at most [d] and short of it by at most [n - 1]. *)
Theorem split_tier_arithmetic caps items s a b :
  Py.assoc "tokens" items = None ->
  Py.assoc "words" items = None ->
  Py.assoc "text" items = Some (JStr s) ->
  segment_offsets (JObj items) = Some (a, b) ->
  let words := Py.split (Py.strip s) in
  let n := Z.of_nat (length words) in
  let d := b - a in
  1 <= n < 2 ^ 53 -> 0 <= d < 2 ^ 53 ->
  exists new,
    segment_step caps (JObj items) = Ok (caps ++ new)
    /\ map text new = map JStr words
    /\ (exists c rest, new = c :: rest /\ startMs c = JInt a)
    /\ Forall (fun c => exists t, startMs c = JInt t /\ endMs c = JInt (t + d / n)
                                  /\ confidence c = JFloat c0_95) new
    /\ total_duration new = n * (d / n)
    /\ 0 <= d - total_duration new <= n - 1.
Proof.
  intros Htok Hwords Htext Hoffs words n d Hn Hd.
  destruct (div_Z_nonneg d n Hd ltac:(lia)) as [Hsmall Htrunc].
  set (f := div_Z d n) in *.
  exists (map (split_caption a f (d / n)) (enumerate_from 0 words)).
  assert (Hlen : length (enumerate_from 0 words) = length words)
    by (rewrite <- (enumerate_from_snd words 0) at 2; by rewrite length_map).
  split; [|split; [|split; [|split; [|split]]]].
  - unfold segment_step. simpl. rewrite Htok, Hwords, Htext.
    rewrite !bool_decide_eq_false_2 by (intros [x Hx]; discriminate Hx).
    rewrite bool_decide_eq_true_2 by eauto. simpl.
    unfold split_segment. simpl. rewrite Htext. simpl.
    destruct (str_falsy (Py.strip s)) eqn:Hblank.
    { exfalso. subst n words. rewrite (split_nil_of_empty _ Hblank) in Hn. simpl in Hn. lia. }
    unfold segment_offsets, field in Hoffs.
    destruct (from_option id (JObj []) (Py.assoc "offsets" items))
      as [| | | | | |offs]; try discriminate. simpl.
    destruct (from_option id (JInt 0) (Py.assoc "from" offs))
      as [| |a'| | | |]; try discriminate.
    destruct (from_option id (JInt 0) (Py.assoc "to" offs))
      as [| |b'| | | |]; try discriminate.
    injection Hoffs as -> ->. simpl. fold words. fold n.
    rewrite Z.max_l by lia. fold d. unfold Py.truediv_int. simpl. fold f.
    rewrite (small_float_finite _ Hsmall). simpl.
    apply for_each_split_spec; auto; lia.
  - rewrite map_map. simpl. rewrite <- (enumerate_from_snd words 0) at 2.
    by rewrite map_map.
  - destruct words as [|word rest]; [simpl in n; lia|]. simpl.
    eexists. eexists. split; [reflexivity|]. simpl.
    rewrite (word_offset_0 _ Hsmall). f_equal. lia.
  - apply Forall_map. apply Forall_forall. intros iw _. eexists. simpl. eauto.
  - rewrite total_duration_split, Hlen. reflexivity.
  - rewrite total_duration_split, Hlen. fold n.
    pose proof (Z.div_mod d n ltac:(lia)) as Hdm.
    pose proof (Z.mod_pos_bound d n ltac:(lia)). lia.
Qed.

End SplitTier.

Lemma split_tier_arithmetic_witness :
  exists new,
    segment_step [] (JObj [("text", JStr " one two  three ");
                           ("offsets", JObj [("from", JInt 100); ("to", JInt 200)])])
      = Ok new
    /\ map startMs new = [JInt 100; JInt 133; JInt 166]
    /\ map endMs new = [JInt 133; JInt 166; JInt 199]
    /\ 0 <= 100 - total_duration new <= 2.
Proof.
  destruct (split_tier_arithmetic []
              [("text", JStr " one two  three ");
               ("offsets", JObj [("from", JInt 100); ("to", JInt 200)])]
              " one two  three " 100 200 eq_refl eq_refl eq_refl eq_refl)
    as (new & Hrun & _ & _ & _ & _ & Hsum).
  - split; [simpl; lia | reflexivity].
  - split; [lia | reflexivity].
  - exists new. split; [exact Hrun|].
    assert (Hnew : Ok new = segment_step [] (JObj [("text", JStr " one two  three ");
                     ("offsets", JObj [("from", JInt 100); ("to", JInt 200)])]))
      by (symmetry; exact Hrun).
    vm_compute in Hnew. injection Hnew as ->.
    split; [reflexivity|]. split; [reflexivity|]. vm_compute. split; discriminate.
Defined.

(** C4 as stated fails for a duration beyond [2 ^ 53]: the duration per word
    is computed in floating point, so for one word and a duration of
    [2 ^ 53 + 1] milliseconds the caption lasts [2 ^ 53] milliseconds, which is
    not the quotient, and the total is off by 1 where the claim allows 0. *)
Lemma split_tier_large_duration :
  let segment := JObj [("text", JStr "x");
                       ("offsets", JObj [("from", JInt 0); ("to", JInt 9007199254740993)])] in
  exists c,
    segment_step [] segment = Ok [c]
    /\ startMs c = JInt 0 /\ endMs c = JInt 9007199254740992
    /\ duration c <> (9007199254740993 - 0) / 1
    /\ ~ (9007199254740993 - 0 - total_duration [c] <= 1 - 1).
Proof.
  cbv zeta. eexists. split; [vm_compute; reflexivity|].
  split; [reflexivity|]. split; [reflexivity|]. split; vm_compute; [discriminate|].
  intros Hle. apply Hle. reflexivity.
Qed.

(** * Further properties *)

(** ** The errors of the extraction ladder *)

Lemma bind_Raise {A B} (m : result A) (f : A -> result B) (e : exn) :
  m ≫= f = Raise e -> m = Raise e \/ exists a, m = Ok a /\ f a = Raise e.
Proof. destruct m as [a|e0]; [eauto | intros [= ->]; auto]. Qed.

(** Break a hypothesis [... = Raise _] along the binds and tests it went
    through, down to the operation that raised. *)
Ltac raise_inv :=
  repeat match goal with
  | H : mbind _ _ = Raise _ |- _ =>
      let a := fresh "v" in let E := fresh "E" in
      apply bind_Raise in H; destruct H as [H | (a & E & H)]
  | H : Ok _ = Raise _ |- _ => discriminate H
  | H : (if ?b then _ else _) = Raise _ |- _ =>
      let E := fresh "E" in destruct b eqn:E
  end.

Lemma for_each_Raise {A B} (body : B -> A -> result B) xs e : forall acc,
  for_each body xs acc = Raise e -> exists b a, body b a = Raise e.
Proof.
  induction xs as [|x xs IH]; intros acc Hrun; simpl in Hrun; [discriminate|].
  apply bind_Raise in Hrun as [Hx | (acc' & _ & Hrest)]; eauto.
Qed.

Ltac py_raise H :=
  match type of H with
  | Py.contains _ ?v = Raise _ => destruct v; simpl in H; try discriminate H
  | Py.getitem _ ?v = Raise _ =>
      destruct v; simpl in H; try discriminate H;
      try (match type of H with
           | match ?o with _ => _ end = _ => destruct o; try discriminate H
           end)
  | Py.iter ?v = Raise _ => destruct v; simpl in H; try discriminate H
  | Py.get _ _ ?v = Raise _ => destruct v; simpl in H; try discriminate H
  | Py.as_str ?v = Raise _ => destruct v; simpl in H; try discriminate H
  end; injection H as <-; reflexivity.

Lemma float_of_int_raises z e : Py.float_of_int z = Raise e -> interpreter_error e = true.
Proof. unfold Py.float_of_int. destruct (Float64.is_finite _); intros [= <-]. reflexivity. Qed.

Lemma int_of_float_raises f e : Py.int_of_float f = Raise e -> interpreter_error e = true.
Proof. destruct f; simpl; intros [= <-]; reflexivity. Qed.

Lemma add_int_raises a k e : Py.add_int a k = Raise e -> interpreter_error e = true.
Proof.
  unfold Py.add_int. destruct (Py.as_num a) as [[x|f]|]; intros Hrun.
  - discriminate.
  - raise_inv. by apply float_of_int_raises in Hrun.
  - by injection Hrun as <-.
Qed.

Lemma sub_raises a b e : Py.sub a b = Raise e -> interpreter_error e = true.
Proof.
  unfold Py.sub, Py.to_float.
  destruct (Py.as_num a) as [[x|f]|], (Py.as_num b) as [[y|g]|]; intros Hrun;
    try discriminate; try (by injection Hrun as <-);
    raise_inv; try discriminate; by apply float_of_int_raises in Hrun.
Qed.

Lemma truediv_int_raises a n e : Py.truediv_int a n = Raise e -> interpreter_error e = true.
Proof.
  unfold Py.truediv_int. destruct (Py.as_num a) as [[x|f]|]; intros Hrun.
  - destruct (Float64.is_finite _); [discriminate | by injection Hrun as <-].
  - raise_inv. by apply float_of_int_raises in Hrun.
  - by injection Hrun as <-.
Qed.

Lemma mul_1000_raises v e : Py.mul_1000 v = Raise e -> interpreter_error e = true.
Proof. destruct v; simpl; intros [= <-]; reflexivity. Qed.

Lemma int_raises v e : Py.int v = Raise e -> interpreter_error e = true.
Proof.
  destruct v; simpl; try (intros [= <-]; reflexivity).
  - apply int_of_float_raises.
  - destruct (Py.int_of_str s); simpl; intros [= <-]. reflexivity.
Qed.

Lemma token_step_raises caps t e : token_step caps t = Raise e -> interpreter_error e = true.
Proof.
  unfold token_step. intros Hrun. raise_inv; try (py_raise Hrun).
Qed.

Lemma seconds_to_ms_raises k1 k2 t e :
  seconds_to_ms k1 k2 t = Raise e -> interpreter_error e = true.
Proof.
  unfold seconds_to_ms. intros Hrun. raise_inv; try (py_raise Hrun).
  - by apply mul_1000_raises in Hrun.
  - by apply int_raises in Hrun.
Qed.

Lemma word_step_raises caps t e : word_step caps t = Raise e -> interpreter_error e = true.
Proof.
  unfold word_step. intros Hrun.
  raise_inv; try (py_raise Hrun); by apply seconds_to_ms_raises in Hrun.
Qed.

Lemma split_word_step_raises start_ms dpw caps iw e :
  split_word_step start_ms dpw caps iw = Raise e -> interpreter_error e = true.
Proof.
  destruct iw as [i word]. unfold split_word_step, Py.int_mul_float. intros Hrun.
  raise_inv; try discriminate;
    first [ by apply float_of_int_raises in Hrun | by apply int_of_float_raises in Hrun
          | by apply add_int_raises in Hrun ].
Qed.

Lemma split_segment_raises caps seg e :
  split_segment caps seg = Raise e -> interpreter_error e = true.
Proof.
  unfold split_segment. intros Hrun. raise_inv; try (py_raise Hrun).
  - by apply sub_raises in Hrun.
  - by apply truediv_int_raises in Hrun.
  - apply for_each_Raise in Hrun as (b & a & Hstep). by apply split_word_step_raises in Hstep.
Qed.

Lemma segment_step_raises caps seg e :
  segment_step caps seg = Raise e -> interpreter_error e = true.
Proof.
  unfold segment_step. intros Hrun. raise_inv; try (py_raise Hrun).
  - apply for_each_Raise in Hrun as (b & a & Hstep). by apply token_step_raises in Hstep.
  - apply for_each_Raise in Hrun as (b & a & Hstep). by apply word_step_raises in Hstep.
  - by apply split_segment_raises in Hrun.
Qed.

Lemma extract_captions_raises j e :
  extract_captions j = Raise e -> interpreter_error e = true.
Proof.
  unfold extract_captions. intros Hrun. raise_inv; try (py_raise Hrun).
  apply for_each_Raise in Hrun as (b & a & Hstep). by apply segment_step_raises in Hstep.
Qed.

Lemma extract_never_json_error j : extract_captions j = Raise JSONDecodeError -> False.
Proof. intros Hrun. apply extract_captions_raises in Hrun. discriminate Hrun. Qed.

(** ** The constructor, the conversion and the parser *)

Section PipelineFacts.
Context `{Platform}.

(** X1. The constructor reports a missing model before it looks for the
    executable: it raises the model error exactly when the model file is
    missing, the executable error exactly when the model is there and no
    candidate exists, and otherwise returns the engine with the first
    existing candidate. *)
Theorem construction_outcome sys name w :
  let base_dir := base_dir_of sys in
  let dir := path_join base_dir "models" in
  let model := path_join dir ("ggml-" +:+ name +:+ ".bin") in
  match __init__ sys name w with
  | Raise e =>
      (path_exists model w = false /\ e = ModelNotFound name model base_dir)
      \/ (path_exists model w = true
          /\ Forall (fun p => path_exists p w = false) (exe_candidates sys dir)
          /\ e = WhisperExeNotFound)
  | Ok self =>
      path_exists model w = true
      /\ exists exe, List.find (fun p => path_exists p w) (exe_candidates sys dir) = Some exe
                     /\ self = mkEngine name dir model exe
  end.
Proof.
  intros base_dir dir model. unfold __init__. fold base_dir dir model.
  destruct (path_exists model w) eqn:Hmodel; cbn [negb]; [|left; split; reflexivity].
  rewrite find_whisper_executable_first.
  destruct (List.find _ _) as [exe|] eqn:Hfind.
  - split; [reflexivity|]. exists exe. split; reflexivity.
  - right. split; [reflexivity|]. split; [|reflexivity].
    apply List.Forall_forall. intros p Hin. exact (find_none _ _ Hfind p Hin).
Qed.

(** X2. In a bundle that sets [_MEIPASS] the bundled location is the models
    directory itself, so the third search location is the first one again:
    the search finds what the two locations under the models directory
    give. *)
Theorem bundled_location_redundant sys w meipass :
  sys_frozen sys = true -> sys_MEIPASS sys = Some meipass ->
  let dir := path_join (base_dir_of sys) "models" in
  _find_whisper_executable sys dir w
  = List.find (fun p => path_exists p w)
      [path_join dir "main.exe"; path_join (path_join dir "whisper.cpp") "main.exe"].
Proof.
  intros Hfrozen Hmei dir. subst dir. unfold base_dir_of, _find_whisper_executable.
  rewrite Hfrozen, Hmei. simpl.
  destruct (path_exists (path_join (path_join meipass "models") "main.exe") w) eqn:Ha;
    [reflexivity|].
  destruct (path_exists (path_join (path_join (path_join meipass "models") "whisper.cpp")
                           "main.exe") w); reflexivity.
Qed.


Lemma cleanup_wav_other wav_path p w :
  p <> wav_path -> files (cleanup_wav wav_path w) !! p = files w !! p.
Proof.
  intros Hne. unfold cleanup_wav, try_remove, os_remove.
  destruct (path_exists wav_path w); simpl; [|reflexivity].
  destruct (remove_fails wav_path w); simpl; [reflexivity|].
  by rewrite lookup_delete_ne.
Qed.

(** X4. When the engine exits with a non-zero status, [transcribe_audio]
    raises the engine error with the decoded diagnostic stream; the output
    is not parsed: every file other than the WAV is as the engine left it.
    The WAV is gone where its removal does not fail; where it fails the
    world is as the engine left it. *)
Theorem engine_failure_skips_parse self audio_path language w wav_path w1 rc stderr w2 :
  _convert_audio_to_wav audio_path w = (Ok wav_path, w1) ->
  subprocess_run (whisper_cmd self wav_path language) (Some (models_dir self)) w1
    = (Exited rc stderr, w2) ->
  rc <> 0 ->
  let r := transcribe_audio self audio_path language w in
  fst r = Raise (WhisperFailed (engine_stderr_text stderr))
  /\ (forall p, p <> wav_path -> files (snd r) !! p = files w2 !! p)
  /\ (remove_fails wav_path w2 = false -> files (snd r) !! wav_path = None)
  /\ (remove_fails wav_path w2 = true -> snd r = w2).
Proof.
  intros Hconv Hrun Hrc r. subst r. unfold transcribe_audio, transcribe_body.
  rewrite Hconv, Hrun. rewrite (proj2 (Z.eqb_neq rc 0) Hrc). simpl.
  split; [reflexivity|]. split; [|split].
  - intros p Hp. by apply cleanup_wav_other.
  - intros Hrm. pose proof (cleanup_wav_gone wav_path w2 Hrm) as Hgone.
    unfold path_exists in Hgone. apply bool_decide_eq_false in Hgone.
    destruct (files (cleanup_wav wav_path w2) !! wav_path) eqn:Hlook; [|reflexivity].
    exfalso. apply Hgone. eauto.
  - apply cleanup_wav_refused.
Qed.

Lemma path_exists_cleanup wav_path p w :
  path_exists p w = false -> path_exists p (cleanup_wav wav_path w) = false.
Proof.
  unfold path_exists. intros Hp. apply bool_decide_eq_false in Hp.
  apply bool_decide_eq_false. intros Hsome. apply Hp.
  unfold cleanup_wav, try_remove, os_remove in Hsome.
  destruct (path_exists wav_path w); simpl in Hsome; [|exact Hsome].
  destruct (remove_fails wav_path w); simpl in Hsome; [exact Hsome|].
  destruct (decide (wav_path = p)) as [->|Hne].
  - rewrite lookup_delete_eq in Hsome. by destruct Hsome.
  - by rewrite lookup_delete_ne in Hsome.
Qed.

(** X5. A transcription that returns has at least one caption, and of its
    two temporary files it leaves behind only what could not be removed:
    the engine's raw output is gone unless its removal failed in the world
    the engine left, and the temporary WAV is gone unless its removal
    failed in the world the parser left. *)
Theorem transcription_success_is_clean self audio_path language w caps w' :
  transcribe_audio self audio_path language w = (Ok caps, w') ->
  let wav_path := wav_path_of audio_path in
  let w1 := snd (_convert_audio_to_wav audio_path w) in
  let w2 := snd (subprocess_run (whisper_cmd self wav_path language)
                   (Some (models_dir self)) w1) in
  let w3 := snd (_parse_whisper_output wav_path w2) in
  caps <> []
  /\ (remove_fails (json_path_of wav_path) w2 = false ->
      path_exists (json_path_of wav_path) w' = false)
  /\ (remove_fails wav_path w3 = false -> path_exists wav_path w' = false).
Proof.
  unfold transcribe_audio. intros Hrun.
  destruct (_convert_audio_to_wav audio_path w) as [[wav|e] w1] eqn:Hconv; [|discriminate].
  assert (Hwav : wav = wav_path_of audio_path).
  { unfold _convert_audio_to_wav in Hconv. fold (wav_path_of audio_path) in Hconv.
    destruct (subprocess_run _ None w) as [[rc err|] w0]; [|discriminate].
    destruct (rc =? 0); [by injection Hconv as <- _|].
    destruct (decode_utf8 err); discriminate. }
  subst wav. unfold transcribe_body in Hrun. simpl.
  destruct (subprocess_run _ _ w1) as [[rc err|] w2]; [|discriminate].
  destruct (rc =? 0); simpl in Hrun; [|discriminate]. simpl.
  destruct (_parse_whisper_output (wav_path_of audio_path) w2) as [r w3] eqn:Hparse.
  injection Hrun as -> <-. simpl.
  pose proof (parse_success_removes_raw _ _ _ _ Hparse) as Hraw.
  apply parse_Ok_extracted in Hparse as (_ & _ & _ & _ & _ & Hne & _).
  split; [exact Hne|]. split.
  - intros Hrm. apply path_exists_cleanup. by apply Hraw.
  - apply cleanup_wav_gone.
Qed.

(** X6. The errors of the parser. A missing raw output is reported as such,
    with nothing changed. An error of [json.loads] is wrapped, with nothing
    changed: a JSON syntax error as a failure to parse, any other as an
    error of the processing. Every other failure is an error of the
    processing that wraps an error of the interpreter raised on a
    transcript of the wrong shape, the report that no caption was
    extracted, or the error of saving the debug copy when no caption was
    extracted. *)
Theorem parse_error_kinds wav_path w e w' :
  _parse_whisper_output wav_path w = (Raise e, w') ->
  (files w !! json_path_of wav_path = None
   /\ e = OutputJsonNotFound (json_path_of wav_path) /\ w' = w)
  \/ (exists raw, files w !! json_path_of wav_path = Some raw
      /\ ((json_loads (decode_output raw) = None /\ w' = w
           /\ match json_loads_error (decode_output raw) with
              | NotJson => e = JsonParseFailed JSONDecodeError
              | err => e = ProcessingFailed (exn_of_loads_error err)
              end)
          \/ (exists j e', json_loads (decode_output raw) = Some j
                           /\ e = ProcessingFailed e'
                           /\ (interpreter_error e' = true
                               \/ (exists debug_json_path ks,
                                     extract_captions j = Ok []
                                     /\ e' = NoCaptionsExtracted debug_json_path ks)
                               \/ (exists err,
                                     extract_captions j = Ok []
                                     /\ e' = exn_of_save_error err))))).
Proof.
  unfold _parse_whisper_output, parse_body, json_path_of.
  destruct (files w !! _) as [raw|] eqn:Hraw; [|intros [= <- <-]; left; auto].
  intros Hrun. right. exists raw. split; [reflexivity|].
  destruct (json_loads _) as [j|].
  2:{ left. split; [reflexivity|].
      destruct (json_loads_error _); injection Hrun as <- <-; auto. }
  right. exists j.
  destruct (extract_captions j) as [[|c cs]|e0] eqn:Hx; simpl in Hrun.
  - unfold report_no_captions, save_json in Hrun.
    destruct (save_fails _ j w) as [[err [written|]]|]; simpl in Hrun.
    + exists (exn_of_save_error err).
      split; [reflexivity|]. split; [by destruct err; injection Hrun as <- _|]. eauto.
    + exists (exn_of_save_error err).
      split; [reflexivity|]. split; [by destruct err; injection Hrun as <- _|]. eauto.
    + destruct j; simpl in Hrun; injection Hrun as <- _; eexists; (split; [reflexivity|]);
        (split; [reflexivity|]); first [left; reflexivity | right; left; eauto].
  - discriminate.
  - pose proof (extract_captions_raises _ _ Hx) as He0.
    destruct e0; try discriminate He0;
      injection Hrun as <- _; eexists; (split; [reflexivity|]); split; auto.
Qed.

(** X7. A parse that returns has extracted at least one caption, and its
    only effect is the removal of the raw output: the debug artifact is not
    written and no other file is touched. Where the removal fails the parse
    returns all the same and changes nothing. *)
Theorem parse_success_effects wav_path w caps w' :
  _parse_whisper_output wav_path w = (Ok caps, w') ->
  caps <> []
  /\ outside w' = outside w
  /\ (remove_fails (json_path_of wav_path) w = false ->
      files w' = delete (json_path_of wav_path) (files w))
  /\ (remove_fails (json_path_of wav_path) w = true -> w' = w).
Proof.
  intros Hparse.
  apply parse_Ok_extracted in Hparse as (raw & j & Hraw & _ & _ & Hne & ->).
  split; [exact Hne|]. unfold try_remove, os_remove, path_exists, json_path_of.
  rewrite Hraw. rewrite bool_decide_eq_true_2 by eauto.
  destruct (remove_fails _ w); repeat split; try reflexivity; discriminate.
Qed.

End PipelineFacts.

Lemma bundled_location_redundant_witness :
  let w := mkWorld {[ "/bundle/models/whisper.cpp/main.exe" := [] ]} 0 in
  sys_frozen bundled_sys = true
  /\ _find_whisper_executable (H := Demo.platform) bundled_sys "/bundle/models" w
     = Some "/bundle/models/whisper.cpp/main.exe".
Proof.
  split; [reflexivity|].
  rewrite (bundled_location_redundant (H := Demo.platform) bundled_sys _ "/bundle"
             eq_refl eq_refl).
  vm_compute. reflexivity.
Defined.


(** The engine fails, once with the WAV free and once with the WAV held. *)
Lemma engine_failure_skips_parse_witness :
  let w := Demo.installed [Demo.file "/in/a.mp3" "crash"] in
  let w' := Demo.installed [Demo.file "/in/a.mp3" "crash";
                            Demo.file "/tmp/a_16khz.wav.lock" ""] in
  let r := transcribe_audio (H := Demo.platform) demo_engine "/in/a.mp3" "auto" w in
  let r' := transcribe_audio (H := Demo.platform) demo_engine "/in/a.mp3" "auto" w' in
  fst r = Raise (WhisperFailed "engine error")
  /\ files (snd r) !! "/tmp/a_16khz.wav" = None
  /\ fst r' = Raise (WhisperFailed "engine error")
  /\ is_Some (files (snd r') !! "/tmp/a_16khz.wav").
Proof.
  cbv zeta.
  destruct (engine_failure_skips_parse (H := Demo.platform) demo_engine "/in/a.mp3" "auto"
              (Demo.installed [Demo.file "/in/a.mp3" "crash"]) "/tmp/a_16khz.wav"
              (snd (_convert_audio_to_wav (H := Demo.platform) "/in/a.mp3"
                      (Demo.installed [Demo.file "/in/a.mp3" "crash"])))
              1 (list_byte_of_string "engine error")
              (snd (_convert_audio_to_wav (H := Demo.platform) "/in/a.mp3"
                      (Demo.installed [Demo.file "/in/a.mp3" "crash"]))))
    as (Hr & _ & Hgone & _);
    [vm_compute; reflexivity | vm_compute; reflexivity | discriminate |].
  destruct (engine_failure_skips_parse (H := Demo.platform) demo_engine "/in/a.mp3" "auto"
              (Demo.installed [Demo.file "/in/a.mp3" "crash";
                               Demo.file "/tmp/a_16khz.wav.lock" ""]) "/tmp/a_16khz.wav"
              (snd (_convert_audio_to_wav (H := Demo.platform) "/in/a.mp3"
                      (Demo.installed [Demo.file "/in/a.mp3" "crash";
                                       Demo.file "/tmp/a_16khz.wav.lock" ""])))
              1 (list_byte_of_string "engine error")
              (snd (_convert_audio_to_wav (H := Demo.platform) "/in/a.mp3"
                      (Demo.installed [Demo.file "/in/a.mp3" "crash";
                                       Demo.file "/tmp/a_16khz.wav.lock" ""]))))
    as (Hr' & _ & _ & Hkept);
    [vm_compute; reflexivity | vm_compute; reflexivity | discriminate |].
  split; [exact Hr|]. split; [apply Hgone; vm_compute; reflexivity|].
  split; [exact Hr'|]. rewrite Hkept by (vm_compute; reflexivity).
  vm_compute. eauto.
Defined.

Lemma transcription_success_is_clean_witness :
  let w := Demo.installed [Demo.file "/in/a.mp3" "hello"] in
  let r := transcribe_audio (H := Demo.platform) demo_engine "/in/a.mp3" "auto" w in
  is_ok (fst r) = true
  /\ path_exists "/tmp/a_16khz.wav.json" (snd r) = false
  /\ path_exists "/tmp/a_16khz.wav" (snd r) = false.
Proof.
  cbv zeta.
  destruct (transcribe_audio (H := Demo.platform) demo_engine "/in/a.mp3" "auto"
              (Demo.installed [Demo.file "/in/a.mp3" "hello"])) as [[caps|e] w'] eqn:Hrun.
  - split; [reflexivity|].
    destruct (transcription_success_is_clean (H := Demo.platform) _ _ _ _ _ _ Hrun)
      as (_ & Hjson & Hwav).
    split; [apply Hjson | apply Hwav]; vm_compute; reflexivity.
  - apply (f_equal fst) in Hrun. vm_compute in Hrun. discriminate Hrun.
Defined.

Lemma parse_error_kinds_witness :
  exists e',
    fst (_parse_whisper_output (H := Demo.platform) "/tmp/a_16khz.wav" (raw_output_of "null"))
    = Raise (ProcessingFailed e').
Proof.
  destruct (_parse_whisper_output (H := Demo.platform) "/tmp/a_16khz.wav"
              (raw_output_of "null")) as [[caps|e] w'] eqn:Hrun.
  - apply (f_equal fst) in Hrun. vm_compute in Hrun. discriminate Hrun.
  - destruct (parse_error_kinds (H := Demo.platform) _ _ _ _ Hrun)
      as [(Hnone & _) | (raw & Hraw & [(Hloads & _) | (j & e' & _ & -> & _)])].
    + vm_compute in Hnone. discriminate Hnone.
    + vm_compute in Hraw. injection Hraw as <-. vm_compute in Hloads. discriminate Hloads.
    + exists e'. reflexivity.
Defined.

Lemma parse_success_effects_witness :
  let r := _parse_whisper_output (H := Demo.platform) "/tmp/a_16khz.wav"
             (raw_output_of "hello") in
  is_ok (fst r) = true /\ files (snd r) = ∅.
Proof.
  cbv zeta.
  destruct (_parse_whisper_output (H := Demo.platform) "/tmp/a_16khz.wav"
              (raw_output_of "hello")) as [[caps|e] w'] eqn:Hrun.
  - split; [reflexivity|].
    destruct (parse_success_effects (H := Demo.platform) _ _ _ _ Hrun) as (_ & _ & Hfiles & _).
    simpl. rewrite Hfiles by (vm_compute; reflexivity). apply delete_singleton_eq.
  - apply (f_equal fst) in Hrun. vm_compute in Hrun. discriminate Hrun.
Defined.

(** ** The ladder, segment by segment *)


Lemma for_each_appends_only {A} (body : list caption -> A -> result (list caption)) :
  appends_only body -> appends_only (fun caps xs => for_each body xs caps).
Proof.
  intros Hbody caps xs. revert caps.
  induction xs as [|x xs IH]; intros caps; simpl.
  - by rewrite app_nil_r.
  - rewrite (Hbody caps x). destruct (body [] x) as [new|e]; simpl; [|reflexivity].
    rewrite (IH (caps ++ new)), (IH new).
    destruct (for_each body xs []) as [rest|e]; simpl; [|reflexivity].
    by rewrite app_assoc.
Qed.

Lemma token_step_appends_only : appends_only token_step.
Proof.
  intros caps t. unfold token_step.
  destruct (Py.get "text" (JStr "") t) as [tt|]; simpl; [|reflexivity].
  destruct (Py.as_str tt) as [s|]; simpl; [|reflexivity].
  destruct (is_special_token s || str_falsy (Py.strip s)); simpl; [by rewrite app_nil_r|].
  destruct (Py.get "offsets" (JObj []) t) as [o|]; simpl; [|reflexivity].
  destruct (Py.get "from" (JInt 0) o); simpl; [|reflexivity].
  destruct (Py.get "to" (JInt 0) o); simpl; [|reflexivity].
  destruct (Py.get "p" _ t); reflexivity.
Qed.

Lemma word_step_appends_only : appends_only word_step.
Proof.
  intros caps t. unfold word_step.
  destruct (Py.get "text" (JStr "") t) as [d|]; simpl; [|reflexivity].
  destruct (Py.get "word" d t); simpl; [|reflexivity].
  destruct (seconds_to_ms "start" "t0" t); simpl; [|reflexivity].
  destruct (seconds_to_ms "end" "t1" t); simpl; [|reflexivity].
  destruct (Py.get "p" _ t) as [dc|]; simpl; [|reflexivity].
  destruct (Py.get "confidence" dc t); reflexivity.
Qed.

Lemma split_word_step_appends_only start_ms dpw :
  appends_only (split_word_step start_ms dpw).
Proof.
  intros caps [i word]. unfold split_word_step.
  destruct (Py.int_mul_float i dpw) as [sc|]; simpl; [|reflexivity].
  destruct (Py.int_of_float sc) as [off|]; simpl; [|reflexivity].
  destruct (Py.add_int start_ms off) as [ws|]; simpl; [|reflexivity].
  destruct (Py.int_of_float dpw) as [st|]; simpl; [|reflexivity].
  destruct (Py.add_int ws st); reflexivity.
Qed.

Lemma split_segment_appends_only : appends_only split_segment.
Proof.
  intros caps seg. unfold split_segment.
  destruct (Py.getitem "text" seg) as [raw|]; simpl; [|reflexivity].
  destruct (Py.as_str raw) as [s|]; simpl; [|reflexivity].
  destruct (str_falsy (Py.strip s)); simpl; [by rewrite app_nil_r|].
  destruct (Py.get "offsets" (JObj []) seg) as [o|]; simpl; [|reflexivity].
  destruct (Py.get "from" (JInt 0) o) as [a|]; simpl; [|reflexivity].
  destruct (Py.get "to" (JInt 0) o) as [b|]; simpl; [|reflexivity].
  destruct (Py.sub b a) as [d|]; simpl; [|reflexivity].
  destruct (Py.truediv_int d _) as [dpw|]; simpl; [|reflexivity].
  apply (for_each_appends_only _ (split_word_step_appends_only a dpw)).
Qed.

Lemma segment_step_appends_only : appends_only segment_step.
Proof.
  intros caps seg. unfold segment_step.
  destruct (Py.contains "tokens" seg) as [[|]|]; simpl; [| |reflexivity].
  { destruct (Py.getitem "tokens" seg) as [ts|]; simpl; [|reflexivity].
    destruct (Py.iter ts) as [xs|]; simpl; [|reflexivity].
    apply (for_each_appends_only _ token_step_appends_only). }
  destruct (Py.contains "words" seg) as [[|]|]; simpl; [| |reflexivity].
  { destruct (Py.getitem "words" seg) as [ts|]; simpl; [|reflexivity].
    destruct (Py.iter ts) as [xs|]; simpl; [|reflexivity].
    apply (for_each_appends_only _ word_step_appends_only). }
  destruct (Py.contains "text" seg) as [[|]|]; simpl; [| |reflexivity].
  - apply split_segment_appends_only.
  - by rewrite app_nil_r.
Qed.

Lemma for_each_gather {A} (body : list caption -> A -> result (list caption)) xs :
  appends_only body ->
  for_each body xs [] = gather (map (body []) xs).
Proof.
  intros Hbody. induction xs as [|x xs IH]; simpl; [reflexivity|].
  destruct (body [] x) as [new|e]; simpl; [|reflexivity].
  rewrite (for_each_appends_only _ Hbody new xs), IH. reflexivity.
Qed.

Lemma gather_Raise rs r e : In r rs -> r = Raise e -> is_ok (gather rs) = false.
Proof.
  intros Hin ->. induction rs as [|r rs IH]; [destruct Hin|].
  simpl. destruct Hin as [-> | Hin]; [reflexivity|].
  destruct r as [x|]; simpl; [|reflexivity].
  specialize (IH Hin). destruct (gather rs); [discriminate | reflexivity].
Qed.

(** X8. The captions of a transcript are those of its segments, each
    extracted on its own, in order: what a segment contributes does not
    depend on the segments before it. The extraction is all or nothing: one
    segment that raises makes it raise, whatever the other segments hold. *)
Theorem extraction_by_segment items segments :
  Py.assoc "transcription" items = Some (JArr segments) ->
  extract_captions (JObj items) = gather (map (segment_step []) segments)
  /\ (forall caps segment,
        segment_step caps segment = (new ← segment_step [] segment; Ok (caps ++ new)))
  /\ (forall segment e,
        In segment segments -> segment_step [] segment = Raise e ->
        is_ok (extract_captions (JObj items)) = false).
Proof.
  intros Hitems.
  assert (Hx : extract_captions (JObj items) = gather (map (segment_step []) segments)).
  { unfold extract_captions. simpl. rewrite Hitems. simpl.
    apply for_each_gather, segment_step_appends_only. }
  split; [exact Hx|]. split; [exact segment_step_appends_only|].
  intros segment e Hin Hraise. rewrite Hx.
  apply (gather_Raise _ (segment_step [] segment) e); [|exact Hraise].
  apply in_map. exact Hin.
Qed.

Lemma extraction_by_segment_witness :
  let good := JObj [("tokens", JArr [Demo.tok "Hello" 0 400])] in
  let bad := JObj [("text", JInt 7)] in
  extract_captions (Demo.transcript [good; good])
    = Ok [caption_of_token (Demo.tok "Hello" 0 400); caption_of_token (Demo.tok "Hello" 0 400)]
  /\ is_ok (extract_captions (Demo.transcript [good; bad])) = false.
Proof.
  cbv zeta. split.
  - unfold Demo.transcript.
    rewrite (proj1 (extraction_by_segment [("transcription", JArr _)] _ eq_refl)).
    vm_compute. reflexivity.
  - unfold Demo.transcript.
    refine (proj2 (proj2 (extraction_by_segment [("transcription", JArr _)] _ eq_refl))
              (JObj [("text", JInt 7)]) AttributeError _ _).
    + right. left. reflexivity.
    + vm_compute. reflexivity.
Defined.

(** ** The word tier *)

Lemma get_field k d items : Py.get k d (JObj items) = Ok (field k d (JObj items)).
Proof. reflexivity. Qed.

Lemma seconds_to_ms_word k1 k2 items z :
  word_ms k1 k2 (JObj items) = Some z -> seconds_to_ms k1 k2 (JObj items) = Ok z.
Proof.
  unfold word_ms, seconds_to_ms. rewrite !get_field. simpl.
  destruct (from_option id _ (Py.assoc k1 items)) as [| | x | f | | |]; try discriminate.
  - intros [= <-]. reflexivity.
  - simpl. intros Htr. unfold Py.int_of_float.
    destruct (Float64.mul f _); try discriminate Htr; by rewrite Htr.
Qed.

Lemma word_step_well_formed caps word :
  well_formed_word word = true -> word_step caps word = Ok (caps ++ [caption_of_word word]).
Proof.
  destruct word as [| | | | | |items]; try discriminate. simpl.
  intros [Hs He]%andb_prop.
  apply bool_decide_eq_true in Hs as [s Hs]. apply bool_decide_eq_true in He as [e He].
  unfold word_step, caption_of_word. rewrite !get_field. simpl.
  rewrite (seconds_to_ms_word _ _ _ _ Hs), (seconds_to_ms_word _ _ _ _ He). simpl.
  rewrite Hs, He. reflexivity.
Qed.

Lemma for_each_words ws : forall caps,
  forallb well_formed_word ws = true ->
  for_each word_step ws caps = Ok (caps ++ map caption_of_word ws).
Proof.
  induction ws as [|word ws IH]; intros caps Hwf; simpl.
  - by rewrite app_nil_r.
  - simpl in Hwf. apply andb_prop in Hwf as [Hword Hws].
    rewrite (word_step_well_formed _ _ Hword). simpl.
    rewrite (IH _ Hws), <- app_assoc. reflexivity.
Qed.

(** X9. The word tier. A segment without [tokens] whose [words] is an array
    of well-formed entries gives exactly one caption per entry, in order and
    without any filtering: the text is the entry's [word], else its [text],
    else empty; the times are those under [start] and [end] (else [t0] and
    [t1], else 0) in seconds, times 1000 and truncated; the confidence is
    the entry's [confidence], else its [p], else 0.95. *)
Theorem word_tier_captions caps items ws :
  Py.assoc "tokens" items = None ->
  Py.assoc "words" items = Some (JArr ws) ->
  forallb well_formed_word ws = true ->
  segment_step caps (JObj items) = Ok (caps ++ map caption_of_word ws)
  /\ length (map caption_of_word ws) = length ws
  /\ Forall stamp_is_start (map caption_of_word ws).
Proof.
  intros Htokens Hwords Hwf. split; [|split].
  - unfold segment_step. simpl. rewrite Htokens, Hwords. simpl.
    by apply for_each_words.
  - apply length_map.
  - apply List.Forall_forall. intros c (word & <- & _)%in_map_iff. reflexivity.
Qed.

Lemma word_tier_captions_witness :
  let half := JFloat (Float64.div_Z 1 2) in
  let entry := JObj [("word", JStr "hi"); ("text", JStr "other"); ("start", JInt 2);
                     ("t0", JInt 9); ("t1", half)] in
  segment_step [] (JObj [("words", JArr [entry; JObj []]); ("text", JStr "ignored")])
  = Ok [mkCaption (JStr "hi") (JInt 2000) (JInt 500) (JInt 2000) (JFloat Float64.c0_95);
        mkCaption (JStr "") (JInt 0) (JInt 0) (JInt 0) (JFloat Float64.c0_95)].
Proof.
  cbv zeta.
  rewrite (proj1 (word_tier_captions []
                    [("words", JArr [JObj [("word", JStr "hi"); ("text", JStr "other");
                                           ("start", JInt 2); ("t0", JInt 9);
                                           ("t1", JFloat (Float64.div_Z 1 2))];
                                     JObj []]);
                     ("text", JStr "ignored")]
                    _ eq_refl eq_refl eq_refl)).
  vm_compute. reflexivity.
Defined.

(** ** The signals of a batch *)

Section SignalFacts.
Context `{Platform}.

Lemma batch_events_unfinished total outs : forall idx,
  Forall (fun ev => is_finished ev = false) (batch_events total idx outs).
Proof.
  induction outs as [|[p r] rest IH]; intros idx; cbn [batch_events]; [constructor|].
  apply Forall_app. split; [|apply IH].
  unfold request_events, start_events, success_events. cbn [fst snd].
  destruct r; repeat constructor.
Qed.

Lemma items_unfinished (g : string -> message) names :
  Forall (fun ev => is_finished ev = false) (map (fun f => progress (g f)) names).
Proof. induction names; constructor; [reflexivity | assumption]. Qed.

Lemma summary_events_shape total succ failed :
  exists evs,
    summary_events total succ failed
    = evs ++ [finished (length failed =? 0)%nat (MSummary (length succ) total)]
    /\ Forall (fun ev => is_finished ev = false) evs
    /\ completions evs = [] /\ announcements evs = [].
Proof.
  unfold summary_events. rewrite !app_assoc. eexists. split; [reflexivity|].
  assert (Hitems : forall (g : string -> message) names,
             (forall f, match g f with MProcessing _ _ => False | _ => True end) ->
             completions (map (fun f => progress (g f)) names) = []
             /\ announcements (map (fun f => progress (g f)) names) = []).
  { intros g names Hg. induction names as [|n names [IHc IHa]]; [split; reflexivity|].
    split; [exact IHc|]. unfold announcements in *. simpl.
    specialize (Hg n). destruct (g n); try contradiction; exact IHa. }
  split; [|split].
  - rewrite !Forall_app. repeat split.
    + repeat constructor.
    + destruct succ; [constructor|]. constructor; [reflexivity|]. apply items_unfinished.
    + destruct failed; [constructor|]. constructor; [reflexivity|]. apply items_unfinished.
  - unfold completions. rewrite !omap_app.
    destruct (Hitems MSucceededItem succ (fun _ => I)) as [Hs _].
    destruct (Hitems MFailedItem failed (fun _ => I)) as [Hf _].
    unfold completions in Hs, Hf.
    destruct succ, failed; simpl in *; rewrite ?Hs, ?Hf; reflexivity.
  - unfold announcements. rewrite !omap_app.
    destruct (Hitems MSucceededItem succ (fun _ => I)) as [_ Hs].
    destruct (Hitems MFailedItem failed (fun _ => I)) as [_ Hf].
    unfold announcements in Hs, Hf.
    destruct succ, failed; simpl in *; rewrite ?Hs, ?Hf; reflexivity.
Qed.

(** The shape of what [run] emits: signals that are not [finished], then
    one [finished]. *)
Lemma run_emitted_shape sys audio_paths model language w :
  let st := run sys audio_paths model language w in
  exists evs ok summary,
    emitted st = evs ++ [finished ok summary]
    /\ Forall (fun ev => is_finished ev = false) evs
    /\ ok = is_ok (__init__ sys model w) && (length (failed_files st) =? 0)%nat
    /\ summary = match __init__ sys model w with
                 | Ok _ => MSummary (length (successful_files st)) (length audio_paths)
                 | Raise e => MBatchError e
                 end.
Proof.
  intros st. subst st. destruct (__init__ sys model w) as [engine|e] eqn:Hinit.
  - rewrite (run_constructed _ _ _ _ _ _ Hinit). cbn [emitted successful_files failed_files].
    destruct (summary_events_shape (length audio_paths)
                (succeeded_names (fst (job_outcomes engine language audio_paths w)))
                (failed_names (fst (job_outcomes engine language audio_paths w))))
      as (evs & -> & Hevs & _).
    eexists (progress MInit :: batch_events _ 1 _ ++ evs), _, _.
    split; [by rewrite app_comm_cons, app_assoc|].
    split; [|split; reflexivity].
    constructor; [reflexivity|]. apply Forall_app. split; [apply batch_events_unfinished | exact Hevs].
  - rewrite (run_not_constructed _ _ _ _ _ _ Hinit).
    exists [progress MInit; progress (MBatchError e)], false, (MBatchError e).
    split; [reflexivity|]. split; [repeat constructor|]. split; reflexivity.
Qed.

Lemma names_lengths outs :
  (length (succeeded_names outs) + length (failed_names outs) = length outs)%nat.
Proof.
  pose proof (names_partition outs) as Hperm. apply Permutation_length in Hperm.
  by rewrite length_app, !length_map in Hperm.
Qed.

Lemma job_outcomes_length engine language audio_paths w :
  length (fst (job_outcomes engine language audio_paths w)) = length audio_paths.
Proof.
  pose proof (job_outcomes_paths engine language audio_paths w) as Hp.
  apply (f_equal length) in Hp. by rewrite length_map in Hp.
Qed.

(** X10. Whatever happens, [run] emits exactly one [finished] signal, and
    it is the last signal. Its flag is true exactly when the engine was
    constructed and every request succeeded; between them the two lists
    then hold every request, and the summary counts the successes out of
    all requests. When the engine was not constructed the summary is the
    error. *)
Theorem run_finishes_once sys audio_paths model language w :
  let st := run sys audio_paths model language w in
  exists evs ok summary,
    emitted st = evs ++ [finished ok summary]
    /\ Forall (fun ev => is_finished ev = false) evs
    /\ match __init__ sys model w with
       | Ok _ =>
           (length (successful_files st) + length (failed_files st)
            = length audio_paths)%nat
           /\ ok = (length (successful_files st) =? length audio_paths)%nat
           /\ summary = MSummary (length (successful_files st)) (length audio_paths)
       | Raise e =>
           ok = false /\ summary = MBatchError e
           /\ successful_files st = [] /\ failed_files st = []
       end.
Proof.
  intros st.
  destruct (run_emitted_shape sys audio_paths model language w)
    as (evs & ok & summary & Hem & Hevs & Hok & Hsum).
  exists evs, ok, summary. split; [exact Hem|]. split; [exact Hevs|].
  fold st in Hok, Hsum. destruct (__init__ sys model w) as [engine|e] eqn:Hinit.
  - assert (Hlen : (length (successful_files st) + length (failed_files st)
                    = length audio_paths)%nat).
    { subst st. rewrite (run_constructed _ _ _ _ _ _ Hinit). cbn [successful_files failed_files].
      by rewrite names_lengths, job_outcomes_length. }
    split; [exact Hlen|]. split; [|exact Hsum].
    rewrite Hok. simpl.
    destruct (Nat.eqb_spec (length (failed_files st)) 0) as [Hz|Hz];
      symmetry; [apply Nat.eqb_eq | apply Nat.eqb_neq]; lia.
  - split; [by rewrite Hok|]. split; [exact Hsum|].
    subst st. rewrite (run_not_constructed _ _ _ _ _ _ Hinit). split; reflexivity.
Qed.

Lemma batch_events_announcements total outs : forall idx,
  announcements (batch_events total idx outs)
  = map (fun i => (i, total)) (seq idx (length outs)).
Proof.
  induction outs as [|[p r] rest IH]; intros idx; cbn [batch_events]; [reflexivity|].
  unfold announcements in *. rewrite omap_app, IH.
  unfold request_events, start_events, success_events. cbn [fst snd].
  destruct r; reflexivity.
Qed.

Lemma batch_events_completions total outs : forall idx,
  completions (batch_events total idx outs)
  = map (fun io => (fst io, total, os_path_basename (fst (snd io))))
        (List.filter (fun io => succeeded (snd (snd io)))
                     (combine (seq idx (length outs)) outs)).
Proof.
  induction outs as [|[p r] rest IH]; intros idx; cbn [batch_events]; [reflexivity|].
  unfold completions in *. rewrite omap_app, IH.
  unfold request_events, start_events, success_events. cbn [fst snd].
  destruct r; reflexivity.
Qed.

(** X11. Once the engine is constructed, every request is announced as
    file [idx] of [total] with its position, counted from 1, and the number
    of requests, in order, whether or not earlier requests failed; and a
    [file_completed] signal is emitted exactly for the requests whose
    captions were saved, in order, with the same position and total and
    with the base name of the file: none for a request whose transcription
    or saving raised. *)
Theorem progress_accounting sys audio_paths model language w engine :
  __init__ sys model w = Ok engine ->
  let st := run sys audio_paths model language w in
  let outs := fst (job_outcomes engine language audio_paths w) in
  let total := length audio_paths in
  announcements (emitted st) = map (fun i => (i, total)) (seq 1 total)
  /\ completions (emitted st)
     = map (fun io => (fst io, total, os_path_basename (fst (snd io))))
           (List.filter (fun io => succeeded (snd (snd io))) (combine (seq 1 total) outs)).
Proof.
  intros Hinit st outs total. subst st.
  rewrite (run_constructed _ _ _ _ _ _ Hinit). fold outs total. cbn [emitted].
  destruct (summary_events_shape total (succeeded_names outs) (failed_names outs))
    as (evs & -> & _ & Hc & Ha).
  assert (Hlen : length outs = total) by apply job_outcomes_length.
  split.
  - change (announcements (progress MInit :: ?l)) with (announcements l).
    unfold announcements in *. rewrite !omap_app, Ha. simpl. rewrite app_nil_r.
    fold (announcements (batch_events total 1 outs)).
    by rewrite batch_events_announcements, Hlen.
  - change (completions (progress MInit :: ?l)) with (completions l).
    unfold completions in *. rewrite !omap_app, Hc. simpl. rewrite app_nil_r.
    fold (completions (batch_events total 1 outs)).
    by rewrite batch_events_completions, Hlen.
Qed.

End SignalFacts.

(** Two requests with the same transcript; the captions of the first cannot
    be saved. *)
Lemma progress_accounting_witness :
  let w := Demo.installed [Demo.file "/in/a.mp3" "hello"; Demo.file "/in/b.mp3" "hello";
                           Demo.file "/in/a.json.lock" ""] in
  let st := run (H := Demo.platform) Demo.sys ["/in/a.mp3"; "/in/b.mp3"] "small" "auto" w in
  announcements (emitted st) = [(1, 2); (2, 2)]%nat
  /\ completions (emitted st) = [(2, 2, "b.mp3")]%nat
  /\ failed_files st = ["a.mp3"].
Proof.
  assert (Hinit : __init__ (H := Demo.platform) Demo.sys "small"
                    (Demo.installed [Demo.file "/in/a.mp3" "hello";
                                     Demo.file "/in/b.mp3" "hello";
                                     Demo.file "/in/a.json.lock" ""]) = Ok demo_engine)
    by (vm_compute; reflexivity).
  destruct (progress_accounting (H := Demo.platform) Demo.sys ["/in/a.mp3"; "/in/b.mp3"]
              "small" "auto" _ demo_engine Hinit) as [Ha Hc].
  cbv zeta. rewrite Ha, Hc. repeat split; vm_compute; reflexivity.
Defined.

(** ** The window *)

Lemma all_models_names :
  Forall (fun fd => exists name, first_word (snd fd) = Some name
                                 /\ fst fd = "ggml-" +:+ name +:+ ".bin"
                                 /\ In name model_names) all_models.
Proof.
  repeat constructor;
    eexists; (split; [vm_compute; reflexivity|]); (split; [reflexivity|]);
    simpl; tauto.
Qed.

Lemma fallback_models_names :
  Forall (fun item => exists name, first_word item = Some name /\ In name model_names)
         fallback_models.
Proof.
  repeat constructor; eexists; (split; [vm_compute; reflexivity|]); simpl; tauto.
Qed.

Lemma language_items_codes : Forall (fun item => is_Some (first_word item)) language_items.
Proof. repeat constructor; vm_compute; eauto. Qed.

Section WindowFacts.
Context `{Platform}.

Lemma available_models_in sys app_file w display :
  In display (_get_available_models sys app_file w) ->
  exists fd, In fd all_models /\ snd fd = display
             /\ path_exists (path_join (path_join (app_base_dir sys app_file) "models") (fst fd)) w
                = true.
Proof.
  unfold _get_available_models. destruct (negb _); [intros []|].
  intros (fd & Hsnd & Hin)%in_map_iff. apply filter_In in Hin as [Hin Hex]. eauto.
Qed.

Lemma model_combo_items_names sys app_file w item :
  In item (model_combo_items sys app_file w) ->
  exists name, first_word item = Some name /\ In name model_names.
Proof.
  unfold model_combo_items. intros Hin.
  assert (Hcases : In item fallback_models \/ In item (_get_available_models sys app_file w)).
  { destruct (_get_available_models sys app_file w); auto. }
  destruct Hcases as [Hfb | Hav].
  - exact (proj1 (List.Forall_forall _ _) fallback_models_names item Hfb).
  - apply available_models_in in Hav as (fd & Hfd & <- & _).
    destruct (proj1 (List.Forall_forall _ _) all_models_names fd Hfd) as (name & Hn & _ & Hm).
    eauto.
Qed.

(** X12. Whatever models are installed, every item of the model box names
    one of the five models by its first word, and every item of the
    language box has a first word; so with items of the boxes current,
    [generate_captions] does not fail on reading the selection. *)
Theorem box_items_have_names sys app_file answer st w :
  In (model_combo_text st) (model_combo_items sys app_file w) ->
  In (language_combo_text st) language_items ->
  exists name code,
    get_model_name st = Some name /\ In name model_names
    /\ get_language st = Some code
    /\ is_Some (generate_captions app_file answer st w).
Proof.
  intros Hmodel Hlang.
  apply model_combo_items_names in Hmodel as (name & Hname & Hin).
  destruct (proj1 (List.Forall_forall _ _) language_items_codes _ Hlang) as [code Hcode].
  exists name, code. split; [exact Hname|]. split; [exact Hin|]. split; [exact Hcode|].
  unfold generate_captions, get_model_name, get_language.
  destruct (ui_audio_paths st); [eauto|].
  rewrite Hname, Hcode. simpl. destruct (negb _); eauto.
Qed.

(** X13. A model that [_get_available_models] offers is found when it is
    used: with the application module, the engine module and the base
    directory in one place, selecting an offered item and asking for
    captions starts the thread for the model the item names, without any
    message box, and the construction of the engine for that model does
    not report a missing model. *)
Theorem offered_model_starts sys app_file answer st w language :
  app_base_dir sys app_file = path_parent app_file ->
  base_dir_of sys = path_parent app_file ->
  In (model_combo_text st) (_get_available_models sys app_file w) ->
  ui_audio_paths st <> [] ->
  get_language st = Some language ->
  exists name st1,
    get_model_name st = Some name
    /\ generate_captions app_file answer st w
       = Some (st1, [], Some (mkThread (ui_audio_paths st) name language))
    /\ forall e, __init__ sys name w = Raise e -> e = WhisperExeNotFound.
Proof.
  intros Happ Hengine Hin Hpaths Hlang.
  apply available_models_in in Hin as (fd & Hfd & Hsnd & Hex).
  destruct (proj1 (List.Forall_forall _ _) all_models_names fd Hfd) as (name & Hn & Hfile & _).
  rewrite Hsnd in Hn. rewrite Hfile, Happ in Hex.
  assert (Hgen : exists st1, generate_captions app_file answer st w
                  = Some (st1, [], Some (mkThread (ui_audio_paths st) name language))).
  { unfold generate_captions, get_model_name. rewrite Hlang, Hn. simpl. rewrite Hex. simpl.
    destruct (ui_audio_paths st); [contradiction | eauto]. }
  destruct Hgen as [st1 Hgen].
  exists name, st1. split; [exact Hn|]. split; [exact Hgen|].
  intros e. unfold __init__. rewrite Hengine, Hex. simpl.
    destruct (_find_whisper_executable _ _ w); intros [= <-]. reflexivity.
Qed.

Lemma log_lines ms : forall st,
  fold_left (fun s m => log (LogProgress m) s) ms st
  = mkUi (ui_audio_paths st) (file_label st) (browse_button_enabled st)
         (generate_button_enabled st) (model_combo_enabled st) (language_combo_enabled st)
         (model_combo_text st) (language_combo_text st) (progress_bar_visible st)
         (log_text st ++ map LogProgress ms).
Proof.
  induction ms as [|m ms IH]; intros st; simpl.
  - rewrite app_nil_r. by destruct st.
  - rewrite IH. simpl. by rewrite <- app_assoc.
Qed.

Lemma fold_deliver_unfinished evs : forall st shown,
  Forall (fun ev => is_finished ev = false) evs ->
  fold_left deliver evs (st, shown)
  = (fold_left (fun s m => log (LogProgress m) s) (progress_messages evs) st, shown).
Proof.
  induction evs as [|ev evs IH]; intros st shown Hevs; [reflexivity|].
  apply Forall_cons in Hevs as [Hev Hevs].
  destruct ev; try discriminate Hev; simpl; by rewrite IH.
Qed.

(** X14. A batch started from the window ends with the window usable
    again. When files are selected and the model of the selection is
    there, a click on the button followed by the thread's signals leaves all
    four controls enabled and the progress bar hidden, shows exactly one
    message box, the information box when the batch reported success and
    the warning box otherwise, each with the summary of the [finished]
    signal, and leaves in the log the six opening lines followed by the
    messages of the [progress] signals in the order of emission. *)
Theorem generation_round_trip sys app_file answer st w model_name language :
  ui_audio_paths st <> [] ->
  get_model_name st = Some model_name ->
  get_language st = Some language ->
  path_exists (path_join (path_join (path_parent app_file) "models")
                 ("ggml-" +:+ model_name +:+ ".bin")) w = true ->
  let r := run sys (ui_audio_paths st) model_name language w in
  exists ok summary,
    last (emitted r) = Some (finished ok summary)
    /\ generate_and_wait sys app_file answer st w
       = Some (mkUi (ui_audio_paths st) (file_label st) true true true true
                    (model_combo_text st) (language_combo_text st) false
                    ([LogText (UStarting (length (ui_audio_paths st)));
                      LogText (UModel model_name); LogText (ULanguage language);
                      LogText UOneAfterAnother; LogText UAutoSaved; LogText UEmpty]
                     ++ map LogProgress (progress_messages (emitted r))),
               [if ok then InfoBatchComplete summary else WarnBatchErrors summary],
               world r).
Proof.
  intros Hpaths Hmodel Hlang Hex r.
  destruct (run_emitted_shape sys (ui_audio_paths st) model_name language w)
    as (evs & ok & summary & Hem & Hevs & _).
  fold r in Hem. exists ok, summary. split; [by rewrite Hem, last_snoc|].
  unfold generate_and_wait, generate_captions. rewrite Hmodel, Hlang. simpl. rewrite Hex. simpl.
  destruct (ui_audio_paths st) as [|p ps] eqn:Hps; [contradiction|]. simpl.
  fold r. rewrite Hem, fold_left_app, (fold_deliver_unfinished _ _ _ Hevs), log_lines.
  simpl. unfold progress_messages. rewrite omap_app. simpl. by rewrite app_nil_r.
Qed.

End WindowFacts.

Lemma box_items_have_names_witness :
  get_model_name ready_window = Some "small" /\ get_language ready_window = Some "auto"
  /\ is_Some (generate_captions (H := Demo.platform) "/app/caption_generator_app.py" false
                ready_window (listed (Demo.installed []))).
Proof.
  destruct (box_items_have_names (H := Demo.platform) Demo.sys "/app/caption_generator_app.py"
              false ready_window (listed (Demo.installed [])))
    as (name & code & Hname & _ & Hcode & Hsome).
  - vm_compute. left. reflexivity.
  - left. reflexivity.
  - split; [vm_compute; reflexivity|]. split; [vm_compute; reflexivity | exact Hsome].
Defined.

Lemma offered_model_starts_witness :
  let w := listed (Demo.installed [Demo.file "/in/a.mp3" "hello"]) in
  _get_available_models (H := Demo.platform) Demo.sys "/app/caption_generator_app.py" w
    = ["small (466 MB, balanced) ✓"]
  /\ exists st1,
       generate_captions (H := Demo.platform) "/app/caption_generator_app.py" false
         ready_window w
       = Some (st1, [], Some (mkThread ["/in/a.mp3"] "small" "auto")).
Proof.
  cbv zeta. split; [vm_compute; reflexivity|].
  destruct (offered_model_starts (H := Demo.platform) Demo.sys "/app/caption_generator_app.py"
              false ready_window (listed (Demo.installed [Demo.file "/in/a.mp3" "hello"]))
              "auto")
    as (name & st1 & Hname & Hgen & _).
  - reflexivity.
  - reflexivity.
  - vm_compute. left. reflexivity.
  - discriminate.
  - vm_compute. reflexivity.
  - exists st1. rewrite Hgen. vm_compute in Hname. injection Hname as <-. reflexivity.
Defined.

Lemma generation_round_trip_witness :
  let w := Demo.installed [Demo.file "/in/a.mp3" "hello"] in
  exists st2 w',
    generate_and_wait (H := Demo.platform) Demo.sys "/app/caption_generator_app.py" false
      ready_window w
    = Some (st2, [InfoBatchComplete (MSummary 1 1)], w')
    /\ generate_button_enabled st2 = true /\ progress_bar_visible st2 = false.
Proof.
  cbv zeta.
  destruct (generation_round_trip (H := Demo.platform) Demo.sys "/app/caption_generator_app.py"
              false ready_window (Demo.installed [Demo.file "/in/a.mp3" "hello"])
              "small" "auto")
    as (ok & summary & Hlast & Hgen).
  - discriminate.
  - vm_compute. reflexivity.
  - vm_compute. reflexivity.
  - vm_compute. reflexivity.
  - vm_compute in Hlast. injection Hlast as <- <-.
    eexists. eexists. split; [exact Hgen|]. split; reflexivity.
Defined.

(** ** [test_transcription] *)

Lemma numbered_from_lookup {A} (xs : list A) : forall i k,
  numbered_from i xs !! k = (fun x => (S (i + k), x)) <$> xs !! k.
Proof.
  induction xs as [|x xs IH]; intros i k; [by destruct k|].
  destruct k as [|k]; simpl; [by rewrite Nat.add_0_r|].
  rewrite IH. by rewrite Nat.add_succ_r.
Qed.

Lemma numbered_from_length {A} (xs : list A) : forall i, length (numbered_from i xs) = length xs.
Proof. induction xs as [|x xs IH]; intros i; simpl; [reflexivity | by rewrite IH]. Qed.

(** X15. The lines [test_transcription] prints for the captions: line
    [k + 1] shows caption [k] under the number [k + 1], for the first ten
    captions; there are as many such lines as captions, at most ten, and
    one closing line with the count of the captions not shown when there are
    more than ten. *)
Theorem caption_lines_numbering captions k c :
  (k < 10)%nat -> captions !! k = Some c ->
  caption_lines captions !! k = Some (PCaption (S k) (text c) (startMs c) (endMs c))
  /\ length (caption_lines captions)
     = (Nat.min (length captions) 10 + if (10 <? length captions)%nat then 1 else 0)%nat
  /\ ((10 < length captions)%nat ->
      last (caption_lines captions) = Some (PMore (length captions - 10))).
Proof.
  intros Hk Hc. unfold caption_lines. split; [|split].
  - rewrite lookup_app_l.
    2:{ rewrite length_map, numbered_from_length, length_take.
        apply lookup_lt_Some in Hc. lia. }
    rewrite list_lookup_fmap, numbered_from_lookup, lookup_take_lt by exact Hk.
    rewrite Hc. reflexivity.
  - rewrite length_app, length_map, numbered_from_length, length_take.
    destruct (Nat.ltb_spec 10 (length captions)); cbn [length]; lia.
  - intros Hlen. apply Nat.ltb_lt in Hlen. rewrite Hlen. by rewrite last_snoc.
Qed.

Lemma caption_lines_numbering_witness :
  let c := caption_of_token (Demo.tok "Hello" 0 400) in
  caption_lines [c; c] !! 1%nat = Some (PCaption 2 (JStr "Hello") (JInt 0) (JInt 400))
  /\ length (caption_lines [c; c]) = 2%nat.
Proof.
  cbv zeta.
  destruct (caption_lines_numbering
              [caption_of_token (Demo.tok "Hello" 0 400);
               caption_of_token (Demo.tok "Hello" 0 400)] 1
              (caption_of_token (Demo.tok "Hello" 0 400))) as (Hline & Hlen & _).
  - lia.
  - reflexivity.
  - split; [exact Hline | exact Hlen].
Defined.

Section TestTranscriptionFacts.
Context `{Platform}.


End TestTranscriptionFacts.

(** ** The words of the segment-split tier *)

Lemma lstrip_nonspace s : Py.lstrip s <> "" -> has_nonspace (Py.lstrip s) = true.
Proof.
  induction s as [|c s IH]; simpl; [congruence|].
  destruct (Py.isspace c) eqn:Hc; [exact IH|]. intros _. simpl. by rewrite Hc.
Qed.

Lemma rev_app_nil s1 : forall s2, String.rev_app s1 s2 = "" -> s1 = "" /\ s2 = "".
Proof.
  induction s1 as [|c s1 IH]; intros s2; simpl; [auto|].
  intros Hrev. apply IH in Hrev as [_ [=]].
Qed.

Lemma strip_nonspace s : str_falsy (Py.strip s) = false -> has_nonspace s = true.
Proof.
  intros Hs. rewrite <- has_nonspace_strip.
  unfold Py.strip, Py.rstrip in *. rewrite has_nonspace_rev.
  apply lstrip_nonspace. intros Hnil. rewrite Hnil in Hs. discriminate Hs.
Qed.

Lemma split_go_nonempty s : forall cur,
  has_nonspace s = true \/ cur <> [] -> Py.split_go cur s <> [].
Proof.
  induction s as [|c s IH]; intros cur Hcase; simpl.
  - destruct Hcase as [[=] | Hcur]. by destruct cur.
  - destruct (Py.isspace c) eqn:Hc.
    + destruct cur; [|discriminate]. apply IH. left.
      destruct Hcase as [Hs | Hcur]; [|contradiction]. simpl in Hs. by rewrite Hc in Hs.
    + apply IH. right. discriminate.
Qed.

Lemma for_each_split_texts start_ms dpw words : forall i caps caps',
  for_each (split_word_step start_ms dpw) (enumerate_from i words) caps = Ok caps' ->
  exists new, caps' = caps ++ new /\ map text new = map JStr words.
Proof.
  induction words as [|word rest IH]; intros i caps caps' Hrun; simpl in Hrun.
  - injection Hrun as <-. exists []. split; [by rewrite app_nil_r | reflexivity].
  - apply bind_Ok in Hrun as (caps1 & Hstep & Hrun).
    destruct (IH _ _ _ Hrun) as (new & -> & Hnew).
    unfold split_word_step in Hstep. ok_inv. subst caps1.
    eexists (_ :: new). split; [by rewrite <- app_assoc|]. simpl. by rewrite Hnew.
Qed.

(** X17. In the segment-split tier a text that is not blank has at least
    one word, so the division is by the number of words and its guard
    against zero never applies; when the segment is extracted it gives one
    caption per word, with the words as texts in order, and so at least
    one caption. *)
Theorem split_tier_never_silent caps items s caps' :
  Py.assoc "text" items = Some (JStr s) ->
  str_falsy (Py.strip s) = false ->
  split_segment caps (JObj items) = Ok caps' ->
  let words := Py.split (Py.strip s) in
  words <> []
  /\ Z.max (Z.of_nat (length words)) 1 = Z.of_nat (length words)
  /\ exists new, caps' = caps ++ new /\ map text new = map JStr words /\ new <> [].
Proof.
  intros Htext Hs Hrun words.
  assert (Hwords : words <> []).
  { apply split_go_nonempty. left. rewrite has_nonspace_strip. by apply strip_nonspace. }
  split; [exact Hwords|]. split.
  - destruct words; [contradiction | simpl length; lia].
  - unfold split_segment in Hrun. simpl in Hrun. rewrite Htext in Hrun. simpl in Hrun.
    rewrite Hs in Hrun. ok_inv.
    apply for_each_split_texts in Hrun as (new & -> & Hnew).
    exists new. split; [reflexivity|]. split; [exact Hnew|].
    intros ->. fold words in Hnew. destruct words; [contradiction | discriminate Hnew].
Qed.

Lemma split_tier_never_silent_witness :
  exists new,
    split_segment [] (JObj [("text", JStr " one two  three ");
                            ("offsets", JObj [("from", JInt 100); ("to", JInt 200)])])
      = Ok new
    /\ map text new = [JStr "one"; JStr "two"; JStr "three"].
Proof.
  destruct (split_segment [] (JObj [("text", JStr " one two  three ");
              ("offsets", JObj [("from", JInt 100); ("to", JInt 200)])])) as [caps|e] eqn:Hrun;
    [|vm_compute in Hrun; discriminate Hrun].
  destruct (split_tier_never_silent []
              [("text", JStr " one two  three ");
               ("offsets", JObj [("from", JInt 100); ("to", JInt 200)])]
              " one two  three " caps eq_refl eq_refl Hrun)
    as (_ & _ & new & Hcaps & Htexts & _).
  simpl in Hcaps. subst new. exists caps. split; [reflexivity | exact Htexts].
Defined.
